(** * matlab-formatter: the line engine of internal/formatter, embedded in Rocq

    The Go package formats MATLAB source line by line.  Its lexer is a
    list of regular expressions (package regexp, leftmost-first
    semantics); its driver is a single stateful pass over the selected
    lines.  This file embeds

    - the text primitives of package strings the code calls,
    - a backtracking matcher with capture groups that computes what
      [FindStringSubmatch] returns,
    - every pattern compiled in [New],
    - the methods of [Formatter],
    - [readLines] and [FormatFile] over the content of a file,

    and then states and proves properties of the embedded program.

    Representation.  A Go string holding valid UTF-8 is the list of its
    code points ([rune], a number); [len] is the UTF-8 byte length.  Go
    [int] is [Z]: indent levels, counters and columns stay far inside the
    64-bit range.  The [float64] option [operatorSep] only takes the
    values 1, 1/2 and 0 and is a rational. *)

From Stdlib Require Import List Bool Arith ZArith NArith QArith Lia.
From Stdlib Require Import Ascii String.
Import ListNotations.

Set Implicit Arguments.
Set Warnings "-comment-terminator-in-string".
Local Open Scope list_scope.

(* ================================================================== *)
(** ** Text *)

Module Text.

Definition rune := N.
Definition text := list rune.

(** An ASCII literal of the source as a text. *)
Definition str (s : string) : text :=
  List.map N_of_ascii (list_ascii_of_string s).

Definition chr (a : ascii) : rune := N_of_ascii a.

(** UTF-8 width of a code point, and Go's [len] of a string. *)
Definition width (r : rune) : Z :=
  if (r <? 128)%N then 1
  else if (r <? 2048)%N then 2
  else if (r <? 65536)%N then 3
  else 4.

Definition len (s : text) : Z :=
  fold_right (fun r n => width r + n)%Z 0%Z s.

Definition mem (r : rune) (l : text) : bool := existsb (N.eqb r) l.

Fixpoint text_eqb (a b : text) : bool :=
  match a, b with
  | [], [] => true
  | x :: a', y :: b' => N.eqb x y && text_eqb a' b'
  | _, _ => false
  end.

(** unicode.IsSpace: the Latin-1 spaces and the White_Space code points. *)
Definition IsSpace (r : rune) : bool :=
  mem r [9; 10; 11; 12; 13; 32; 133; 160; 5760; 8232; 8233; 8239; 8287; 12288]%N
  || ((8192 <=? r) && (r <=? 8202))%N.

Fixpoint dropWhile (p : rune -> bool) (s : text) : text :=
  match s with
  | [] => []
  | x :: s' => if p x then dropWhile p s' else s
  end.

Fixpoint takeWhile (p : rune -> bool) (s : text) : text :=
  match s with
  | [] => []
  | x :: s' => if p x then x :: takeWhile p s' else []
  end.

Definition dropWhileEnd (p : rune -> bool) (s : text) : text :=
  rev (dropWhile p (rev s)).

(** strings.TrimSpace *)
Definition TrimSpace (s : text) : text :=
  dropWhileEnd IsSpace (dropWhile IsSpace s).

(** strings.TrimRight(s, cutset) *)
Definition TrimRight (s cutset : text) : text :=
  dropWhileEnd (fun r => mem r cutset) s.

(** The cutset of every TrimRight call of the package: " \t\r\n". *)
Definition cutset : text := [32; 9; 13; 10]%N.

(** strings.Repeat(" ", n) for n >= 0 *)
Definition spaces (n : Z) : text := repeat 32%N (Z.to_nat n).

(** strings.Count(s, sep) for a one-character separator. *)
Definition Count (s : text) (c : rune) : Z :=
  Z.of_nat (List.length (filter (N.eqb c) s)).

Definition isDigit (r : rune) : bool := ((48 <=? r) && (r <=? 57))%N.

(** strconv.Atoi on a string of decimal digits (the only strings the
    package passes): the value, or an error ([None]) on an empty string
    or a value beyond the 64-bit range. *)
Definition digitsValue (s : text) : Z :=
  fold_left (fun acc r => 10 * acc + Z.of_N (r - 48))%Z s 0%Z.

Definition Atoi (s : text) : option Z :=
  match s with
  | [] => None
  | _ =>
      if forallb isDigit s then
        let v := digitsValue s in
        if (v <=? 9223372036854775807)%Z then Some v else None
      else None
  end.

End Text.
Import Text.

(* ================================================================== *)
(** ** Regular expressions *)

Module Regexp.

(** The fragment of RE2 syntax the package uses.  [Star true] is the
    greedy [*], [Star false] the lazy [*?]; [Grp n] is the n-th capture
    group; [Bol] and [Eol] are [^] and [$] without the multi-line flag. *)
Inductive re : Type :=
| Eps
| Cls (p : rune -> bool)
| Seq (a b : re)
| Alt (a b : re)
| Star (greedy : bool) (a : re)
| Grp (n : nat) (a : re)
| Bol
| Eol.

Definition caps := list (nat * text).

(** Content of group [n]; an unset group reads as the empty string, as
    in the slice FindStringSubmatch returns. *)
Fixpoint group (c : caps) (n : nat) : text :=
  match c with
  | [] => []
  | (k, v) :: c' => if Nat.eqb k n then v else group c' n
  end.

Definition cont := nat -> text -> caps -> option caps.

(** Repetition.  [step] runs one iteration of the body and hands over to
    the continuation it is given; an iteration that consumes nothing is
    dropped (no body of the package's patterns matches the empty string).
    The fuel is the length of the remaining text, one more than the
    number of iterations that can still consume a character. *)
Fixpoint starLoop (step : nat -> text -> caps -> cont -> option caps)
  (g : bool) (k : cont) (fuel : nat) (i : nat) (s : text) (c : caps)
  {struct fuel} : option caps :=
  match fuel with
  | O => k i s c
  | S fuel' =>
      let again : cont := fun i' s' c' =>
        if Nat.ltb (List.length s') (List.length s)
        then starLoop step g k fuel' i' s' c' else None in
      if g then
        match step i s c again with
        | Some m => Some m
        | None => k i s c
        end
      else
        match k i s c with
        | Some m => Some m
        | None => step i s c again
        end
  end.

(** Leftmost-first matching: alternatives in order, greedy repetition
    tries one more iteration first, lazy repetition tries to stop first.
    [i] counts the characters consumed since the start of the text. *)
Fixpoint exec (r : re) (i : nat) (s : text) (c : caps) (k : cont)
  {struct r} : option caps :=
  match r with
  | Eps => k i s c
  | Cls p =>
      match s with
      | x :: s' => if p x then k (S i) s' c else None
      | [] => None
      end
  | Seq a b => exec a i s c (fun i' s' c' => exec b i' s' c' k)
  | Alt a b =>
      match exec a i s c k with
      | Some m => Some m
      | None => exec b i s c k
      end
  | Star g a => starLoop (exec a) g k (List.length s) i s c
  | Grp n a =>
      exec a i s c (fun i' s' c' => k i' s' ((n, firstn (i' - i) s) :: c'))
  | Bol => if Nat.eqb i 0 then k i s c else None
  | Eol => match s with [] => k i s c | _ :: _ => None end
  end.

Definition accept : cont := fun _ _ c => Some c.

(** Unanchored search: the leftmost starting position that matches. *)
Fixpoint search (r : re) (i : nat) (s : text) : option caps :=
  match exec r i s [] accept with
  | Some m => Some m
  | None =>
      match s with
      | [] => None
      | _ :: s' => search r (S i) s'
      end
  end.

Definition FindStringSubmatch (r : re) (s : text) : option caps :=
  search r 0 s.

Definition MatchString (r : re) (s : text) : bool :=
  match FindStringSubmatch r s with Some _ => true | None => false end.

(** *** Syntax helpers *)

Definition Lit (a : ascii) : re := Cls (N.eqb (chr a)).
Definition Plus (g : bool) (a : re) : re := Seq a (Star g a).
Definition Opt (a : re) : re := Alt a Eps.

Fixpoint seqs (l : list re) : re :=
  match l with
  | [] => Eps
  | [a] => a
  | a :: l' => Seq a (seqs l')
  end.

Fixpoint alts (l : list re) : re :=
  match l with
  | [] => Cls (fun _ => false)
  | [a] => a
  | a :: l' => Alt a (alts l')
  end.

(** A literal word, and an alternation of literal words in source order. *)
Definition word (w : string) : re := seqs (List.map (fun r => Cls (N.eqb r)) (str w)).
Definition words (l : list string) : re := alts (List.map word l).

(** Character classes. *)
Definition is_s (r : rune) : bool := mem r [9; 10; 12; 13; 32]%N.
Definition is_S (r : rune) : bool := negb (is_s r).
Definition is_d (r : rune) : bool := isDigit r.
Definition is_w (r : rune) : bool :=
  isDigit r || ((65 <=? r) && (r <=? 90))%N || ((97 <=? r) && (r <=? 122))%N
  || (r =? 95)%N.
Definition is_W (r : rune) : bool := negb (is_w r).
Definition is_dot (r : rune) : bool := negb (r =? 10)%N.
Definition oneOf (set : string) (r : rune) : bool := mem r (str set).
Definition noneOf (set : string) (r : rune) : bool := negb (mem r (str set)).

Definition s_ : re := Cls is_s.
Definition S_ : re := Cls is_S.
Definition w_ : re := Cls is_w.
Definition W_ : re := Cls is_W.
Definition d_ : re := Cls is_d.
Definition dot : re := Cls is_dot.

End Regexp.
Import Regexp.

(* ================================================================== *)
(** ** The patterns compiled by [New] *)

Module Patterns.

Definition ws := Star true s_.              (* "\s*" *)
Definition ws1 := Plus true s_.             (* "\s+" *)
Definition any := Star true dot.            (* ".*" *)
Definition chars (set : string) : re :=     (* x|y|z, in source order *)
  alts (List.map (fun r => Cls (N.eqb r)) (str set)).
Definition quote : re := Cls (N.eqb 39%N).   (* \' *)
Definition dquote : re := Cls (N.eqb 34%N).  (* the double quote *)

(** "(\W\s*\S.*|\s*$)": what may follow a block keyword. *)
Definition afterKeyword : re :=
  Alt (seqs [W_; ws; S_; any]) (Seq ws Eol).
(** "(\s+\S.*|\s*$)": what may follow an end keyword. *)
Definition afterEnd : re :=
  Alt (seqs [ws1; S_; any]) (Seq ws Eol).
(** "(.*?\S|^)" *)
Definition upToToken : re := Alt (Seq (Star false dot) S_) Bol.
(** "(\S.*|$)" *)
Definition rest : re := Alt (Seq S_ any) Eol.

(* "^(\s*)(if|while|for|try)(\W\s*\S.*\W)((end|endif|endwhile|endfor);?)(\s+\S.*|\s*$)" *)
Definition ctrl1Line : re :=
  seqs [Bol; Grp 1 ws; Grp 2 (words ["if"; "while"; "for"; "try"]%string);
        Grp 3 (seqs [W_; ws; S_; any; W_]);
        Grp 4 (Seq (Grp 5 (words ["end"; "endif"; "endwhile"; "endfor"]%string))
                   (Opt (Lit ";")));
        Grp 6 afterEnd].

(* "^(\s*)(function|classdef)\s*(\W\s*\S.*|\s*$)" *)
Definition fcnStart : re :=
  seqs [Bol; Grp 1 ws; Grp 2 (words ["function"; "classdef"]%string); ws;
        Grp 3 afterKeyword].

(* "^(\s*)(if|while|for|parfor|try|methods|properties|events|arguments|enumeration|spmd)\s*(\W\s*\S.*|\s*$)" *)
Definition ctrlStart : re :=
  seqs [Bol; Grp 1 ws;
        Grp 2 (words ["if"; "while"; "for"; "parfor"; "try"; "methods";
                      "properties"; "events"; "arguments"; "enumeration";
                      "spmd"]%string);
        ws; Grp 3 afterKeyword].

(* "^(\s*)(import|clear|clearvars)(.*$)" *)
Definition ctrlIgnore : re :=
  seqs [Bol; Grp 1 ws; Grp 2 (words ["import"; "clear"; "clearvars"]%string);
        Grp 3 (Seq any Eol)].

(* "^(\s*)(switch)\s*(\W\s*\S.*|\s*$)" *)
Definition ctrlStartSwitch : re :=
  seqs [Bol; Grp 1 ws; Grp 2 (word "switch"); ws; Grp 3 afterKeyword].

(* "^(\s*)(elseif|else|case|otherwise|catch)\s*(\W\s*\S.*|\s*$)" *)
Definition ctrlCont : re :=
  seqs [Bol; Grp 1 ws;
        Grp 2 (words ["elseif"; "else"; "case"; "otherwise"; "catch"]%string);
        ws; Grp 3 afterKeyword].

(* "^(\s*)((end|endfunction|endif|endwhile|endfor|endswitch);?)(\s+\S.*|\s*$)" *)
Definition ctrlEnd : re :=
  seqs [Bol; Grp 1 ws;
        Grp 2 (Seq (Grp 3 (words ["end"; "endfunction"; "endif"; "endwhile";
                                  "endfor"; "endswitch"]%string))
                   (Opt (Lit ";")));
        Grp 4 afterEnd].

(* "^(\s*)%.*$" *)
Definition lineComment : re := seqs [Bol; Grp 1 ws; Lit "%"; any; Eol].
(* "^.*\.\.\..*$" *)
Definition ellipsis : re := seqs [Bol; any; word "..."; any; Eol].
(* "^(\s*)%\{\s*$" *)
Definition blockCommentOpen : re := seqs [Bol; Grp 1 ws; word "%{"; ws; Eol].
(* "^(\s*)%\}\s*$" *)
Definition blockCommentClose : re := seqs [Bol; Grp 1 ws; word "%}"; ws; Eol].
(* "^\s*[\)\]\}].*$" *)
Definition blockClose : re := seqs [Bol; ws; Cls (oneOf ")]}"); any; Eol].
(* "^.*formatter\s+ignore\s+(\d*).*$" *)
Definition ignoreCommand : re :=
  seqs [Bol; any; word "formatter"; ws1; word "ignore"; ws1;
        Grp 1 (Star true d_); any; Eol].

(** "(.*?[\(\[\{,;=\+\-\*\/\|\&\s]|^)": a string literal starts the
    text or follows one of these characters. *)
Definition beforeString : re :=
  Alt (Seq (Star false dot)
           (Cls (fun r => oneOf "([{,;=+-*/|&" r || is_s r)))
      Bol.
(** "([\)\}\]\+\-\*\/=\|\&,;].*|\s+.*|$)" *)
Definition afterString : re :=
  alts [Seq (Cls (oneOf ")}]+-*/=|&,;")) any; Seq ws1 any; Eol].

(** A single-quoted literal, "\'([^\']|\'\')+\'", with its group 3. *)
Definition singleQuoted : re :=
  seqs [quote;
        Plus true (Grp 3 (Alt (Cls (fun r => negb (N.eqb r 39%N)))
                              (Seq quote quote)));
        quote].

(** A double-quoted literal, the same with the double quote Q and no
    doubling: "Q([^Q])*Q", with its group 3. *)
Definition doubleQuoted : re :=
  seqs [dquote;
        Star true (Grp 3 (Cls (fun r => negb (N.eqb r 34%N))));
        dquote].

(* "^(...|^)\s*(\'([^\']|\'\')+\')(...)" *)
Definition pString : re :=
  seqs [Bol; Grp 1 beforeString; ws; Grp 2 singleQuoted; Grp 4 afterString].

(* with Q for the double quote: "^(...|^)\s*(Q([^Q])*Q)(...)" *)
Definition pStringDQ : re :=
  seqs [Bol; Grp 1 beforeString; ws; Grp 2 doubleQuoted; Grp 4 afterString].

(* "^(.*\S|^)\s*(%.*)" *)
Definition pComment : re :=
  seqs [Bol; Grp 1 (Alt (Seq any S_) Bol); ws; Grp 2 (Seq (Lit "%") any)].
(* "^\s+$" *)
Definition pBlank : re := seqs [Bol; ws1; Eol].

(** "(.*?\W|^)" *)
Definition beforeNumber : re := Alt (Seq (Star false dot) W_) Bol.

(* "^(.*?\W|^)\s*(\d+\.?\d*)([eE][+-]?)(\d+)(.*)" *)
Definition pNumSci : re :=
  seqs [Bol; Grp 1 beforeNumber; ws;
        Grp 2 (seqs [Plus true d_; Opt (Lit "."); Star true d_]);
        Grp 3 (Seq (Cls (oneOf "eE")) (Opt (Cls (oneOf "+-"))));
        Grp 4 (Plus true d_); Grp 5 any].

(* "^(.*?\W|^)\s*(\d+)\s*(\/)\s*(\d+)(.*)" *)
Definition pNumRational : re :=
  seqs [Bol; Grp 1 beforeNumber; ws; Grp 2 (Plus true d_); ws;
        Grp 3 (Lit "/"); ws; Grp 4 (Plus true d_); Grp 5 any].

(* "^(.*?\S|^)\s*(\+|\-)\s*(\+|\-)\s*([\)\]\},;].*|$)" *)
Definition pIncrement : re :=
  seqs [Bol; Grp 1 upToToken; ws; Grp 2 (chars "+-"); ws; Grp 3 (chars "+-");
        ws; Grp 4 (Alt (Seq (Cls (oneOf ")]},;")) any) Eol)].

(* "^(.*?[\(\[\{,;:=\*/\s]|^)\s*(\+|\-)(\w.*)" *)
Definition pSign : re :=
  seqs [Bol;
        Grp 1 (Alt (Seq (Star false dot)
                        (Cls (fun r => oneOf "([{,;:=*/" r || is_s r)))
                   Bol);
        ws; Grp 2 (chars "+-"); Grp 3 (Seq w_ any)].

(* "^(.*?\S|^)\s*(:)\s*(\S.*|$)" *)
Definition pColon : re :=
  seqs [Bol; Grp 1 upToToken; ws; Grp 2 (Lit ":"); ws; Grp 3 rest].
(* "^(.*?\S|^)\s*(\.\.\.)\s*(\S.*|$)" *)
Definition pEllipsis : re :=
  seqs [Bol; Grp 1 upToToken; ws; Grp 2 (word "..."); ws; Grp 3 rest].
(* "^(.*?\S|^)\s*(\.)\s*(\+|\-|\*|/|\^)\s*(=)\s*(\S.*|$)" *)
Definition pOpDot : re :=
  seqs [Bol; Grp 1 upToToken; ws; Grp 2 (Lit "."); ws; Grp 3 (chars "+-*/^");
        ws; Grp 4 (Lit "="); ws; Grp 5 rest].
(* "^(.*?\S|^)\s*(\.)\s*(\^)\s*(\S.*|$)" *)
Definition pPowDot : re :=
  seqs [Bol; Grp 1 upToToken; ws; Grp 2 (Lit "."); ws; Grp 3 (Lit "^"); ws;
        Grp 4 rest].
(* "^(.*?\S|^)\s*(\^)\s*(\S.*|$)" *)
Definition pPow : re :=
  seqs [Bol; Grp 1 upToToken; ws; Grp 2 (Lit "^"); ws; Grp 3 rest].
(* "^(.*?\S|^)\s*(\.|\+|\-|\*|\\|/|=|<|>|\||\&|!|~|\^)\s*(<|>|=|\+|\-|\*|/|\&|\|)\s*(\S.*|$)" *)
Definition pOpComb : re :=
  seqs [Bol; Grp 1 upToToken; ws; Grp 2 (chars ".+-*\/=<>|&!~^"); ws;
        Grp 3 (chars "<>=+-*/&|"); ws; Grp 4 rest].
(* "^(.*?\S|^)\s*(!|~)\s*(\S.*|$)" *)
Definition pNot : re :=
  seqs [Bol; Grp 1 upToToken; ws; Grp 2 (chars "!~"); ws; Grp 3 rest].
(* "^(.*?\S|^)\s*(\+|\-|\*|\\|/|=|!|~|<|>|\||\&)\s*(\S.*|$)" *)
Definition pOp : re :=
  seqs [Bol; Grp 1 upToToken; ws; Grp 2 (chars "+-*\/=!~<>|&"); ws;
        Grp 3 rest].
(* "^(.*?\w)(\()\s*(\S.*|$)" *)
Definition pFunc : re :=
  seqs [Bol; Grp 1 (Seq (Star false dot) w_); Grp 2 (Lit "("); ws; Grp 3 rest].
(* "^(.*?)(\(|\[|\{)\s*(\S.*|$)" *)
Definition pOpen : re :=
  seqs [Bol; Grp 1 (Star false dot); Grp 2 (chars "([{"); ws; Grp 3 rest].
(* "^(.*?\S|^)\s*(\)|\]|\})(.*|$)" *)
Definition pClose : re :=
  seqs [Bol; Grp 1 upToToken; ws; Grp 2 (chars ")]}"); Grp 3 (Alt any Eol)].
(* "^(.*?\S|^)\s*(,|;)\s*(\S.*|$)" *)
Definition pComma : re :=
  seqs [Bol; Grp 1 upToToken; ws; Grp 2 (chars ",;"); ws; Grp 3 rest].
(* "^(.*?\S|^)(\s{2,})(\S.*|$)" *)
Definition pMultiWS : re :=
  seqs [Bol; Grp 1 upToToken; Grp 2 (seqs [s_; s_; ws]); Grp 3 rest].
(* "^(\s*)(.*)$" *)
Definition initialIndent : re := seqs [Bol; Grp 1 ws; Grp 2 any; Eol].

(** The pattern [cellIndent] compiles on each call,
    "(\s*)((\S.*)?)(%s.*$)" with the quoted opening bracket for %s. *)
Definition bracketPattern (open : rune) : re :=
  seqs [Grp 1 ws; Grp 2 (Opt (Grp 3 (Seq S_ any)));
        Grp 4 (seqs [Cls (N.eqb open); any; Eol])].

End Patterns.
Import Patterns.

(* ================================================================== *)
(** ** The formatter *)

Module Formatter.

Local Open Scope Z_scope.

(** [Options], with the Go field names. *)
Record Options := {
  StartLine : Z;
  EndLine : Z;
  IndentWidth : Z;
  SeparateBlocks : bool;
  IndentMode : string;
  AddSpaces : string;
  MatrixIndent : string
}.

Definition DefaultOptions : Options := {|
  StartLine := 1;
  EndLine := 0;
  IndentWidth := 4;
  SeparateBlocks := true;
  IndentMode := "all_functions";
  AddSpaces := "exclude_pow";
  MatrixIndent := "aligned"
|}.

(** The three option tables. *)
Definition indentModes (k : string) : option Z :=
  if String.eqb k "all_functions" then Some 1
  else if String.eqb k "only_nested_functions" then Some (-1)
  else if String.eqb k "classic" then Some 0
  else None.

Definition operatorSpaces (k : string) : option Q :=
  if String.eqb k "all_operators" then Some 1%Q
  else if String.eqb k "exclude_pow" then Some (1 # 2)%Q
  else if String.eqb k "no_spaces" then Some 0%Q
  else None.

Definition matrixIndentation (k : string) : option bool :=
  if String.eqb k "aligned" then Some true
  else if String.eqb k "simple" then Some false
  else None.

Definition blockCommentSentinel : Z := Z.shiftl 1 30.

(** The fields of [Formatter] that [New] fixes (the compiled patterns are
    the constants of [Patterns]). *)
Record Config := {
  opts : Options;
  indentMode : Z;
  operatorSep : Q;
  matrixIndent : bool;
  iwidth : Z;
  separateBlock : bool
}.

(** The fields of [Formatter] a run mutates.  The two stacks grow at the
    end, as [append] does. *)
Record State := {
  ilvl : Z;
  istep : list Z;
  fstep : list Z;
  matrix : Z;
  cell : Z;
  isBlockComment : Z;
  isLineComment : Z;
  longLine : Z;
  continueLine : Z;
  isComment : Z;
  ignoreLines : Z
}.

Definition orDefault {A} (o : option A) (d : A) : A :=
  match o with Some a => a | None => d end.

(** [New]: an error ([None]) for a non-positive indent width; unknown
    option strings fall back to the defaults. *)
Definition New (o : Options) : option Config :=
  if IndentWidth o <=? 0 then None
  else Some {|
    opts := o;
    indentMode := orDefault (indentModes (IndentMode o)) 1;
    operatorSep := orDefault (operatorSpaces (AddSpaces o)) (1 # 2)%Q;
    matrixIndent := orDefault (matrixIndentation (MatrixIndent o)) true;
    iwidth := IndentWidth o;
    separateBlock := SeparateBlocks o
  |}.

Definition resetState (st : State) : State := {|
  ilvl := 0; istep := []; fstep := []; matrix := 0; cell := 0;
  isBlockComment := 0; isLineComment := 0; longLine := 0;
  continueLine := 0; isComment := 0; ignoreLines := 0
|}.

(** The state of a formatter fresh from [New]. *)
Definition zeroState : State := {|
  ilvl := 0; istep := []; fstep := []; matrix := 0; cell := 0;
  isBlockComment := 0; isLineComment := 0; longLine := 0;
  continueLine := 0; isComment := 0; ignoreLines := 0
|}.

Definition set_ilvl (st : State) (v : Z) : State :=
  {| ilvl := v; istep := istep st; fstep := fstep st; matrix := matrix st;
     cell := cell st; isBlockComment := isBlockComment st;
     isLineComment := isLineComment st; longLine := longLine st;
     continueLine := continueLine st; isComment := isComment st;
     ignoreLines := ignoreLines st |}.
Definition set_istep (st : State) (v : list Z) : State :=
  {| ilvl := ilvl st; istep := v; fstep := fstep st; matrix := matrix st;
     cell := cell st; isBlockComment := isBlockComment st;
     isLineComment := isLineComment st; longLine := longLine st;
     continueLine := continueLine st; isComment := isComment st;
     ignoreLines := ignoreLines st |}.
Definition set_fstep (st : State) (v : list Z) : State :=
  {| ilvl := ilvl st; istep := istep st; fstep := v; matrix := matrix st;
     cell := cell st; isBlockComment := isBlockComment st;
     isLineComment := isLineComment st; longLine := longLine st;
     continueLine := continueLine st; isComment := isComment st;
     ignoreLines := ignoreLines st |}.
Definition set_matrix (st : State) (v : Z) : State :=
  {| ilvl := ilvl st; istep := istep st; fstep := fstep st; matrix := v;
     cell := cell st; isBlockComment := isBlockComment st;
     isLineComment := isLineComment st; longLine := longLine st;
     continueLine := continueLine st; isComment := isComment st;
     ignoreLines := ignoreLines st |}.
Definition set_cell (st : State) (v : Z) : State :=
  {| ilvl := ilvl st; istep := istep st; fstep := fstep st; matrix := matrix st;
     cell := v; isBlockComment := isBlockComment st;
     isLineComment := isLineComment st; longLine := longLine st;
     continueLine := continueLine st; isComment := isComment st;
     ignoreLines := ignoreLines st |}.
Definition set_isBlockComment (st : State) (v : Z) : State :=
  {| ilvl := ilvl st; istep := istep st; fstep := fstep st; matrix := matrix st;
     cell := cell st; isBlockComment := v;
     isLineComment := isLineComment st; longLine := longLine st;
     continueLine := continueLine st; isComment := isComment st;
     ignoreLines := ignoreLines st |}.
Definition set_isLineComment (st : State) (v : Z) : State :=
  {| ilvl := ilvl st; istep := istep st; fstep := fstep st; matrix := matrix st;
     cell := cell st; isBlockComment := isBlockComment st;
     isLineComment := v; longLine := longLine st;
     continueLine := continueLine st; isComment := isComment st;
     ignoreLines := ignoreLines st |}.
Definition set_longLine (st : State) (v : Z) : State :=
  {| ilvl := ilvl st; istep := istep st; fstep := fstep st; matrix := matrix st;
     cell := cell st; isBlockComment := isBlockComment st;
     isLineComment := isLineComment st; longLine := v;
     continueLine := continueLine st; isComment := isComment st;
     ignoreLines := ignoreLines st |}.
Definition set_continueLine (st : State) (v : Z) : State :=
  {| ilvl := ilvl st; istep := istep st; fstep := fstep st; matrix := matrix st;
     cell := cell st; isBlockComment := isBlockComment st;
     isLineComment := isLineComment st; longLine := longLine st;
     continueLine := v; isComment := isComment st;
     ignoreLines := ignoreLines st |}.
Definition set_isComment (st : State) (v : Z) : State :=
  {| ilvl := ilvl st; istep := istep st; fstep := fstep st; matrix := matrix st;
     cell := cell st; isBlockComment := isBlockComment st;
     isLineComment := isLineComment st; longLine := longLine st;
     continueLine := continueLine st; isComment := v;
     ignoreLines := ignoreLines st |}.
Definition set_ignoreLines (st : State) (v : Z) : State :=
  {| ilvl := ilvl st; istep := istep st; fstep := fstep st; matrix := matrix st;
     cell := cell st; isBlockComment := isBlockComment st;
     isLineComment := isLineComment st; longLine := longLine st;
     continueLine := continueLine st; isComment := isComment st;
     ignoreLines := v |}.

(** *** The token extractor

    [extractStringOrComment], [extract], [format] and
    [cleanLineFromStringsAndComments] read [operatorSep] and write one
    field, [isComment]; they take and return that field. *)

Definition extraction := option (text * text * text).

Definition extractStringOrComment (ic : Z) (part : text) : Z * extraction :=
  let m := FindStringSubmatch pString part in
  let m2 := FindStringSubmatch pStringDQ part in
  let m :=
    match m2 with
    | Some c2 =>
        match m with
        | None => m2
        | Some c => if len (group c 2) <? len (group c2 2) then m2 else m
        end
    | None => m
    end in
  match m with
  | Some c => (ic, Some (group c 1, group c 2, group c 4))
  | None =>
      match FindStringSubmatch pComment part with
      | Some c => (1, Some (group c 1 ++ str " ", group c 2, []))
      | None => (ic, None)
      end
  end.

Definition gt0 (q : Q) : bool := negb (Qle_bool q 0).
Definition gtHalf (q : Q) : bool := negb (Qle_bool q (1 # 2)).
Definition sepIf (b : bool) : text := if b then str " " else [].

Definition extract (f : Config) (ic : Z) (part : text) : Z * extraction :=
  if MatchString pBlank part then (ic, Some ([], str " ", []))
  else
  match extractStringOrComment ic part with
  | (ic', Some e) => (ic', Some e)
  | (ic', None) =>
  let ok (e : text * text * text) := (ic', Some e) in
  match FindStringSubmatch pNumSci part with
  | Some m => ok (group m 1 ++ group m 2, group m 3, group m 4 ++ group m 5)
  | None =>
  match FindStringSubmatch pNumRational part with
  | Some m => ok (group m 1 ++ group m 2, group m 3, group m 4 ++ group m 5)
  | None =>
  match FindStringSubmatch pIncrement part with
  | Some m => ok (group m 1, group m 2 ++ group m 3, group m 4)
  | None =>
  match FindStringSubmatch pSign part with
  | Some m => ok (group m 1, group m 2, group m 3)
  | None =>
  match FindStringSubmatch pColon part with
  | Some m => ok (group m 1, group m 2, group m 3)
  | None =>
  match FindStringSubmatch pOpDot part with
  | Some m =>
      let sep := sepIf (gt0 (operatorSep f)) in
      ok (group m 1 ++ sep, group m 2 ++ group m 3 ++ group m 4,
          sep ++ group m 5)
  | None =>
  match FindStringSubmatch pPowDot part with
  | Some m =>
      let sep := sepIf (gtHalf (operatorSep f)) in
      ok (group m 1 ++ sep, group m 2 ++ group m 3, sep ++ group m 4)
  | None =>
  match FindStringSubmatch pPow part with
  | Some m =>
      let sep := sepIf (gtHalf (operatorSep f)) in
      ok (group m 1 ++ sep, group m 2, sep ++ group m 3)
  | None =>
  match FindStringSubmatch pOpComb part with
  | Some m =>
      let sep := sepIf (gt0 (operatorSep f)) in
      ok (group m 1 ++ sep, group m 2 ++ group m 3, sep ++ group m 4)
  | None =>
  match FindStringSubmatch pNot part with
  | Some m => ok (group m 1 ++ str " ", group m 2, group m 3)
  | None =>
  match FindStringSubmatch pOp part with
  | Some m =>
      let sep := sepIf (gt0 (operatorSep f)) in
      ok (group m 1 ++ sep, group m 2, sep ++ group m 3)
  | None =>
  match FindStringSubmatch pFunc part with
  | Some m => ok (group m 1, group m 2, group m 3)
  | None =>
  match FindStringSubmatch pOpen part with
  | Some m => ok (group m 1, group m 2, group m 3)
  | None =>
  match FindStringSubmatch pClose part with
  | Some m => ok (group m 1, group m 2, group m 3)
  | None =>
  match FindStringSubmatch pComma part with
  | Some m => ok (group m 1, group m 2, str " " ++ group m 3)
  | None =>
  match FindStringSubmatch pEllipsis part with
  | Some m => ok (group m 1 ++ str " ", group m 2, str " " ++ group m 3)
  | None =>
  match FindStringSubmatch pMultiWS part with
  | Some m => ok (group m 1, str " ", group m 3)
  | None => (ic', None)
  end end end end end end end end end end end end end end end end end
  end.

(** The recursion of [format] and of [cleanLineFromStringsAndComments]
    is not structural: the left and right remainders are new strings.
    Both are written with a fuel argument; [budget] is enough of it for
    every input (theorems [format_fuel_enough] and [clean_fuel_enough]),
    so the [None] of an exhausted fuel is never reached from [format] and
    [cleanLineFromStringsAndComments]. *)
Definition nonSpaces (s : text) : nat := List.length (filter is_S s).
Definition weight (s : text) : nat := nonSpaces s + List.length s.
Definition budget (s : text) : nat := S (weight s).

Fixpoint format_fuel (f : Config) (fuel : nat) (ic : Z) (part : text)
  : option (Z * text) :=
  match fuel with
  | O => None
  | S n =>
      match extract f ic part with
      | (ic1, None) => Some (ic1, part)
      | (ic1, Some (lhs, mid, rhs)) =>
          match format_fuel f n ic1 lhs with
          | None => None
          | Some (ic2, l) =>
              match format_fuel f n ic2 rhs with
              | None => None
              | Some (ic3, r) => Some (ic3, l ++ mid ++ r)
              end
          end
      end
  end.

Definition format (f : Config) (ic : Z) (part : text) : Z * text :=
  orDefault (format_fuel f (budget part) ic part) (ic, part).

Fixpoint clean_fuel (fuel : nat) (ic : Z) (line : text) : option (Z * text) :=
  match fuel with
  | O => None
  | S n =>
      match extractStringOrComment ic line with
      | (ic1, None) => Some (ic1, line)
      | (ic1, Some (lhs, _, rhs)) =>
          match clean_fuel n ic1 lhs with
          | None => None
          | Some (ic2, l) =>
              match clean_fuel n ic2 rhs with
              | None => None
              | Some (ic3, r) => Some (ic3, l ++ str " " ++ r)
              end
          end
      end
  end.

Definition cleanLineFromStringsAndComments (ic : Z) (line : text) : Z * text :=
  orDefault (clean_fuel (budget line) ic line) (ic, line).

Definition indent (f : Config) (st : State) (extra : Z) : text :=
  let width := (ilvl st + continueLine st) * iwidth f in
  let width := width + extra in
  let width := if width <? 0 then 0 else width in
  if width =? 0 then [] else spaces width.

(** [cellIndent]: the net bracket count of the cleaned line and the new
    continuation indent; the third component is [isComment]. *)
Definition cellIndent (f : Config) (ic : Z) (line : text) (open close : rune)
  (indent : Z) : Z * Z * Z :=
  let '(ic1, cleaned) := cleanLineFromStringsAndComments ic line in
  let openCount := Count cleaned open - Count cleaned close in
  let indent :=
    if 0 <? openCount then
      match FindStringSubmatch (bracketPattern open) cleaned with
      | Some m =>
          let n := len (group m 2) in
          if matrixIndent f then n + 1 else iwidth f
      | None => indent
      end
    else if openCount <? 0 then 0
    else indent in
  (openCount, indent, ic1).

Definition multilineMatrix (f : Config) (st : State) (line : text) : Z * State :=
  let '(diff, indent, ic) := cellIndent f (isComment st) line 91%N 93%N (matrix st) in
  (diff, set_matrix (set_isComment st ic) indent).

Definition cellArray (f : Config) (st : State) (line : text) : Z * State :=
  let '(diff, indent, ic) := cellIndent f (isComment st) line 123%N 125%N (cell st) in
  (diff, set_cell (set_isComment st ic) indent).

(** [f.format(x)] as a step on the state; [fmt] is the common
    [strings.TrimSpace(f.format(x))]. *)
Definition fmt (f : Config) (st : State) (x : text) : text * State :=
  let '(ic, out) := format f (isComment st) x in
  (TrimSpace out, set_isComment st ic).

(** *** formatLine

    The result is the indent offset, the emitted line and the new state.
    [FindStringSubmatch] returns one entry per group, so the length
    tests [len(m) == k] of the source hold for every match. *)

Definition nonEmpty (l : list Z) : bool :=
  match l with [] => false | _ :: _ => true end.

Definition formatLine (f : Config) (st : State) (line : text)
  : Z * text * State :=
  if 0 <? ignoreLines st then
    let st := set_ignoreLines st (ignoreLines st - 1) in
    (0, indent f st 0 ++ TrimSpace line, st)
  else
  let st :=
    if MatchString lineComment line then set_isLineComment st 2
    else if 0 <? isLineComment st
         then set_isLineComment st (isLineComment st - 1)
         else st in
  let st :=
    if MatchString blockCommentOpen line
    then set_isBlockComment st blockCommentSentinel
    else if MatchString blockCommentClose line then set_isBlockComment st 1
    else if 0 <? isBlockComment st
         then set_isBlockComment st (isBlockComment st - 1)
         else st in
  let st := set_isComment st 0 in
  let '(ic, stripped) := cleanLineFromStringsAndComments (isComment st) line in
  let st := set_isComment st ic in
  let ellipsisInComment := (isLineComment st =? 2) || (0 <? isBlockComment st) in
  let st :=
    if MatchString blockClose stripped || ellipsisInComment
    then set_continueLine st 0
    else set_continueLine st (longLine st) in
  let st :=
    if MatchString ellipsis stripped && negb ellipsisInComment
    then set_longLine st 1
    else set_longLine st 0 in
  if 0 <? isBlockComment st then (0, TrimRight line cutset, st)
  else if isLineComment st =? 2 then
    let st :=
      match FindStringSubmatch ignoreCommand line with
      | Some m =>
          match group m 1 with
          | _ :: _ =>
              match Atoi (group m 1) with
              | Some v =>
                  if 1 <? v then set_ignoreLines st v
                  else set_ignoreLines st 1
              | None => st
              end
          | [] => set_ignoreLines st 1
          end
      | None => st
      end in
    (0, indent f st 0 ++ TrimSpace line, st)
  else if MatchString ctrlIgnore line then
    (0, indent f st 0 ++ TrimSpace line, st)
  else
  let prevMatrix := matrix st in
  let '(diff, st) := multilineMatrix f st line in
  if negb (diff =? 0) || negb (prevMatrix =? 0) then
    let '(out, st') := fmt f st line in
    (0, indent f st prevMatrix ++ out, st')
  else
  let prevCell := cell st in
  let '(diff, st) := cellArray f st line in
  if negb (diff =? 0) || negb (prevCell =? 0) then
    let '(out, st') := fmt f st line in
    (0, indent f st prevCell ++ out, st')
  else
  match FindStringSubmatch ctrl1Line line with
  | Some m =>
      let '(o3, st1) := fmt f st (group m 3) in
      let '(o6, st2) := fmt f st1 (group m 6) in
      (0, indent f st 0 ++ group m 2 ++ str " " ++ o3 ++ str " "
            ++ group m 4 ++ str " " ++ o6, st2)
  | None =>
  match FindStringSubmatch fcnStart line with
  | Some m =>
      let offset := indentMode f in
      let st := set_fstep st (fstep st ++ [1]) in
      let offset :=
        if indentMode f =? -1 then
          if (1 <? Z.of_nat (List.length (fstep st))) then 1 else 0
        else offset in
      let '(o3, st') := fmt f st (group m 3) in
      (offset, indent f st 0 ++ group m 2 ++ str " " ++ o3, st')
  | None =>
  match FindStringSubmatch ctrlStart line with
  | Some m =>
      let st := set_istep st (istep st ++ [1]) in
      let '(o3, st') := fmt f st (group m 3) in
      (1, indent f st 0 ++ group m 2 ++ str " " ++ o3, st')
  | None =>
  match FindStringSubmatch ctrlStartSwitch line with
  | Some m =>
      let st := set_istep st (istep st ++ [2]) in
      let '(o3, st') := fmt f st (group m 3) in
      (2, indent f st 0 ++ group m 2 ++ str " " ++ o3, st')
  | None =>
  match FindStringSubmatch ctrlCont line with
  | Some m =>
      let '(o3, st') := fmt f st (group m 3) in
      (0, indent f st (- iwidth f) ++ group m 2 ++ str " " ++ o3, st')
  | None =>
  match FindStringSubmatch ctrlEnd line with
  | Some m =>
      let '(step, indentExtra, st) :=
        if nonEmpty (istep st) then
          let step := last (istep st) 0 in
          (step, - step * iwidth f, set_istep st (removelast (istep st)))
        else if nonEmpty (fstep st) then
          let step := last (fstep st) 0 in
          (step, - step * iwidth f, set_fstep st (removelast (fstep st)))
        else if 0 <? ilvl st then (1, 0, st)
        else (0, 0, st) in
      let '(o4, st') := fmt f st (group m 4) in
      (- step, indent f st indentExtra ++ group m 2 ++ str " " ++ o4, st')
  | None =>
      let '(out, st') := fmt f st line in
      (0, indent f st 0 ++ out, st')
  end end end end end end.

(** *** FormatLines *)

(** lines[a:b] for 0 <= a <= b <= len(lines) *)
Definition slice (lines : list text) (a b : Z) : list text :=
  firstn (Z.to_nat (b - a)) (skipn (Z.to_nat a) lines).

(** The range the options select: (startIdx, endIdx). *)
Definition selection (f : Config) (lines : list text) : Z * Z :=
  let n := Z.of_nat (List.length lines) in
  let start := StartLine (opts f) in
  let start := if start <? 1 then 1 else start in
  let end_ := EndLine (opts f) in
  let startIdx := start - 1 in
  let startIdx := if n <? startIdx then n else startIdx in
  let endIdx := n in
  let endIdx := if (0 <? end_) && (end_ <=? n) then end_ else endIdx in
  let endIdx := if endIdx <? startIdx then startIdx else endIdx in
  (startIdx, endIdx).

(** The first selected line gives the initial level and loses its
    leading whitespace. *)
Definition enterSegment (f : Config) (st : State) (segment : list text)
  : State * list text :=
  match segment with
  | first :: others =>
      match FindStringSubmatch initialIndent first with
      | Some m =>
          (set_ilvl st (Z.quot (len (group m 1)) (iwidth f)),
           group m 2 :: others)
      | None => (st, segment)
      end
  | [] => (st, segment)
  end.

(** One iteration of the loop over the segment; the accumulator is the
    formatter state, [output] and [blank]. *)
Definition lineStep (f : Config) (acc : State * list text * bool)
  (rawLine : text) : State * list text * bool :=
  let '(st, output, blank) := acc in
  if len (TrimSpace rawLine) =? 0 then
    if negb blank then (st, output ++ [[]], true) else acc
  else
    let '(offset, line, st) := formatLine f st rawLine in
    let st := set_ilvl st (ilvl st + offset) in
    let st := if ilvl st <? 0 then set_ilvl st 0 else st in
    let output :=
      if separateBlock f && (0 <? offset) && negb blank
         && (isLineComment st =? 0)
      then output ++ [[]] else output in
    let output := output ++ [TrimRight line cutset] in
    if separateBlock f && (offset <? 0)
    then (st, output ++ [[]], true)
    else (st, output, false).

Definition isEmpty (t : text) : bool :=
  match t with [] => true | _ :: _ => false end.

(** Drops the trailing empty lines of the output. *)
Definition trimBlankEnd (output : list text) : list text :=
  rev ((fix drop (l : list text) : list text :=
          match l with
          | [] => []
          | x :: l' => if isEmpty x then drop l' else l
          end) (rev output)).

Definition orBlank (output : list text) : list text :=
  match output with [] => [[]] | _ :: _ => output end.

(** The formatted segment: the middle part of the result. *)
Definition formatSegment (f : Config) (st0 : State) (lines : list text)
  (startIdx endIdx : Z) : list text * State :=
  let segment := slice lines startIdx endIdx in
  let segment := match segment with [] => [[]] | _ :: _ => segment end in
  let st := resetState st0 in
  let '(st, segment) := enterSegment f st segment in
  let '(st, output, _) := fold_left (lineStep f) segment (st, [], true) in
  let output :=
    if endIdx =? Z.of_nat (List.length lines)
    then orBlank (trimBlankEnd output)
    else orBlank output in
  (output, st).

Definition FormatLines (f : Config) (st0 : State) (lines : list text)
  : list text * State :=
  let '(startIdx, endIdx) := selection f lines in
  if startIdx =? endIdx then (lines, st0)
  else
    let '(output, st) := formatSegment f st0 lines startIdx endIdx in
    (firstn (Z.to_nat startIdx) lines ++ output
       ++ skipn (Z.to_nat endIdx) lines, st).

(** The lines a run returns. *)
Definition formatted (f : Config) (lines : list text) : list text :=
  fst (FormatLines f zeroState lines).

(** The indent deltas along a run of the loop: one entry per line of the
    segment, [None] for a blank line. *)
Fixpoint deltas (f : Config) (acc : State * list text * bool)
  (segment : list text) : list (option Z) :=
  match segment with
  | [] => []
  | rawLine :: segment' =>
      (if len (TrimSpace rawLine) =? 0 then None
       else Some (fst (fst (formatLine f (fst (fst acc)) rawLine))))
        :: deltas f (lineStep f acc rawLine) segment'
  end.

End Formatter.

Import Formatter.

(* ================================================================== *)
(** ** Reading and writing a file *)

Module Files.

(** strings.HasPrefix *)
Fixpoint HasPrefix (s prefix : text) {struct prefix} : bool :=
  match prefix, s with
  | [], _ => true
  | p :: prefix', x :: s' => N.eqb x p && HasPrefix s' prefix'
  | _ :: _, [] => false
  end.

(** strings.ReplaceAll(s, old, new) for a non-empty [old]: the
    occurrences of [old] are replaced from left to right and do not
    overlap.  [skip] counts the characters of the occurrence just
    replaced that are still to be passed over. *)
Fixpoint replaceFrom (old new : text) (skip : nat) (s : text) : text :=
  match s with
  | [] => []
  | x :: s' =>
      match skip with
      | S k => replaceFrom old new k s'
      | O =>
          if HasPrefix s old
          then new ++ replaceFrom old new (List.length old - 1) s'
          else x :: replaceFrom old new 0 s'
      end
  end.

Definition ReplaceAll (s old new : text) : text := replaceFrom old new 0 s.

(** strings.Split(s, sep) for a non-empty [sep]: the texts between the
    occurrences of [sep], one more than there are occurrences. *)
Fixpoint splitFrom (sep : text) (skip : nat) (s : text) : list text :=
  match s with
  | [] => [[]]
  | x :: s' =>
      match skip with
      | S k => splitFrom sep k s'
      | O =>
          if HasPrefix s sep
          then [] :: splitFrom sep (List.length sep - 1) s'
          else
            match splitFrom sep 0 s' with
            | l :: ls => (x :: l) :: ls
            | [] => [[x]]
            end
      end
  end.

Definition Split (s sep : text) : list text := splitFrom sep 0 s.

Definition CR : rune := 13%N.
Definition LF : rune := 10%N.

(** [readLines] on the content that io.ReadAll returns. *)
Definition readLines (data : text) : list text :=
  let content := ReplaceAll data [CR; LF] [LF] in
  let content := ReplaceAll content [CR] [LF] in
  let lines := Split content [LF] in
  if (1 <? Z.of_nat (List.length lines))%Z && isEmpty (last lines [])
  then removelast lines
  else lines.

(** The loop of [FormatFile] over the formatted lines: fmt.Fprintln
    writes the line and a line feed. *)
Definition writeLines (lines : list text) : text :=
  List.concat (List.map (fun line => line ++ [LF]) lines).

(** What [FormatFile] reads from: standard input, and the files that
    os.Open opens ([None] is its error).  Reading a reader that was
    opened and writing to the writer are taken to succeed. *)
Record World := {
  stdin : text;
  files : text -> option text
}.

Definition openReader (w : World) (filename : text) : option text :=
  if text_eqb filename (str "-") then Some (stdin w) else files w filename.

(** [FormatFile]: [None] is the error returned, [Some out] what the
    writer has received when nil is returned. *)
Definition FormatFile (f : Config) (st : State) (w : World) (filename : text)
  : option text * State :=
  match openReader w filename with
  | None => (None, st)
  | Some data =>
      let lines := readLines data in
      let '(formatted, st') := FormatLines f st lines in
      (Some (writeLines formatted), st')
  end.

End Files.
Import Files.

(* ================================================================== *)
(** * Vocabulary of the properties *)

(** ** A declarative reading of patterns *)

(** [iter P]: a run of non-empty matches of [P], one after the other. *)
Inductive iter (P : nat -> text -> text -> caps -> caps -> Prop)
  : nat -> text -> text -> caps -> caps -> Prop :=
| iter_nil i t c : iter P i [] t c c
| iter_cons i s1 s2 t c c1 c2 :
    s1 <> [] ->
    P i s1 (s2 ++ t) c c1 ->
    iter P (i + List.length s1) s2 t c1 c2 ->
    iter P i (s1 ++ s2) t c c2.

(** [sem r i s t c c']: the pattern [r] matches [s], which starts at
    index [i] of the subject and is followed by [t]; the captures go
    from [c] to [c'], the last group closed being first. *)
Fixpoint sem (r : re) (i : nat) (s t : text) (c c' : caps) {struct r} : Prop :=
  match r with
  | Eps => s = [] /\ c' = c
  | Cls p => exists x, s = [x] /\ p x = true /\ c' = c
  | Seq a b =>
      exists s1 s2 c1,
        s = s1 ++ s2 /\ sem a i s1 (s2 ++ t) c c1
        /\ sem b (i + List.length s1) s2 t c1 c'
  | Alt a b => sem a i s t c c' \/ sem b i s t c c'
  | Star _ a => iter (sem a) i s t c c'
  | Grp n a => exists c1, sem a i s t c c1 /\ c' = (n, s) :: c1
  | Bol => i = 0%nat /\ s = [] /\ c' = c
  | Eol => s = [] /\ t = [] /\ c' = c
  end.

(** The first result, or else the second: the order of backtracking. *)
Definition orelse (a b : option caps) : option caps :=
  match a with Some m => Some m | None => b end.

(** A pattern without groups leaves the captures as they are. *)
Fixpoint groupFree (r : re) : bool :=
  match r with
  | Eps | Cls _ | Bol | Eol => true
  | Seq a b | Alt a b => groupFree a && groupFree b
  | Star _ a => groupFree a
  | Grp _ _ => false
  end.

(** Whether group [k] occurs in the pattern. *)
Fixpoint mentions (k : nat) (r : re) : bool :=
  match r with
  | Eps | Cls _ | Bol | Eol => false
  | Seq a b | Alt a b => mentions k a || mentions k b
  | Star _ a => mentions k a
  | Grp n a => Nat.eqb n k || mentions k a
  end.

(** A lower bound of the length of every match. *)
Fixpoint minLen (r : re) : nat :=
  match r with
  | Eps | Bol | Eol | Star _ _ => 0
  | Cls _ => 1
  | Seq a b => minLen a + minLen b
  | Alt a b => Nat.min (minLen a) (minLen b)
  | Grp _ a => minLen a
  end.

(** A pattern whose every match runs to the end of a text without line
    feed: it ends in "$" or in a greedy repetition of a class that holds
    every character but the line feed. *)
Fixpoint EndsGreedy (r : re) : Prop :=
  match r with
  | Star true (Cls p) => forall x, is_dot x = true -> p x = true
  | Eol => True
  | Seq _ b => EndsGreedy b
  | Alt a b => EndsGreedy a /\ EndsGreedy b
  | Grp _ a => EndsGreedy a
  | _ => False
  end.

Fixpoint classesIn (q : rune -> bool) (r : re) : Prop :=
  match r with
  | Cls p => forall x, p x = true -> q x = true
  | Seq a b | Alt a b => classesIn q a /\ classesIn q b
  | Star _ a | Grp _ a => classesIn q a
  | Eps | Bol | Eol => True
  end.

(** A continuation that accepts wherever it is called. *)
Definition total (k : cont) : Prop := forall i s c, k i s c <> None.

(** ** Texts and lines *)

(** The line from its first character that the pattern class "\s" does not
    hold. *)
Definition lineHead (line : text) : text := dropWhile is_s line.

(** A text without line feed: what [readLines] gives for a line. *)
Definition oneLine (s : text) : Prop := forallb is_dot s = true.

(** The characters of a text that are no white space, in order. *)
Definition visible (s : text) : text := filter (fun r => negb (IsSpace r)) s.

(** The lines that hold a character other than white space, each without
    its white space. *)
Definition content (lines : list text) : list text :=
  filter (fun t => negb (isEmpty t)) (List.map visible lines).

(** An extraction that keeps the characters of the part that are no
    white space, in order, and returns pieces without line feed. *)
Definition keeps (part l mid r : text) : Prop :=
  visible l ++ visible mid ++ visible r = visible part
  /\ oneLine l /\ oneLine mid /\ oneLine r.

(** An emitted line that holds the characters of the line it was made
    from, white space apart, and no line feed. *)
Definition sameLine (line out : text) : Prop :=
  visible out = visible line /\ oneLine out.

Local Open Scope string_scope.
Local Open Scope list_scope.
Local Open Scope Z_scope.

(** ** Configurations and inputs *)

(** The configuration [New] builds from the default options, and the
    options and configurations of the classic mode and of a range. *)
Definition defaultConfig : Config := {|
  opts := DefaultOptions; indentMode := 1; operatorSep := (1 # 2)%Q;
  matrixIndent := true; iwidth := 4; separateBlock := true |}.

Definition withMode (mode : string) : Options := {|
  StartLine := 1; EndLine := 0; IndentWidth := 4; SeparateBlocks := true;
  IndentMode := mode; AddSpaces := "exclude_pow"; MatrixIndent := "aligned" |}.

Definition withRange (a b : Z) : Options := {|
  StartLine := a; EndLine := b; IndentWidth := 4; SeparateBlocks := true;
  IndentMode := "all_functions"; AddSpaces := "exclude_pow";
  MatrixIndent := "aligned" |}.

Definition classicConfig : Config := {|
  opts := withMode "classic"; indentMode := 0; operatorSep := (1 # 2)%Q;
  matrixIndent := true; iwidth := 4; separateBlock := true |}.

Definition rangeConfig (a b : Z) : Config := {|
  opts := withRange a b; indentMode := 1; operatorSep := (1 # 2)%Q;
  matrixIndent := true; iwidth := 4; separateBlock := true |}.

(** A list of lines written as string literals. *)
Definition texts (l : list string) : list text := List.map str l.

Definition dq : text := [34%N].

(** A state in the middle of a run: inside a function and an [if], with
    two lines still to be ignored. *)
Definition midRun : State := {|
  ilvl := 2; istep := [1]; fstep := [1]; matrix := 0; cell := 0;
  isBlockComment := 0; isLineComment := 1; longLine := 0;
  continueLine := 0; isComment := 0; ignoreLines := 2 |}.

(** A fragment with a single-quoted string followed by a longer
    double-quoted one: 'a' + Qbcdef Q with Q the double quote. *)
Definition twoStrings : text := str "'a' + " ++ dq ++ str "bcdef" ++ dq.

Definition nestedQuotes : text :=
  str "x = 'a' + ' " ++ dq ++ str "bcdef" ++ dq ++ str " y=1'".

(** ** formatLine in two steps *)

(** The comment and continuation bookkeeping at the head of [formatLine]. *)
Definition trackState (st : State) (line : text) : State :=
  let st :=
    if MatchString lineComment line then set_isLineComment st 2
    else if 0 <? isLineComment st
         then set_isLineComment st (isLineComment st - 1)
         else st in
  let st :=
    if MatchString blockCommentOpen line
    then set_isBlockComment st blockCommentSentinel
    else if MatchString blockCommentClose line then set_isBlockComment st 1
    else if 0 <? isBlockComment st
         then set_isBlockComment st (isBlockComment st - 1)
         else st in
  let st := set_isComment st 0 in
  let '(ic, stripped) := cleanLineFromStringsAndComments (isComment st) line in
  let st := set_isComment st ic in
  let ellipsisInComment := (isLineComment st =? 2) || (0 <? isBlockComment st) in
  let st :=
    if MatchString blockClose stripped || ellipsisInComment
    then set_continueLine st 0
    else set_continueLine st (longLine st) in
  if MatchString ellipsis stripped && negb ellipsisInComment
  then set_longLine st 1
  else set_longLine st 0.

(** What [formatLine] does with the line once the bookkeeping is done. *)
Definition dispatch (f : Config) (st : State) (line : text)
  : Z * text * State :=
  if 0 <? isBlockComment st then (0, TrimRight line cutset, st)
  else if isLineComment st =? 2 then
    let st :=
      match FindStringSubmatch ignoreCommand line with
      | Some m =>
          match group m 1 with
          | _ :: _ =>
              match Atoi (group m 1) with
              | Some v =>
                  if 1 <? v then set_ignoreLines st v
                  else set_ignoreLines st 1
              | None => st
              end
          | [] => set_ignoreLines st 1
          end
      | None => st
      end in
    (0, indent f st 0 ++ TrimSpace line, st)
  else if MatchString ctrlIgnore line then
    (0, indent f st 0 ++ TrimSpace line, st)
  else
  let prevMatrix := matrix st in
  let '(diff, st) := multilineMatrix f st line in
  if negb (diff =? 0) || negb (prevMatrix =? 0) then
    let '(out, st') := fmt f st line in
    (0, indent f st prevMatrix ++ out, st')
  else
  let prevCell := cell st in
  let '(diff, st) := cellArray f st line in
  if negb (diff =? 0) || negb (prevCell =? 0) then
    let '(out, st') := fmt f st line in
    (0, indent f st prevCell ++ out, st')
  else
  match FindStringSubmatch ctrl1Line line with
  | Some m =>
      let '(o3, st1) := fmt f st (group m 3) in
      let '(o6, st2) := fmt f st1 (group m 6) in
      (0, indent f st 0 ++ group m 2 ++ str " " ++ o3 ++ str " "
            ++ group m 4 ++ str " " ++ o6, st2)
  | None =>
  match FindStringSubmatch fcnStart line with
  | Some m =>
      let offset := indentMode f in
      let st := set_fstep st (fstep st ++ [1]) in
      let offset :=
        if indentMode f =? -1 then
          if (1 <? Z.of_nat (List.length (fstep st))) then 1 else 0
        else offset in
      let '(o3, st') := fmt f st (group m 3) in
      (offset, indent f st 0 ++ group m 2 ++ str " " ++ o3, st')
  | None =>
  match FindStringSubmatch ctrlStart line with
  | Some m =>
      let st := set_istep st (istep st ++ [1]) in
      let '(o3, st') := fmt f st (group m 3) in
      (1, indent f st 0 ++ group m 2 ++ str " " ++ o3, st')
  | None =>
  match FindStringSubmatch ctrlStartSwitch line with
  | Some m =>
      let st := set_istep st (istep st ++ [2]) in
      let '(o3, st') := fmt f st (group m 3) in
      (2, indent f st 0 ++ group m 2 ++ str " " ++ o3, st')
  | None =>
  match FindStringSubmatch ctrlCont line with
  | Some m =>
      let '(o3, st') := fmt f st (group m 3) in
      (0, indent f st (- iwidth f) ++ group m 2 ++ str " " ++ o3, st')
  | None =>
  match FindStringSubmatch ctrlEnd line with
  | Some m =>
      let '(step, indentExtra, st) :=
        if nonEmpty (istep st) then
          let step := last (istep st) 0 in
          (step, - step * iwidth f, set_istep st (removelast (istep st)))
        else if nonEmpty (fstep st) then
          let step := last (fstep st) 0 in
          (step, - step * iwidth f, set_fstep st (removelast (fstep st)))
        else if 0 <? ilvl st then (1, 0, st)
        else (0, 0, st) in
      let '(o4, st') := fmt f st (group m 4) in
      (- step, indent f st indentExtra ++ group m 2 ++ str " " ++ o4, st')
  | None =>
      let '(out, st') := fmt f st line in
      (0, indent f st 0 ++ out, st')
  end end end end end end.

Definition normalize (f : Config) (part : text) : text := snd (format f 0 part).

(** The line with its strings and comments taken out. *)
Definition cleaned (line : text) : text :=
  snd (cleanLineFromStringsAndComments 0 line).

(** The count of opening minus closing brackets of the cleaned line. *)
Definition netBrackets (line : text) (open close : rune) : Z :=
  Count (cleaned line) open - Count (cleaned line) close.

(** ** Bracket regions *)

(** The text splits at its last opening bracket: leading white space,
    a body that starts with a character that is no white space (or is
    empty), the bracket, and a rest without that bracket. *)
Definition splitsAt (open : rune) (text lead body post : text) : Prop :=
  text = lead ++ body ++ open :: post
  /\ forallb is_s lead = true
  /\ match body with x :: _ => is_s x = false | [] => True end
  /\ forallb is_dot body = true /\ forallb is_dot post = true
  /\ Count post open = 0.

(** A line that [formatLine] neither skips nor passes through: the ignore
    counter is spent, the line is no comment line, no block-comment
    sentinel and not inside a block comment, and no import/clear line. *)
Definition formattedLine (st : State) (line : text) : Prop :=
  ignoreLines st <= 0 /\ isBlockComment st <= 1 /\ isLineComment st <= 2
  /\ MatchString lineComment line = false
  /\ MatchString blockCommentOpen line = false
  /\ MatchString blockCommentClose line = false
  /\ MatchString ctrlIgnore line = false.

(** What the claim about a bracket region says of one result of
    [formatLine]. *)
Definition regionResult (f : Config) (st : State) (line : text)
  (r : Z * text * State) : Prop :=
  let '(offset, out, st') := r in
  let net := netBrackets line 91%N 93%N in
  let netCell := netBrackets line 123%N 125%N in
  (net <> 0 \/ matrix st <> 0 ->
     offset = 0
     /\ out = indent f st' (matrix st) ++ TrimSpace (normalize f line))
  /\ (net < 0 -> matrix st' = 0)
  /\ (net = 0 -> matrix st' = matrix st)
  /\ (0 < net ->
      forall lead body post,
        splitsAt 91%N (cleaned line) lead body post ->
        matrix st' = if matrixIndent f then len body + 1 else iwidth f)
  /\ (net = 0 -> matrix st = 0 ->
      (netCell <> 0 \/ cell st <> 0 ->
         offset = 0
         /\ out = indent f st' (cell st) ++ TrimSpace (normalize f line))
      /\ (netCell < 0 -> cell st' = 0)
      /\ (0 < netCell ->
          forall lead body post,
            splitsAt 123%N (cleaned line) lead body post ->
            cell st' = if matrixIndent f then len body + 1 else iwidth f)).

(** ** Files and line breaks *)

(** A character that is no line break. *)
Definition noBreak (x : rune) : bool := negb (x =? LF)%N && negb (x =? CR)%N.

(** One of the three line endings. *)
Definition lineEnding (eol : text) : Prop :=
  eol = [LF] \/ eol = [CR; LF] \/ eol = [CR].

(** The lines written one after the other, each followed by [eol]. *)
Definition joined (eol : text) (lines : list text) : text :=
  List.concat (List.map (fun line => line ++ eol) lines).

(** [x] put in front of the first line. *)
Definition pushHead (x : rune) (ls : list text) : list text :=
  match ls with l :: ls' => (x :: l) :: ls' | [] => [[x]] end.

(** ** The lines of a formatted segment *)

(** A line that does not end in a space, a tab, a carriage return or a
    line feed. *)
Definition trimmedRight (line : text) : Prop := TrimRight line cutset = line.

(** [tidy prev lines]: no two empty lines in a row, and no empty line at
    the head when [prev] says that an empty line came before. *)
Fixpoint tidy (prev : bool) (lines : list text) : bool :=
  match lines with
  | [] => true
  | l :: ls => if isEmpty l then negb prev && tidy true ls else tidy false ls
  end.

(** Whether the last line is empty; [prev] for no line at all. *)
Definition endsBlank (prev : bool) (lines : list text) : bool :=
  fold_left (fun _ l => isEmpty l) lines prev.

(** ** States and configurations of a run *)

(** The ranges the fields of the state stay in during a run. *)
Definition wellFormed (st : State) : Prop :=
  0 <= ilvl st
  /\ Forall (fun s => s = 1 \/ s = 2) (istep st)
  /\ Forall (fun s => s = 1) (fstep st)
  /\ 0 <= matrix st /\ 0 <= cell st
  /\ 0 <= isBlockComment st <= blockCommentSentinel
  /\ 0 <= isLineComment st <= 2
  /\ 0 <= longLine st <= 1 /\ 0 <= continueLine st <= 1
  /\ 0 <= ignoreLines st.

(** The configurations [New] builds: a positive width and one of the
    three indent modes. *)
Definition validConfig (f : Config) : Prop :=
  0 < iwidth f /\ -1 <= indentMode f <= 1.

(** The state between two lines of code: no line is being skipped, no
    block comment and no bracket region is open. *)
Definition inCode (st : State) : Prop :=
  ignoreLines st <= 0 /\ isBlockComment st <= 1 /\ isLineComment st <= 2
  /\ matrix st = 0 /\ cell st = 0.

(** ** The indent of an emitted line *)

(** A text that is empty or begins with a character that is no white
    space. *)
Definition startsVisible (body : text) : Prop :=
  match body with x :: _ => IsSpace x = false | [] => True end.



(** ** Keywords and blocks *)

(** A line that begins with one of the words [L]. *)
Definition beginsWith (L : list string) (line : text) : Prop :=
  exists kw r, In kw (List.map str L) /\ lineHead line = kw ++ r.

(** A line whose square brackets and braces are balanced, strings and
    comments apart. *)
Definition balanced (line : text) : bool :=
  (netBrackets line 91%N 93%N =? 0) && (netBrackets line 123%N 125%N =? 0).

(** A line of code that is no comment. *)
Definition codeLine (line : text) : bool :=
  negb (MatchString lineComment line)
  && negb (MatchString blockCommentOpen line)
  && negb (MatchString blockCommentClose line)
  && balanced line.

(** The entry a block opener pushes on the control stack: 1 for the
    keywords of [ctrlStart] when the block does not end on the line, 2
    for [switch]. *)
Definition opens (line : text) : option Z :=
  if negb (balanced line) then None
  else if MatchString ctrlStart line && negb (MatchString ctrl1Line line)
  then Some 1
  else if MatchString ctrlStartSwitch line then Some 2
  else None.

(** A line of code with balanced brackets that [ctrlEnd] matches. *)
Definition closes (line : text) : bool :=
  balanced line && MatchString ctrlEnd line.

(** A line that opens and closes nothing: a blank line, a comment
    without the ignore directive, or a line of code that [ctrlIgnore] or
    [ctrl1Line] matches or none of the opener and closer patterns. *)
Definition quiet (line : text) : bool :=
  (len (TrimSpace line) =? 0)
  || (MatchString lineComment line
      && negb (MatchString blockCommentOpen line)
      && negb (MatchString blockCommentClose line)
      && negb (MatchString ignoreCommand line))
  || (codeLine line
      && (MatchString ctrlIgnore line
          || MatchString ctrl1Line line
          || (negb (MatchString fcnStart line)
              && negb (MatchString ctrlStart line)
              && negb (MatchString ctrlStartSwitch line)
              && negb (MatchString ctrlEnd line)))).

(** Lines in which every control block that is opened is closed. *)
Inductive nested : list text -> Prop :=
| nested_nil : nested []
| nested_quiet line rest :
    quiet line = true -> nested rest -> nested (line :: rest)
| nested_block opener body closer rest step :
    opens opener = Some step -> closes closer = true ->
    nested body -> nested rest ->
    nested (opener :: body ++ closer :: rest).

(** A loop with a conditional in it, followed by a statement. *)
Definition nestedLoop : list text :=
  texts ["while k < n"; "  if a(k) > 0"; ""; "    k = k + 1;"; "  else";
         "    % skip"; "  end"; "end"; "disp(k)"].

(* ================================================================== *)
(** * Properties *)

Local Arguments Nat.ltb : simpl never.

(* ------------------------------------------------------------------ *)
(** ** The matcher and the declarative reading of patterns

    [sem r i s t c c'] reads: the pattern [r] matches the text [s] at
    index [i], before the rest [t], and turns the captures [c] into
    [c'].  Whatever the matcher returns is a match in this sense. *)

Local Close Scope Z_scope.

Lemma starLoop_ext (step step' : nat -> text -> caps -> cont -> option caps)
  (g : bool) (k k' : cont) :
  (forall i s c K K', (forall i s c, K i s c = K' i s c) ->
                      step i s c K = step' i s c K') ->
  (forall i s c, k i s c = k' i s c) ->
  forall fuel i s c,
    starLoop step g k fuel i s c = starLoop step' g k' fuel i s c.
Proof.
  intros Hstep Hk. induction fuel as [| fuel IH]; intros i s c; cbn.
  - apply Hk.
  - rewrite (Hk i s c).
    rewrite (Hstep i s c _
               (fun i' s' c' =>
                  if Nat.ltb (List.length s') (List.length s)
                  then starLoop step' g k' fuel i' s' c' else None)).
    + reflexivity.
    + intros i' s' c'. destruct (Nat.ltb _ _); [apply IH | reflexivity].
Qed.

Lemma exec_ext (r : re) :
  forall i s c k k',
    (forall i s c, k i s c = k' i s c) ->
    exec r i s c k = exec r i s c k'.
Proof.
  induction r as [| p | a IHa b IHb | a IHa b IHb | g a IHa | n a IHa | |];
    intros i s c k k' Hk; cbn.
  - apply Hk.
  - destruct s as [| x s']; [reflexivity |]. destruct (p x); [apply Hk | reflexivity].
  - apply IHa. intros. apply IHb. assumption.
  - rewrite (IHa i s c k k' Hk), (IHb i s c k k' Hk). reflexivity.
  - apply starLoop_ext; [| assumption]. intros. apply IHa. assumption.
  - apply IHa. intros. apply Hk.
  - destruct (Nat.eqb i 0); [apply Hk | reflexivity].
  - destruct s; [apply Hk | reflexivity].
Qed.

Lemma exec_none (r : re) :
  forall i s c, exec r i s c (fun _ _ _ => None) = None.
Proof.
  induction r as [| p | a IHa b IHb | a IHa b IHb | g a IHa | n a IHa | |];
    intros i s c; cbn.
  - reflexivity.
  - destruct s as [| x s']; [reflexivity |]. destruct (p x); reflexivity.
  - rewrite (exec_ext a i s c _ (fun _ _ _ => None)); [apply IHa |].
    intros. apply IHb.
  - rewrite IHa, IHb. reflexivity.
  - generalize (List.length s) at 1. intros fuel. revert i s c.
    induction fuel as [| fuel IH]; intros i s c; cbn; [reflexivity |].
    rewrite (exec_ext a i s c _ (fun _ _ _ => None)).
    + rewrite IHa. destruct g; reflexivity.
    + intros i' s' c'. destruct (Nat.ltb _ _); [apply IH | reflexivity].
  - apply IHa.
  - destruct (Nat.eqb i 0); reflexivity.
  - destruct s; reflexivity.
Qed.

Lemma starLoop_fuel (a : re) (g : bool) (k : cont) :
  forall fuel1 fuel2 i s c,
    (List.length s <= fuel1)%nat -> (List.length s <= fuel2)%nat ->
    starLoop (exec a) g k fuel1 i s c = starLoop (exec a) g k fuel2 i s c.
Proof.
  assert (Hnil : forall fuel i c,
             starLoop (exec a) g k fuel i [] c = k i [] c).
  { intros [| fuel] i c; cbn; [reflexivity |].
    rewrite (exec_ext a i [] c _ (fun _ _ _ => None)) by reflexivity.
    rewrite exec_none. destruct g; [reflexivity |].
    destruct (k i [] c); reflexivity. }
  induction fuel1 as [| fuel1 IH]; intros fuel2 i s c H1 H2.
  - destruct s; [| cbn in H1; lia]. rewrite !Hnil. reflexivity.
  - destruct fuel2 as [| fuel2].
    + destruct s; [| cbn in H2; lia]. rewrite !Hnil. reflexivity.
    + cbn.
      rewrite (exec_ext a i s c _
                 (fun i' s' c' =>
                    if Nat.ltb (List.length s') (List.length s)
                    then starLoop (exec a) g k fuel2 i' s' c' else None)).
      * reflexivity.
      * intros i' s' c'.
        destruct (Nat.ltb_spec (List.length s') (List.length s));
          [apply IH; lia | reflexivity].
Qed.

Lemma exec_Star (g : bool) (a : re) (i : nat) (s : text) (c : caps) (k : cont) :
  exec (Star g a) i s c k =
  let again : cont := fun i' s' c' =>
    if Nat.ltb (List.length s') (List.length s)
    then exec (Star g a) i' s' c' k else None in
  if g then orelse (exec a i s c again) (k i s c)
  else orelse (k i s c) (exec a i s c again).
Proof.
  cbn zeta. destruct s as [| x s'].
  - cbn. rewrite (exec_ext a i [] c _ (fun _ _ _ => None)) by reflexivity.
    rewrite exec_none. destruct g; cbn; [reflexivity |].
    destruct (k i [] c); reflexivity.
  - cbn [exec List.length starLoop].
    rewrite (exec_ext a i (x :: s') c _
               (fun i' s'' c' =>
                  if Nat.ltb (List.length s'') (List.length (x :: s'))
                  then exec (Star g a) i' s'' c' k else None)).
    + destruct g; reflexivity.
    + intros i' s'' c'. cbn [List.length].
      destruct (Nat.ltb_spec (List.length s'') (S (List.length s')));
        [| reflexivity].
      cbn [exec]. apply starLoop_fuel; lia.
Qed.

Theorem exec_sound (r : re) :
  forall i s c k m,
    exec r i s c k = Some m ->
    exists s1 s2 c',
      s = s1 ++ s2 /\ sem r i s1 s2 c c'
      /\ k (i + List.length s1)%nat s2 c' = Some m.
Proof.
  induction r as [| p | a IHa b IHb | a IHa b IHb | g a IHa | n a IHa | |];
    intros i s c k m H.
  - exists [], s, c. cbn in *. rewrite Nat.add_0_r. auto.
  - cbn in H. destruct s as [| x s']; [discriminate |].
    destruct (p x) eqn:Hp; [| discriminate].
    exists [x], s', c. cbn. rewrite Nat.add_1_r. eauto 6.
  - cbn in H. apply IHa in H. destruct H as (s1 & s2 & c1 & -> & Ha & H).
    apply IHb in H. destruct H as (s3 & s4 & c2 & -> & Hb & H).
    exists (s1 ++ s3), s4, c2. rewrite <- app_assoc. split; [reflexivity |].
    split.
    + cbn. exists s1, s3, c1. auto.
    + rewrite length_app, Nat.add_assoc. assumption.
  - cbn in H. destruct (exec a i s c k) eqn:Ea.
    + injection H as <-. apply IHa in Ea.
      destruct Ea as (s1 & s2 & c1 & -> & Ha & Hk).
      exists s1, s2, c1. cbn. auto.
    + apply IHb in H. destruct H as (s1 & s2 & c1 & -> & Hb & Hk).
      exists s1, s2, c1. cbn. auto.
  - remember (List.length s) as n eqn:Hn. revert i s c m Hn H.
    induction n as [n IHn] using lt_wf_ind. intros i s c m Hn H.
    rewrite exec_Star in H. cbn zeta in H.
    assert (Hmore : forall m',
               exec a i s c
                 (fun i' s' c' =>
                    if Nat.ltb (List.length s') (List.length s)
                    then exec (Star g a) i' s' c' k else None) = Some m' ->
               exists s1 s2 c',
                 s = s1 ++ s2 /\ sem (Star g a) i s1 s2 c c'
                 /\ k (i + List.length s1)%nat s2 c' = Some m').
    { intros m' Hm. apply IHa in Hm.
      destruct Hm as (s1 & s2 & c1 & -> & Ha & Hm).
      destruct (Nat.ltb_spec (List.length s2) (List.length (s1 ++ s2)))
        as [Hlt |]; [| discriminate].
      apply (IHn (List.length s2)) in Hm; [| subst n; assumption | reflexivity].
      destruct Hm as (s3 & s4 & c2 & -> & Hs & Hk).
      exists (s1 ++ s3), s4, c2. rewrite <- app_assoc.
      split; [reflexivity |]. split.
      - cbn. apply iter_cons with (c1 := c1); try assumption.
        intros ->. cbn in Hlt. lia.
      - rewrite length_app, Nat.add_assoc. assumption. }
    assert (Hstop : forall m', k i s c = Some m' ->
               exists s1 s2 c',
                 s = s1 ++ s2 /\ sem (Star g a) i s1 s2 c c'
                 /\ k (i + List.length s1)%nat s2 c' = Some m').
    { intros m' Hm. exists [], s, c. cbn. rewrite Nat.add_0_r.
      split; [reflexivity |]. split; [constructor | assumption]. }
    destruct g; unfold orelse in H.
    + destruct (exec a i s c _) eqn:E.
      * injection H as <-. apply Hmore. reflexivity.
      * apply Hstop. assumption.
    + destruct (k i s c) eqn:E.
      * injection H as <-. apply Hstop. reflexivity.
      * apply Hmore. assumption.
  - cbn in H. apply IHa in H. destruct H as (s1 & s2 & c1 & -> & Ha & H).
    exists s1, s2, ((n, s1) :: c1). split; [reflexivity |]. split.
    + cbn. exists c1. auto.
    + replace (i + List.length s1 - i)%nat with (List.length s1) in H by lia.
      rewrite firstn_app, Nat.sub_diag, firstn_all in H. cbn in H.
      rewrite app_nil_r in H. assumption.
  - cbn in H. destruct (Nat.eqb_spec i 0); [| discriminate].
    exists [], s, c. cbn. rewrite Nat.add_0_r. auto.
  - cbn in H. destruct s; [| discriminate].
    exists [], [], c. cbn. rewrite Nat.add_0_r. auto.
Qed.

Lemma search_anchored (r : re) (s : text) :
  forall i, search (Seq Bol r) (S i) s = None.
Proof.
  induction s as [| x s IH]; intros i; cbn; [reflexivity | apply IH].
Qed.

Lemma find_anchored (r : re) (s : text) :
  FindStringSubmatch (Seq Bol r) s = exec r 0 s [] accept.
Proof.
  unfold FindStringSubmatch. destruct s as [| x s]; cbn [search].
  - cbn [exec Nat.eqb]. destruct (exec r 0 [] [] accept); reflexivity.
  - rewrite search_anchored. cbn [exec Nat.eqb].
    destruct (exec r 0 (x :: s) [] accept); reflexivity.
Qed.

Lemma find_sound (r : re) (s : text) (m : caps) :
  FindStringSubmatch (Seq Bol r) s = Some m ->
  exists s1 s2, s = s1 ++ s2 /\ sem r 0 s1 s2 [] m.
Proof.
  rewrite find_anchored. intros H. apply exec_sound in H.
  destruct H as (s1 & s2 & c' & -> & Hs & Hk).
  injection Hk as <-. eauto.
Qed.

Lemma sem_groupFree (r : re) :
  groupFree r = true ->
  forall i s t c c', sem r i s t c c' -> c' = c.
Proof.
  induction r as [| p | a IHa b IHb | a IHa b IHb | g a IHa | n a IHa | |];
    cbn; intros Hg i s t c c' H.
  - tauto.
  - destruct H as (x & _ & _ & ->). reflexivity.
  - apply andb_true_iff in Hg. destruct Hg as [Ga Gb].
    destruct H as (s1 & s2 & c1 & _ & Ha & Hb).
    apply IHa in Ha; [| assumption]. apply IHb in Hb; [| assumption].
    congruence.
  - apply andb_true_iff in Hg. destruct Hg as [Ga Gb].
    destruct H as [H | H]; [apply (IHa Ga) in H | apply (IHb Gb) in H];
      assumption.
  - induction H as [| i s1 s2 t c c1 c2 _ H1 _ IH]; [reflexivity |].
    apply (IHa Hg) in H1. congruence.
  - discriminate.
  - tauto.
  - tauto.
Qed.

Lemma sem_star_cls (g : bool) (p : rune -> bool) i s t c c' :
  sem (Star g (Cls p)) i s t c c' -> forallb p s = true.
Proof.
  cbn. induction 1 as [| i s1 s2 t c c1 c2 _ H1 _ IH]; [reflexivity |].
  destruct H1 as (x & -> & Hp & _). cbn. rewrite Hp. assumption.
Qed.

Lemma sem_chars_list (l : text) i s t c c' :
  sem (alts (List.map (fun r => Cls (N.eqb r)) l)) i s t c c' ->
  exists x, s = [x] /\ mem x l = true.
Proof.
  induction l as [| a l IH].
  - cbn. intros (x & _ & F & _). discriminate.
  - destruct l as [| b l].
    + cbn. intros (x & -> & E & _). exists x. split; [reflexivity |].
      rewrite N.eqb_sym, E. reflexivity.
    + change (alts (List.map (fun r => Cls (N.eqb r)) (a :: b :: l)))
        with (Alt (Cls (N.eqb a))
                  (alts (List.map (fun r => Cls (N.eqb r)) (b :: l)))).
      cbn [sem]. intros [(x & -> & E & _) | H].
      * exists x. split; [reflexivity |]. cbn. rewrite N.eqb_sym, E. reflexivity.
      * apply IH in H. destruct H as (x & -> & Hm). exists x.
        split; [reflexivity |]. cbn [mem existsb] in *. rewrite Hm.
        apply orb_true_r.
Qed.

Lemma sem_chars (set : string) i s t c c' :
  sem (chars set) i s t c c' -> exists x, s = [x] /\ mem x (str set) = true.
Proof. apply sem_chars_list. Qed.

Lemma sem_word_list (l : text) i s t c c' :
  sem (seqs (List.map (fun r => Cls (N.eqb r)) l)) i s t c c' -> s = l.
Proof.
  revert i s t c c'. induction l as [| a l IH]; intros i s t c c'.
  - cbn. tauto.
  - destruct l as [| b l].
    + cbn. intros (x & -> & E & _). apply N.eqb_eq in E. congruence.
    + change (seqs (List.map (fun r => Cls (N.eqb r)) (a :: b :: l)))
        with (Seq (Cls (N.eqb a))
                  (seqs (List.map (fun r => Cls (N.eqb r)) (b :: l)))).
      cbn [sem]. intros (s1 & s2 & c1 & -> & (x & -> & E & _) & H).
      apply IH in H. apply N.eqb_eq in E. subst. reflexivity.
Qed.

Lemma sem_word (w : string) i s t c c' :
  sem (word w) i s t c c' -> s = str w.
Proof. apply sem_word_list. Qed.

Lemma sem_words (l : list string) i s t c c' :
  sem (words l) i s t c c' -> In s (List.map str l).
Proof.
  unfold words. induction l as [| a l IH].
  - cbn. intros (x & _ & F & _). discriminate.
  - destruct l as [| b l].
    + cbn [List.map alts]. intros H. apply sem_word in H. left. auto.
    + change (alts (List.map word (a :: b :: l)))
        with (Alt (word a) (alts (List.map word (b :: l)))).
      cbn [sem]. intros [H | H].
      * apply sem_word in H. left. auto.
      * right. apply IH. assumption.
Qed.

Lemma sem_group_other (r : re) (k : nat) :
  mentions k r = false ->
  forall i s t c c', sem r i s t c c' -> group c' k = group c k.
Proof.
  induction r as [| p | a IHa b IHb | a IHa b IHb | g a IHa | n a IHa | |];
    cbn [mentions sem]; intros Hm i s t c c' H.
  - destruct H as [_ ->]. reflexivity.
  - destruct H as (x & _ & _ & ->). reflexivity.
  - apply orb_false_iff in Hm. destruct Hm as [Ma Mb].
    destruct H as (s1 & s2 & c1 & _ & Ha & Hb).
    rewrite (IHb Mb _ _ _ _ _ Hb). apply (IHa Ma _ _ _ _ _ Ha).
  - apply orb_false_iff in Hm. destruct Hm as [Ma Mb].
    destruct H as [H | H]; [apply (IHa Ma _ _ _ _ _ H) | apply (IHb Mb _ _ _ _ _ H)].
  - induction H as [| i s1 s2 t c c1 c2 _ H1 _ IH]; [reflexivity |].
    rewrite IH. apply (IHa Hm _ _ _ _ _ H1).
  - apply orb_false_iff in Hm. destruct Hm as [Mn Ma].
    destruct H as (c1 & Ha & ->). cbn [group]. rewrite Mn.
    apply (IHa Ma _ _ _ _ _ Ha).
  - destruct H as (_ & _ & ->). reflexivity.
  - destruct H as (_ & _ & ->). reflexivity.
Qed.

Lemma sem_minLen (r : re) :
  forall i s t c c', sem r i s t c c' -> (minLen r <= List.length s)%nat.
Proof.
  induction r as [| p | a IHa b IHb | a IHa b IHb | g a IHa | n a IHa | |];
    cbn [minLen sem]; intros i s t c c' H.
  - lia.
  - destruct H as (x & -> & _). cbn. lia.
  - destruct H as (s1 & s2 & c1 & -> & Ha & Hb).
    apply IHa in Ha. apply IHb in Hb. rewrite length_app. lia.
  - destruct H as [H | H]; [apply IHa in H | apply IHb in H]; lia.
  - lia.
  - destruct H as (c1 & Ha & _). apply IHa in Ha. assumption.
  - lia.
  - lia.
Qed.

Lemma sem_Seq_inv a b i s t c c' :
  sem (Seq a b) i s t c c' ->
  exists s1 s2 c1,
    s = s1 ++ s2 /\ sem a i s1 (s2 ++ t) c c1
    /\ sem b (i + List.length s1) s2 t c1 c'.
Proof. intros H. exact H. Qed.

Lemma sem_Grp_inv n a i s t c c' :
  sem (Grp n a) i s t c c' -> exists c1, sem a i s t c c1 /\ c' = (n, s) :: c1.
Proof. intros H. exact H. Qed.

Local Open Scope Z_scope.

Lemma sem_classesIn (q : rune -> bool) (r : re) :
  classesIn q r ->
  forall i s t c c', sem r i s t c c' -> forallb q s = true.
Proof.
  induction r as [| p | a IHa b IHb | a IHa b IHb | g a IHa | n a IHa | |];
    cbn [classesIn sem]; intros Hq i s t c c' H.
  - destruct H as [-> _]. reflexivity.
  - destruct H as (x & -> & Hp & _). cbn. rewrite (Hq _ Hp). reflexivity.
  - destruct Hq as [Qa Qb]. destruct H as (s1 & s2 & c1 & -> & Ha & Hb).
    rewrite forallb_app, (IHa Qa _ _ _ _ _ Ha), (IHb Qb _ _ _ _ _ Hb).
    reflexivity.
  - destruct Hq as [Qa Qb].
    destruct H as [H | H]; [apply (IHa Qa _ _ _ _ _ H) | apply (IHb Qb _ _ _ _ _ H)].
  - induction H as [| i s1 s2 t c c1 c2 _ H1 _ IH]; [reflexivity |].
    rewrite forallb_app, (IHa Hq _ _ _ _ _ H1), IH. reflexivity.
  - destruct H as (c1 & Ha & _). apply (IHa Hq _ _ _ _ _ Ha).
  - destruct H as (_ & -> & _). reflexivity.
  - destruct H as (-> & _). reflexivity.
Qed.

(* ------------------------------------------------------------------ *)
(** ** Greedy repetition of a class *)

Local Close Scope Z_scope.

Lemma exec_Cls_cons p i x s c k :
  exec (Cls p) i (x :: s) c k = if p x then k (S i) s c else None.
Proof. reflexivity. Qed.

Lemma star_cls_cons (p : rune -> bool) i x s c k :
  exec (Star true (Cls p)) i (x :: s) c k =
  if p x then orelse (exec (Star true (Cls p)) (S i) s c k) (k i (x :: s) c)
  else k i (x :: s) c.
Proof.
  rewrite exec_Star. cbn zeta. rewrite exec_Cls_cons.
  destruct (p x); [| reflexivity].
  cbn [List.length]. rewrite (proj2 (Nat.ltb_lt _ _)) by lia. reflexivity.
Qed.

Lemma star_cls_nil (p : rune -> bool) g i c k :
  exec (Star g (Cls p)) i [] c k = k i [] c.
Proof. reflexivity. Qed.

Lemma star_cls_greedy_max (p : rune -> bool) s :
  forall i c k m,
    k (i + List.length (takeWhile p s))%nat (dropWhile p s) c = Some m ->
    exec (Star true (Cls p)) i s c k = Some m.
Proof.
  induction s as [| x s IH]; intros i c k m H.
  - rewrite star_cls_nil. cbn in H. rewrite Nat.add_0_r in H. assumption.
  - rewrite star_cls_cons. cbn [takeWhile dropWhile] in H.
    destruct (p x).
    + cbn [List.length] in H. rewrite Nat.add_succ_r in H.
      rewrite (IH (S i) c k m H). reflexivity.
    + cbn in H. rewrite Nat.add_0_r in H. assumption.
Qed.

Lemma star_cls_none (p : rune -> bool) s :
  forall i c k,
    (forall u v, s = u ++ v -> forallb p u = true ->
                 k (i + List.length u)%nat v c = None) ->
    exec (Star true (Cls p)) i s c k = None.
Proof.
  induction s as [| x s IH]; intros i c k H.
  - rewrite star_cls_nil. specialize (H [] [] eq_refl eq_refl).
    cbn in H. rewrite Nat.add_0_r in H. assumption.
  - rewrite star_cls_cons.
    assert (H0 : k i (x :: s) c = None).
    { specialize (H [] (x :: s) eq_refl eq_refl). cbn in H.
      rewrite Nat.add_0_r in H. assumption. }
    destruct (p x) eqn:Hp; [| assumption].
    rewrite IH; [assumption |].
    intros u v -> Hu. specialize (H (x :: u) v eq_refl).
    cbn in H. rewrite Hp, Hu in H. specialize (H eq_refl).
    rewrite Nat.add_succ_r in H. assumption.
Qed.

(** Backtracking stops at the longest run after which the continuation
    succeeds. *)
Lemma star_cls_greedy_last (p : rune -> bool) s1 :
  forall s2 i c k m,
    forallb p s1 = true ->
    k (i + List.length s1)%nat s2 c = Some m ->
    (forall u v, u <> [] -> s2 = u ++ v -> forallb p u = true ->
                 k (i + List.length s1 + List.length u)%nat v c = None) ->
    exec (Star true (Cls p)) i (s1 ++ s2) c k = Some m.
Proof.
  induction s1 as [| x s1 IH]; intros s2 i c k m Hp Hk Hlater.
  - cbn [app]. cbn in Hk. rewrite Nat.add_0_r in Hk.
    destruct s2 as [| y s2]; [rewrite star_cls_nil; assumption |].
    rewrite star_cls_cons. destruct (p y) eqn:Hy; [| assumption].
    rewrite star_cls_none; [assumption |].
    intros u v -> Hu. specialize (Hlater (y :: u) v).
    cbn in Hlater. rewrite Hy, Hu in Hlater.
    rewrite Nat.add_0_r in Hlater. rewrite Nat.add_succ_r in Hlater.
    apply Hlater; [discriminate | reflexivity | reflexivity].
  - cbn in Hp. apply andb_true_iff in Hp. destruct Hp as [Hx Hp].
    cbn [app]. rewrite star_cls_cons, Hx.
    rewrite (IH s2 (S i) c k m Hp).
    + reflexivity.
    + cbn in Hk. rewrite Nat.add_succ_r in Hk. assumption.
    + intros u v Hu E Hpu. specialize (Hlater u v Hu E Hpu).
      cbn in Hlater. rewrite Nat.add_succ_r in Hlater. assumption.
Qed.

Local Open Scope Z_scope.

Lemma star_cls_total (p : rune -> bool) (k : cont) s :
  total k ->
  forallb p s = true ->
  forall i c,
    exec (Star true (Cls p)) i s c k = k (i + List.length s)%nat [] c.
Proof.
  intros Hk. induction s as [| x s IH]; intros Hp i c.
  - rewrite star_cls_nil. cbn. rewrite Nat.add_0_r. reflexivity.
  - cbn in Hp. apply andb_true_iff in Hp. destruct Hp as [Hx Hp].
    rewrite star_cls_cons, Hx, (IH Hp). cbn [List.length].
    rewrite Nat.add_succ_r. cbn [plus].
    destruct (k (S (i + List.length s)) [] c) eqn:E; [reflexivity |].
    exfalso. eapply Hk. eassumption.
Qed.

Lemma forallb_impl (p q : rune -> bool) s :
  (forall x, p x = true -> q x = true) ->
  forallb p s = true -> forallb q s = true.
Proof.
  intros H. induction s as [| x s IH]; [reflexivity |]. cbn.
  intros E. apply andb_true_iff in E. destruct E as [E1 E2].
  rewrite (H _ E1), (IH E2). reflexivity.
Qed.

(* ------------------------------------------------------------------ *)
(** ** Patterns that run to the end of the line *)

Theorem exec_cover (r : re) :
  EndsGreedy r ->
  forall i s c k m,
    oneLine s -> total k ->
    exec r i s c k = Some m ->
    exists c', sem r i s [] c c' /\ k (i + List.length s)%nat [] c' = Some m.
Proof.
  induction r as [| p | a IHa b IHb | a IHa b IHb | g a IHa | n a IHa | |];
    cbn [EndsGreedy]; intros Hg i s c k m Hs Hk H; try contradiction.
  - (* Seq *)
    cbn [exec] in H. apply exec_sound in H.
    destruct H as (s1 & s2 & c1 & -> & Ha & H).
    unfold oneLine in Hs. rewrite forallb_app in Hs.
    apply andb_true_iff in Hs. destruct Hs as [Hs1 Hs2].
    apply (IHb Hg) in H; [| assumption | assumption].
    destruct H as (c' & Hb & H). exists c'. split.
    + cbn [sem]. exists s1, s2, c1. rewrite app_nil_r. auto.
    + rewrite length_app, Nat.add_assoc. assumption.
  - (* Alt *)
    destruct Hg as [Ga Gb]. cbn [exec] in H.
    destruct (exec a i s c k) eqn:E.
    + injection H as <-. apply (IHa Ga) in E; [| assumption | assumption].
      destruct E as (c' & Ha & E). exists c'. cbn [sem]. auto.
    + apply (IHb Gb) in H; [| assumption | assumption].
      destruct H as (c' & Hb & H). exists c'. cbn [sem]. auto.
  - (* Star *)
    destruct g; [| contradiction]. destruct a; try contradiction.
    assert (Hp : forallb p s = true) by (eapply forallb_impl; eassumption).
    rewrite (@star_cls_total p k s Hk Hp) in H.
    exists c. split; [| assumption].
    cbn [sem]. clear H Hs. revert i.
    induction s as [| x s IH]; intros i; [constructor |].
    cbn in Hp. apply andb_true_iff in Hp. destruct Hp as [Hx Hp].
    change (x :: s) with ([x] ++ s).
    apply iter_cons with (c1 := c); [discriminate | | apply IH; assumption].
    cbn. exists x. auto.
  - (* Grp *)
    cbn [exec] in H.
    apply (IHa Hg) in H; [| assumption |].
    + destruct H as (c' & Ha & H). exists ((n, s) :: c'). split.
      * cbn [sem]. exists c'. auto.
      * replace (i + List.length s - i)%nat with (List.length s) in H by lia.
        rewrite firstn_all in H. assumption.
    + intros i' s' c'. apply Hk.
  - (* Eol *)
    cbn [exec] in H. destruct s; [| discriminate].
    exists c. cbn. rewrite Nat.add_0_r. auto.
Qed.

Lemma accept_total : total accept.
Proof. intros i s c. discriminate. Qed.

Lemma find_cover (r : re) (s : text) (m : caps) :
  EndsGreedy r -> oneLine s ->
  FindStringSubmatch (Seq Bol r) s = Some m ->
  sem r 0 s [] [] m.
Proof.
  intros Hg Hs H. rewrite find_anchored in H.
  apply (exec_cover r Hg) in H; [| assumption | apply accept_total].
  destruct H as (c' & Hsem & Hk). injection Hk as <-. assumption.
Qed.

(* ------------------------------------------------------------------ *)
(** ** Texts *)

Local Close Scope Z_scope.

Lemma takeWhile_dropWhile (p : rune -> bool) s :
  takeWhile p s ++ dropWhile p s = s.
Proof.
  induction s as [| x s IH]; [reflexivity |]. cbn.
  destruct (p x); [cbn; rewrite IH |]; reflexivity.
Qed.

Lemma takeWhile_all (p : rune -> bool) s :
  forallb p s = true -> takeWhile p s = s.
Proof.
  induction s as [| x s IH]; [reflexivity |]. cbn.
  destruct (p x); [| discriminate]. intros H. rewrite IH; auto.
Qed.

Lemma dropWhile_all (p : rune -> bool) s :
  forallb p s = true -> dropWhile p s = [].
Proof.
  induction s as [| x s IH]; [reflexivity |]. cbn.
  destruct (p x); [| discriminate]. assumption.
Qed.

Lemma forallb_takeWhile (p : rune -> bool) s : forallb p (takeWhile p s) = true.
Proof.
  induction s as [| x s IH]; [reflexivity |]. cbn.
  destruct (p x) eqn:E; [cbn; rewrite E |]; auto.
Qed.

Lemma forallb_dropWhile (p q : rune -> bool) s :
  forallb q s = true -> forallb q (dropWhile p s) = true.
Proof.
  induction s as [| x s IH]; [reflexivity |]. cbn.
  destruct (p x); intros H; [| assumption].
  apply andb_true_iff in H. tauto.
Qed.

Lemma dropWhile_app_stop (p : rune -> bool) g x r :
  forallb p g = true -> p x = false -> dropWhile p (g ++ x :: r) = x :: r.
Proof.
  induction g as [| y g IH]; cbn; intros Hg Hx.
  - rewrite Hx. reflexivity.
  - destruct (p y); [| discriminate]. auto.
Qed.

Lemma takeWhile_app_stop (p : rune -> bool) g x r :
  forallb p g = true -> p x = false -> takeWhile p (g ++ x :: r) = g.
Proof.
  induction g as [| y g IH]; cbn; intros Hg Hx.
  - rewrite Hx. reflexivity.
  - destruct (p y); [| discriminate]. rewrite IH; auto.
Qed.

Lemma firstn_takeWhile (p : rune -> bool) s :
  firstn (List.length (takeWhile p s)) s = takeWhile p s.
Proof.
  induction s as [| x s IH]; [reflexivity |]. cbn.
  destruct (p x); [cbn; rewrite IH |]; reflexivity.
Qed.

Local Open Scope Z_scope.

Lemma dropWhile_nil_all (p : rune -> bool) s :
  dropWhile p s = [] -> forallb p s = true.
Proof.
  induction s as [| x s IH]; [reflexivity |]. cbn.
  destruct (p x); [assumption | discriminate].
Qed.

Lemma is_s_IsSpace x : is_s x = true -> IsSpace x = true.
Proof.
  unfold is_s, IsSpace, mem. cbn [existsb]. intros H.
  repeat (apply orb_true_iff in H; destruct H as [H | H]);
    try discriminate; apply N.eqb_eq in H; subst; reflexivity.
Qed.

Lemma dropWhile_IsSpace_head g x r :
  forallb is_s g = true -> IsSpace x = false ->
  dropWhile IsSpace (g ++ x :: r) = x :: r.
Proof.
  intros Hg Hx. apply dropWhile_app_stop; [| assumption].
  rewrite forallb_forall in *. intros y Hy. apply is_s_IsSpace. auto.
Qed.

Lemma width_pos x : 0 < width x.
Proof. unfold width. repeat destruct (_ <? _)%N; lia. Qed.

Lemma len_cons x s : len (x :: s) = width x + len s.
Proof. reflexivity. Qed.

Lemma len_nonneg s : 0 <= len s.
Proof.
  induction s as [| x s IH]; [cbn; lia |].
  rewrite len_cons. pose proof (width_pos x). lia.
Qed.

Lemma len_pos s : s <> [] -> 0 < len s.
Proof.
  destruct s as [| x s]; [congruence |]. intros _. rewrite len_cons.
  pose proof (width_pos x). pose proof (len_nonneg s). lia.
Qed.

Local Close Scope Z_scope.

Lemma nonSpaces_app a b : nonSpaces (a ++ b) = (nonSpaces a + nonSpaces b)%nat.
Proof. unfold nonSpaces. rewrite filter_app, length_app. reflexivity. Qed.

Lemma nonSpaces_sepIf b : nonSpaces (sepIf b) = 0%nat.
Proof. destruct b; reflexivity. Qed.

Lemma length_sepIf b : (List.length (sepIf b) <= 1)%nat.
Proof. destruct b; cbn; lia. Qed.

(* ------------------------------------------------------------------ *)
(** ** The shape of a match

    Tactics that turn a successful [FindStringSubmatch] into the pieces
    of the text, one per piece of the pattern, and read the groups off. *)

Ltac caps_step :=
  match goal with
  | H : sem ?X _ _ _ ?c ?c' |- _ =>
      is_var c'; tryif constr_eq c c' then fail else
      (let E := fresh "E" in
       assert (E : c' = c) by (apply (@sem_groupFree X eq_refl _ _ _ _ _ H));
       subst c')
  | H : iter (sem ?X) _ _ _ ?c ?c' |- _ =>
      is_var c'; tryif constr_eq c c' then fail else
      (let E := fresh "E" in
       assert (E : c' = c)
         by (apply (@sem_groupFree (Star true X) eq_refl _ _ _ _ _ H));
       subst c')
  end.

Ltac invert_sem :=
  repeat match goal with
  | H : sem (Seq _ _) _ _ _ _ _ |- _ =>
      apply sem_Seq_inv in H; destruct H as (? & ? & ? & ? & ? & ?)
  | H : sem (Grp _ _) _ _ _ _ _ |- _ =>
      apply sem_Grp_inv in H; destruct H as (? & ? & ?)
  | H : sem (Plus _ _) _ _ _ _ _ |- _ => unfold Plus in H
  | H : sem Bol _ _ _ _ _ |- _ => destruct H as (? & ? & ?)
  | H : sem Eol _ _ _ _ _ |- _ => destruct H as (? & ? & ?)
  end.

Ltac shape_of H :=
  cbn [seqs] in H; apply find_sound in H;
  destruct H as (?s1 & ?s2 & ? & H);
  invert_sem; subst; repeat caps_step.

Ltac min_lengths :=
  repeat match goal with
  | H : sem ?X _ ?s _ _ _ |- _ =>
      let L := fresh "L" in
      let n := eval vm_compute in (minLen X) in
      assert (L : (n <= List.length s)%nat)
        by exact (@sem_minLen X _ _ _ _ _ H);
      clear H
  end.

Lemma tok_chars (set : string) i s t c c' :
  forallb is_S (str set) = true ->
  sem (chars set) i s t c c' -> nonSpaces s = 1%nat /\ List.length s = 1%nat.
Proof.
  intros Hall H. apply sem_chars in H. destruct H as (x & -> & Hm).
  rewrite forallb_forall in Hall.
  unfold mem in Hm. apply existsb_exists in Hm. destruct Hm as (y & Hin & E).
  apply N.eqb_eq in E. subst y. specialize (Hall x Hin).
  unfold nonSpaces. cbn. rewrite Hall. split; reflexivity.
Qed.

Lemma tok_lit (a : ascii) i s t c c' :
  is_S (chr a) = true ->
  sem (Lit a) i s t c c' -> nonSpaces s = 1%nat /\ List.length s = 1%nat.
Proof.
  intros Hs (x & -> & E & _). apply N.eqb_eq in E. subst x.
  unfold nonSpaces. cbn. rewrite Hs. split; reflexivity.
Qed.

Lemma tok_word (w : string) i s t c c' :
  sem (word w) i s t c c' ->
  nonSpaces s = nonSpaces (str w) /\ List.length s = List.length (str w).
Proof. intros H. apply sem_word in H. subst. split; reflexivity. Qed.

Ltac tok_facts :=
  repeat match goal with
  | H : sem (chars ?set) _ _ _ _ _ |- _ =>
      let F := fresh "F" in
      pose proof (@tok_chars set _ _ _ _ _ eq_refl H) as F; destruct F; clear H
  | H : sem (Lit ?a) _ _ _ _ _ |- _ =>
      let F := fresh "F" in
      pose proof (@tok_lit a _ _ _ _ _ eq_refl H) as F; destruct F; clear H
  | H : sem (word ?w) _ ?s _ _ _ |- _ =>
      let F := fresh "F" in
      let a := eval vm_compute in (nonSpaces (str w)) in
      let b := eval vm_compute in (List.length (str w)) in
      assert (F : nonSpaces s = a /\ List.length s = b)
        by exact (@tok_word _ _ _ _ _ _ H);
      destruct F; clear H
  end.

Ltac weigh :=
  cbn [group Nat.eqb];
  unfold weight;
  repeat rewrite ?nonSpaces_app, ?length_app, ?nonSpaces_sepIf;
  change (nonSpaces (str " ")) with 0%nat;
  change (nonSpaces []) with 0%nat;
  cbn [List.length str list_ascii_of_string List.map];
  repeat match goal with
  | |- context [List.length (sepIf ?b)] =>
      let L := fresh "L" in
      pose proof (length_sepIf b) as L;
      generalize dependent (List.length (sepIf b)); intros
  end;
  lia.

Ltac other_groups :=
  cbn [group Nat.eqb];
  repeat match goal with
  | H : sem ?X _ _ _ ?c ?c' |- context [group ?c' ?k] =>
      rewrite (@sem_group_other X k eq_refl _ _ _ _ _ H); cbn [group Nat.eqb]
  end.

Ltac rule H :=
  shape_of H; other_groups; tok_facts; min_lengths; split; weigh.

Ltac try_rule lem :=
  match goal with
  | |- match FindStringSubmatch ?p ?part with _ => _ end = _ -> _ =>
      let E := fresh "E" in
      destruct (FindStringSubmatch p part) eqn:E;
      [ intros H; injection H as _ <- _ <-; apply lem; assumption |]
  end.

(* ------------------------------------------------------------------ *)
(** ** The first word of a line *)

Lemma sem_ws_spaces i s t c c' : sem ws i s t c c' -> forallb is_s s = true.
Proof. apply sem_star_cls. Qed.

Lemma lineHead_after_ws g h :
  forallb is_s g = true ->
  match h with x :: _ => is_s x = false | [] => False end ->
  lineHead (g ++ h) = h.
Proof.
  intros Hg Hh. destruct h as [| x r]; [contradiction |].
  apply dropWhile_app_stop; assumption.
Qed.

Lemma In_words_head (l : list string) (kw : text) :
  In kw (List.map str l) ->
  forallb (fun w => match str w with x :: _ => negb (is_s x) | [] => false end) l
  = true ->
  match kw with x :: _ => is_s x = false | [] => False end.
Proof.
  induction l as [| w l IH]; cbn; [tauto |].
  intros [<- | Hin] Hall; apply andb_true_iff in Hall; destruct Hall as [Hw Hl].
  - destruct (str w); [discriminate |]. apply negb_true_iff. assumption.
  - apply IH; assumption.
Qed.

Lemma keyword_line (L : list string) (R : re) (line : text) (m : caps) :
  forallb (fun w => match str w with x :: _ => negb (is_s x) | [] => false end) L
  = true ->
  FindStringSubmatch (Seq Bol (Seq (Grp 1 ws) (Seq (Grp 2 (words L)) R))) line
  = Some m ->
  exists kw r, In kw (List.map str L) /\ lineHead line = kw ++ r.
Proof.
  intros HL H. apply find_sound in H. destruct H as (s1 & s2 & -> & H).
  invert_sem. subst.
  repeat match goal with Hw : sem ws _ _ _ _ _ |- _ =>
    apply sem_ws_spaces in Hw end.
  match goal with Hk : sem (words L) _ ?kw _ _ _ |- _ =>
    apply sem_words in Hk; exists kw end.
  eexists. split; [eassumption |].
  rewrite <- !app_assoc. rewrite lineHead_after_ws; [reflexivity | assumption |].
  match goal with Hk : In ?kw _ |- _ =>
    pose proof (In_words_head _ _ Hk HL) as Hh; destruct kw; [contradiction |]
  end.
  cbn. assumption.
Qed.

Lemma head_ctrlEnd line m :
  FindStringSubmatch ctrlEnd line = Some m ->
  exists r, lineHead line = str "end" ++ r.
Proof.
  intros H. unfold ctrlEnd in H. cbn [seqs] in H.
  apply find_sound in H. destruct H as (s1 & s2 & -> & H).
  invert_sem. subst.
  repeat match goal with Hw : sem ws _ _ _ _ _ |- _ =>
    apply sem_ws_spaces in Hw end.
  match goal with Hk : sem (words _) _ _ _ _ _ |- _ => apply sem_words in Hk;
    cbn in Hk end.
  rewrite <- !app_assoc.
  repeat match goal with Hk : _ \/ _ |- _ => destruct Hk as [Hk | Hk] end;
    try contradiction; subst;
    (rewrite lineHead_after_ws; [| assumption | reflexivity]);
    cbn [str list_ascii_of_string List.map app]; eexists; reflexivity.
Qed.

Lemma head_percent (R : re) line m :
  FindStringSubmatch (Seq Bol (Seq (Grp 1 ws) (Seq (Lit "%") R))) line = Some m ->
  exists r, lineHead line = str "%" ++ r.
Proof.
  intros H. apply find_sound in H. destruct H as (s1 & s2 & -> & H).
  invert_sem. subst.
  repeat match goal with Hw : sem ws _ _ _ _ _ |- _ =>
    apply sem_ws_spaces in Hw end.
  match goal with Hk : sem (Lit _) _ _ _ _ _ |- _ =>
    unfold Lit in Hk; cbn [sem] in Hk;
    let y := fresh "y" in let E := fresh "E" in
    destruct Hk as (y & -> & E & _); apply N.eqb_eq in E; subst y end.
  rewrite <- !app_assoc.
  rewrite lineHead_after_ws; [| assumption | reflexivity].
  eexists; reflexivity.
Qed.

Lemma word_cons (a : ascii) (w : string) :
  word (String a w) =
  match w with
  | EmptyString => Lit a
  | String _ _ => Seq (Lit a) (word w)
  end.
Proof. destruct w; reflexivity. Qed.

Local Open Scope Z_scope.

Lemma TrimSpace_nonblank line x r :
  lineHead line = x :: r -> IsSpace x = false -> len (TrimSpace line) <> 0.
Proof.
  intros Hh Hx. unfold lineHead in Hh.
  assert (E : dropWhile IsSpace line = x :: r).
  { rewrite <- (takeWhile_dropWhile is_s line), Hh.
    apply dropWhile_IsSpace_head; [apply forallb_takeWhile | assumption]. }
  unfold TrimSpace, dropWhileEnd. rewrite E.
  assert (N : rev (dropWhile IsSpace (rev (x :: r))) <> []).
  { intros C. apply (f_equal (@rev rune)) in C. rewrite rev_involutive in C.
    cbn [rev] in C. apply dropWhile_nil_all in C.
    rewrite forallb_app in C. apply andb_true_iff in C. destruct C as [_ C].
    cbn in C. rewrite Hx in C. discriminate. }
  pose proof (len_pos N). lia.
Qed.

(* ------------------------------------------------------------------ *)
(** ** Configurations, the tests of the repository and the scenarios *)

Lemma New_default : New DefaultOptions = Some defaultConfig.
Proof. reflexivity. Qed.

Lemma New_classic : New (withMode "classic") = Some classicConfig.
Proof. reflexivity. Qed.

Lemma New_range a b : New (withRange a b) = Some (rangeConfig a b).
Proof. reflexivity. Qed.

Lemma New_rejects_width o : IndentWidth o <= 0 -> New o = None.
Proof.
  intros H. unfold New. destruct (Z.leb_spec (IndentWidth o) 0); [reflexivity | lia].
Qed.

Lemma New_iwidth o f : New o = Some f -> 0 < iwidth f.
Proof.
  unfold New. destruct (Z.leb_spec (IndentWidth o) 0); [discriminate |].
  intros E. injection E as <-. assumption.
Qed.

Example test_partial_range :
  formatted (rangeConfig 2 4)
    (texts ["function y=foo(x)"; "    if x>0"; "y=x+1;"; "    end"; "end"])
  = texts ["function y=foo(x)"; "    if x > 0"; "        y = x + 1;";
           "    end"; ""; "end"].
Proof. vm_compute. reflexivity. Qed.

Example test_start_beyond_file :
  formatted (rangeConfig 99 0) (texts ["function y=foo(x)"; "end"])
  = texts ["function y=foo(x)"; "end"].
Proof. vm_compute. reflexivity. Qed.

Example test_dangling_ends :
  formatted (rangeConfig 5 6)
    (texts ["function foo"; "    if a"; "        if b";
            "            disp('x');"; "        end"; "    end"; "end"])
  = texts ["function foo"; "    if a"; "        if b";
           "            disp('x');"; "        end"; ""; "    end"; "";
           "end"].
Proof. vm_compute. reflexivity. Qed.

Example scenario_if :
  formatted defaultConfig (texts ["if x>0"; "y=1;"; "end"])
  = texts ["if x > 0"; "    y = 1;"; "end"].
Proof. vm_compute. reflexivity. Qed.

Example scenario_matrix :
  formatted defaultConfig (texts ["A = [1,2;"; "3,4];"])
  = texts ["A = [1, 2;"; "     3, 4];"].
Proof. vm_compute. reflexivity. Qed.

Example scenario_switch :
  formatted defaultConfig (texts ["switch x"; "case 1"; "disp(1);"; "end"])
  = texts ["switch x"; "    case 1"; "        disp(1);"; "end"].
Proof. vm_compute. reflexivity. Qed.

Example scenario_ellipsis :
  formatted defaultConfig (texts ["x = 1 ..."; "+2;"])
  = texts ["x = 1 ..."; "    +2;"].
Proof. vm_compute. reflexivity. Qed.

(* ------------------------------------------------------------------ *)
(** ** formatLine in two steps

    [formatLine] is the bookkeeping of [trackState] followed by
    [dispatch]; the comment flag does not change what the cleaner and
    the normalizer return. *)

Lemma esc_snd ic ic' part :
  snd (extractStringOrComment ic part) = snd (extractStringOrComment ic' part).
Proof.
  unfold extractStringOrComment.
  destruct (FindStringSubmatch pString part) as [c |];
    destruct (FindStringSubmatch pStringDQ part) as [c2 |];
    try reflexivity.
  - destruct (len (group c 2) <? len (group c2 2)); reflexivity.
  - destruct (FindStringSubmatch pComment part); reflexivity.
Qed.

Lemma clean_fuel_snd fuel :
  forall ic ic' line,
    option_map snd (clean_fuel fuel ic line)
    = option_map snd (clean_fuel fuel ic' line).
Proof.
  induction fuel as [| fuel IH]; intros ic ic' line; [reflexivity |].
  cbn [clean_fuel].
  pose proof (esc_snd ic ic' line) as E.
  destruct (extractStringOrComment ic line) as [ic1 e1].
  destruct (extractStringOrComment ic' line) as [ic1' e1'].
  cbn in E. subst e1'. destruct e1 as [[[l mid] r] |]; [| reflexivity].
  pose proof (IH ic1 ic1' l) as El.
  destruct (clean_fuel fuel ic1 l) as [[ic2 fl] |];
    destruct (clean_fuel fuel ic1' l) as [[ic2' fl'] |]; try discriminate;
    [| reflexivity].
  cbn in El. injection El as <-.
  pose proof (IH ic2 ic2' r) as Er.
  destruct (clean_fuel fuel ic2 r) as [[ic3 fr] |];
    destruct (clean_fuel fuel ic2' r) as [[ic3' fr'] |]; try discriminate;
    [| reflexivity].
  cbn in Er. injection Er as <-. reflexivity.
Qed.

Lemma clean_snd ic line :
  snd (cleanLineFromStringsAndComments ic line) = cleaned line.
Proof.
  unfold cleaned, cleanLineFromStringsAndComments.
  pose proof (clean_fuel_snd (budget line) ic 0 line) as E.
  destruct (clean_fuel (budget line) ic line) as [[a b] |];
    destruct (clean_fuel (budget line) 0 line) as [[a' b'] |];
    try discriminate; cbn in *; congruence.
Qed.

Lemma extract_snd f ic ic' part :
  snd (extract f ic part) = snd (extract f ic' part).
Proof.
  unfold extract. destruct (MatchString pBlank part); [reflexivity |].
  pose proof (esc_snd ic ic' part) as E.
  destruct (extractStringOrComment ic part) as [ic1 e1].
  destruct (extractStringOrComment ic' part) as [ic1' e1'].
  cbn in E. subst e1'. destruct e1 as [e |]; [reflexivity |].
  repeat match goal with
  | |- context [match FindStringSubmatch ?p part with _ => _ end] =>
      destruct (FindStringSubmatch p part); [reflexivity |]
  end.
  reflexivity.
Qed.

Lemma format_fuel_snd f fuel :
  forall ic ic' part,
    option_map snd (format_fuel f fuel ic part)
    = option_map snd (format_fuel f fuel ic' part).
Proof.
  induction fuel as [| fuel IH]; intros ic ic' part; [reflexivity |].
  cbn [format_fuel].
  pose proof (extract_snd f ic ic' part) as E.
  destruct (extract f ic part) as [ic1 e1].
  destruct (extract f ic' part) as [ic1' e1'].
  cbn in E. subst e1'. destruct e1 as [[[l mid] r] |]; [| reflexivity].
  pose proof (IH ic1 ic1' l) as El.
  destruct (format_fuel f fuel ic1 l) as [[ic2 fl] |];
    destruct (format_fuel f fuel ic1' l) as [[ic2' fl'] |]; try discriminate;
    [| reflexivity].
  cbn in El. injection El as <-.
  pose proof (IH ic2 ic2' r) as Er.
  destruct (format_fuel f fuel ic2 r) as [[ic3 fr] |];
    destruct (format_fuel f fuel ic2' r) as [[ic3' fr'] |]; try discriminate;
    [| reflexivity].
  cbn in Er. injection Er as <-. reflexivity.
Qed.

Lemma format_snd f ic part : snd (format f ic part) = normalize f part.
Proof.
  unfold normalize, format.
  pose proof (format_fuel_snd f (budget part) ic 0 part) as E.
  destruct (format_fuel f (budget part) ic part) as [[a b] |];
    destruct (format_fuel f (budget part) 0 part) as [[a' b'] |];
    try discriminate; cbn in *; congruence.
Qed.

Lemma fmt_fst f st x : fst (fmt f st x) = TrimSpace (normalize f x).
Proof.
  unfold fmt. rewrite <- (format_snd f (isComment st) x).
  destruct (format f (isComment st) x). reflexivity.
Qed.

Lemma fmt_snd f st x :
  snd (fmt f st x) = set_isComment st (fst (format f (isComment st) x)).
Proof. unfold fmt. destruct (format f (isComment st) x). reflexivity. Qed.

Lemma cellIndent_count f ic line open close indent0 :
  fst (fst (cellIndent f ic line open close indent0))
  = netBrackets line open close.
Proof.
  unfold cellIndent, netBrackets. rewrite <- (clean_snd ic line).
  destruct (cleanLineFromStringsAndComments ic line). reflexivity.
Qed.

Lemma cellIndent_balanced f ic line open close indent0 :
  netBrackets line open close = 0 ->
  snd (fst (cellIndent f ic line open close indent0)) = indent0.
Proof.
  unfold cellIndent, netBrackets. rewrite <- (clean_snd ic line).
  destruct (cleanLineFromStringsAndComments ic line) as [ic1 cl]. cbn.
  intros ->. reflexivity.
Qed.

Lemma formatLine_eq f st line :
  formatLine f st line =
  if 0 <? ignoreLines st then
    let st := set_ignoreLines st (ignoreLines st - 1) in
    (0, indent f st 0 ++ TrimSpace line, st)
  else dispatch f (trackState st line) line.
Proof.
  unfold formatLine, dispatch, trackState.
  destruct (0 <? ignoreLines st); [reflexivity |].
  cbv zeta.
  destruct (cleanLineFromStringsAndComments _ line) as [ic stripped].
  reflexivity.
Qed.

Lemma trackState_frame st line :
  let st' := trackState st line in
  ilvl st' = ilvl st /\ istep st' = istep st /\ fstep st' = fstep st
  /\ matrix st' = matrix st /\ cell st' = cell st
  /\ ignoreLines st' = ignoreLines st.
Proof.
  unfold trackState. cbv zeta.
  destruct (cleanLineFromStringsAndComments _ line) as [ic stripped].
  repeat match goal with
  | |- context [if ?b then _ else _] => destruct b
  end; cbn; repeat split; reflexivity.
Qed.

(** On a line that is no comment line and no block-comment sentinel the
    two comment counters decay. *)
Lemma trackState_plain st line :
  MatchString lineComment line = false ->
  MatchString blockCommentOpen line = false ->
  MatchString blockCommentClose line = false ->
  isLineComment st <= 2 -> isBlockComment st <= 1 ->
  let st' := trackState st line in
  isLineComment st' <= 1 /\ isBlockComment st' <= 0.
Proof.
  intros H1 H2 H3 Hl Hb. unfold trackState. rewrite H1, H2, H3. cbv zeta.
  destruct (Z.ltb_spec 0 (isLineComment st));
    cbn [isBlockComment set_isLineComment];
    destruct (Z.ltb_spec 0 (isBlockComment st));
    destruct (cleanLineFromStringsAndComments _ line) as [ic stripped];
    repeat match goal with
    | |- context [if ?b then _ else _] => destruct b
    end; cbn; lia.
Qed.

Lemma multilineMatrix_balanced f st line :
  netBrackets line 91%N 93%N = 0 ->
  fst (multilineMatrix f st line) = 0
  /\ matrix (snd (multilineMatrix f st line)) = matrix st
  /\ ilvl (snd (multilineMatrix f st line)) = ilvl st
  /\ continueLine (snd (multilineMatrix f st line)) = continueLine st
  /\ istep (snd (multilineMatrix f st line)) = istep st
  /\ fstep (snd (multilineMatrix f st line)) = fstep st
  /\ cell (snd (multilineMatrix f st line)) = cell st.
Proof.
  intros Hb. unfold multilineMatrix.
  pose proof (cellIndent_count f (isComment st) line 91%N 93%N (matrix st)) as Hc.
  pose proof (@cellIndent_balanced f (isComment st) line 91%N 93%N (matrix st) Hb)
    as Hi.
  destruct (cellIndent f (isComment st) line 91%N 93%N (matrix st))
    as [[diff ind] ic].
  cbn in *. subst. rewrite Hb. repeat split; reflexivity.
Qed.

Lemma cellArray_balanced f st line :
  netBrackets line 123%N 125%N = 0 ->
  fst (cellArray f st line) = 0
  /\ cell (snd (cellArray f st line)) = cell st
  /\ ilvl (snd (cellArray f st line)) = ilvl st
  /\ continueLine (snd (cellArray f st line)) = continueLine st
  /\ istep (snd (cellArray f st line)) = istep st
  /\ fstep (snd (cellArray f st line)) = fstep st
  /\ matrix (snd (cellArray f st line)) = matrix st.
Proof.
  intros Hb. unfold cellArray.
  pose proof (cellIndent_count f (isComment st) line 123%N 125%N (cell st)) as Hc.
  pose proof (@cellIndent_balanced f (isComment st) line 123%N 125%N (cell st) Hb)
    as Hi.
  destruct (cellIndent f (isComment st) line 123%N 125%N (cell st))
    as [[diff ind] ic].
  cbn in *. subst. rewrite Hb. repeat split; reflexivity.
Qed.

(* ------------------------------------------------------------------ *)
(** ** The selected range *)

Local Close Scope Z_scope.

Lemma initialIndent_exact (line : text) :
  forallb is_dot line = true ->
  FindStringSubmatch initialIndent line
  = Some [(2%nat, dropWhile is_s line); (1%nat, takeWhile is_s line)].
Proof.
  intros Hnl. unfold initialIndent. cbn [seqs]. rewrite find_anchored.
  cbn [exec]. unfold ws, any, s_, dot.
  apply star_cls_greedy_max.
  apply star_cls_greedy_max.
  rewrite (dropWhile_all is_dot) by (apply forallb_dropWhile; assumption).
  rewrite (takeWhile_all is_dot) by (apply forallb_dropWhile; assumption).
  cbn [exec accept].
  replace (0 + List.length (takeWhile is_s line)
           + List.length (dropWhile is_s line)
           - (0 + List.length (takeWhile is_s line)))%nat
    with (List.length (dropWhile is_s line)) by lia.
  replace (0 + List.length (takeWhile is_s line) - 0)%nat
    with (List.length (takeWhile is_s line)) by lia.
  rewrite firstn_all, firstn_takeWhile. reflexivity.
Qed.

Local Open Scope Z_scope.

Lemma selection_bounds f lines :
  let '(a, b) := selection f lines in
  0 <= a /\ a <= b /\ b <= Z.of_nat (List.length lines).
Proof.
  unfold selection. cbv zeta.
  set (n := Z.of_nat (List.length lines)).
  assert (0 <= n) by (unfold n; lia).
  destruct (Z.ltb_spec (StartLine (opts f)) 1);
    match goal with
    | |- context [n <? ?x] => destruct (Z.ltb_spec n x)
    end;
    destruct (Z.ltb_spec 0 (EndLine (opts f)));
    destruct (Z.leb_spec (EndLine (opts f)) n); cbn [andb];
    match goal with
    | |- context [?x <? ?y] => destruct (Z.ltb_spec x y)
    end; lia.
Qed.

Lemma enterSegment_exact f st first others :
  forallb is_dot first = true ->
  enterSegment f st (first :: others)
  = (set_ilvl st (Z.quot (len (takeWhile is_s first)) (iwidth f)),
     dropWhile is_s first :: others).
Proof.
  intros H. unfold enterSegment. rewrite (initialIndent_exact _ H).
  reflexivity.
Qed.

(* ------------------------------------------------------------------ *)
(** ** C1: a second pass *)

(** Two runs that change their own output.  The first pass measures the
    matrix indent on [A =[1;] (4) and emits [A = [1;]; the second pass
    measures it on that line (5), and the continuation line moves.  The
    normalizer puts spaces around the [+] of [b+1e-3]; on its own output
    the number rule drops the space before [1e-3] and the [+] is then
    read as a sign. *)
Lemma idempotence_refuted :
  formatted defaultConfig (texts ["A =[1;"; "2];"]) = texts ["A = [1;"; "    2];"]
  /\ formatted defaultConfig (texts ["A = [1;"; "    2];"])
     = texts ["A = [1;"; "     2];"]
  /\ normalize defaultConfig (str "a = b+1e-3") = str "a = b + 1e-3"
  /\ normalize defaultConfig (str "a = b + 1e-3") = str "a = b +1e-3".
Proof. vm_compute. repeat split; reflexivity. Qed.

(** *** White space and the characters that are none *)

Lemma visible_app a b : visible (a ++ b) = visible a ++ visible b.
Proof. apply filter_app. Qed.

Lemma visible_spaces s : forallb IsSpace s = true -> visible s = [].
Proof.
  induction s as [| x s IH]; [reflexivity |]. cbn. intros H.
  apply andb_true_iff in H. destruct H as [Hx Hs]. rewrite Hx. cbn. auto.
Qed.

Lemma visible_nil_spaces s : visible s = [] -> forallb IsSpace s = true.
Proof.
  induction s as [| x s IH]; [reflexivity |]. cbn.
  destruct (IsSpace x); cbn; [assumption | discriminate].
Qed.

Lemma visible_is_s s : forallb is_s s = true -> visible s = [].
Proof.
  intros H. apply visible_spaces. eapply forallb_impl; [| eassumption].
  apply is_s_IsSpace.
Qed.

Lemma visible_sepIf b : visible (sepIf b) = [].
Proof. destruct b; reflexivity. Qed.

Lemma visible_repeat n : visible (repeat 32%N n) = [].
Proof. induction n as [| n IH]; [reflexivity | exact IH]. Qed.

Lemma visible_indent f st extra : visible (indent f st extra) = [].
Proof.
  unfold indent. cbv zeta.
  match goal with |- context [if ?b then [] else _] => destruct b end;
    [reflexivity | apply visible_repeat].
Qed.

Lemma visible_dropWhile (p : rune -> bool) s :
  (forall x, p x = true -> IsSpace x = true) ->
  visible (dropWhile p s) = visible s.
Proof.
  intros Hp. induction s as [| x s IH]; [reflexivity |]. cbn [dropWhile].
  destruct (p x) eqn:E; [| reflexivity].
  rewrite IH. cbn. rewrite (Hp _ E). reflexivity.
Qed.

Lemma visible_rev s : visible (rev s) = rev (visible s).
Proof.
  induction s as [| x s IH]; [reflexivity |]. cbn [rev].
  rewrite visible_app, IH. cbn. destruct (IsSpace x); cbn;
    [rewrite app_nil_r |]; reflexivity.
Qed.

Lemma visible_dropWhileEnd (p : rune -> bool) s :
  (forall x, p x = true -> IsSpace x = true) ->
  visible (dropWhileEnd p s) = visible s.
Proof.
  intros Hp. unfold dropWhileEnd.
  rewrite visible_rev, (visible_dropWhile _ _ Hp), visible_rev, rev_involutive.
  reflexivity.
Qed.

Lemma visible_TrimSpace s : visible (TrimSpace s) = visible s.
Proof.
  unfold TrimSpace.
  rewrite visible_dropWhileEnd, visible_dropWhile; auto.
Qed.

Lemma cutset_IsSpace x : mem x cutset = true -> IsSpace x = true.
Proof.
  unfold cutset, mem. cbn [existsb]. intros H.
  repeat (apply orb_true_iff in H; destruct H as [H | H]);
    try discriminate; apply N.eqb_eq in H; subst; reflexivity.
Qed.

Lemma visible_TrimRight s : visible (TrimRight s cutset) = visible s.
Proof. unfold TrimRight. apply visible_dropWhileEnd, cutset_IsSpace. Qed.

Lemma oneLine_app a b : oneLine (a ++ b) <-> oneLine a /\ oneLine b.
Proof. unfold oneLine. rewrite forallb_app. apply andb_true_iff. Qed.

Lemma oneLine_dropWhile (p : rune -> bool) s :
  oneLine s -> oneLine (dropWhile p s).
Proof.
  unfold oneLine. induction s as [| x s IH]; [auto |]. cbn.
  intros H. apply andb_true_iff in H. destruct H as [Hx Hs].
  destruct (p x); [auto | cbn; rewrite Hx, Hs; reflexivity].
Qed.

Lemma oneLine_rev s : oneLine s -> oneLine (rev s).
Proof.
  unfold oneLine. intros H. rewrite forallb_forall in *.
  intros x Hx. apply H. apply in_rev. assumption.
Qed.

Lemma oneLine_dropWhileEnd (p : rune -> bool) s :
  oneLine s -> oneLine (dropWhileEnd p s).
Proof.
  intros H. unfold dropWhileEnd.
  apply oneLine_rev, oneLine_dropWhile, oneLine_rev. assumption.
Qed.

Lemma oneLine_TrimSpace s : oneLine s -> oneLine (TrimSpace s).
Proof.
  intros H. unfold TrimSpace.
  apply oneLine_dropWhileEnd, oneLine_dropWhile. assumption.
Qed.

Lemma oneLine_TrimRight s : oneLine s -> oneLine (TrimRight s cutset).
Proof. intros H. apply oneLine_dropWhileEnd. assumption. Qed.

Lemma oneLine_sepIf b : oneLine (sepIf b).
Proof. destruct b; reflexivity. Qed.

Lemma oneLine_repeat n : oneLine (repeat 32%N n).
Proof. induction n as [| n IH]; [reflexivity | exact IH]. Qed.

Lemma oneLine_indent f st extra : oneLine (indent f st extra).
Proof.
  unfold indent. cbv zeta.
  match goal with |- context [if ?b then [] else _] => destruct b end;
    [reflexivity | apply oneLine_repeat].
Qed.

Lemma blank_visible s : len (TrimSpace s) = 0 <-> visible s = [].
Proof.
  split.
  - intros H. rewrite <- visible_TrimSpace.
    destruct (TrimSpace s) as [| x r] eqn:E; [reflexivity |].
    assert (N : x :: r <> []) by discriminate.
    apply len_pos in N. lia.
  - intros H. apply visible_nil_spaces in H.
    unfold TrimSpace. rewrite (dropWhile_all _ _ H). reflexivity.
Qed.

(** *** The rules of the extractor

    Every pattern of the extractor runs to the end of the part, so the
    pieces of a match make up the whole part; what a rule drops or adds
    between its groups is white space. *)

Ltac inclusion := vm_compute; repeat split; intros; assumption.

Ltac cover_of H Hone :=
  cbn [seqs] in H; apply find_cover in H; [| solve [inclusion] | exact Hone];
  invert_sem; subst; repeat caps_step.

Ltac space_facts :=
  repeat match goal with
  | H : sem ?X _ ?s _ _ _ |- _ =>
      lazymatch goal with
      | _ : visible s = [] |- _ => fail
      | _ => idtac
      end;
      let V := fresh "V" in
      assert (V : visible s = [])
        by (apply visible_is_s; eapply (@sem_classesIn is_s X);
            [solve [inclusion] | exact H])
  | H : iter (sem ?X) _ ?s _ _ _ |- _ =>
      lazymatch goal with
      | _ : visible s = [] |- _ => fail
      | _ => idtac
      end;
      let V := fresh "V" in
      assert (V : visible s = [])
        by (apply visible_is_s; eapply (@sem_classesIn is_s (Star true X));
            [solve [inclusion] | exact H])
  end.

Ltac split_lines :=
  repeat match goal with
  | H : oneLine (_ ++ _) |- _ => apply oneLine_app in H; destruct H
  end.

Ltac lines :=
  repeat match goal with
  | |- oneLine (_ ++ _) => apply oneLine_app; split
  | |- oneLine (sepIf _) => apply oneLine_sepIf
  | |- oneLine _ => assumption
  | |- oneLine _ => reflexivity
  end.

Ltac vis :=
  repeat rewrite visible_app; rewrite ?visible_sepIf;
  repeat match goal with V : visible _ = [] |- _ => rewrite V end;
  change (visible (str " ")) with (@nil rune);
  rewrite ?app_nil_l, ?app_nil_r, <- ?app_assoc; reflexivity.

Ltac content H Hone :=
  cover_of H Hone; other_groups; space_facts; split_lines;
  unfold keeps; repeat split; [vis | lines ..].

Lemma content_pBlank part :
  oneLine part -> MatchString pBlank part = true -> visible part = [].
Proof.
  intros Hone. unfold MatchString.
  destruct (FindStringSubmatch pBlank part) as [m |] eqn:H;
    [intros _ | discriminate].
  unfold pBlank, ws1 in H. cover_of H Hone. space_facts. vis.
Qed.

Lemma content_pString part m :
  oneLine part ->
  FindStringSubmatch pString part = Some m ->
  keeps part (group m 1) (group m 2) (group m 4).
Proof. intros Hone H. unfold pString in H. content H Hone. Qed.

Lemma content_pStringDQ part m :
  oneLine part ->
  FindStringSubmatch pStringDQ part = Some m ->
  keeps part (group m 1) (group m 2) (group m 4).
Proof. intros Hone H. unfold pStringDQ in H. content H Hone. Qed.

Lemma content_pComment part m :
  oneLine part ->
  FindStringSubmatch pComment part = Some m ->
  keeps part (group m 1 ++ str " ") (group m 2) [].
Proof. intros Hone H. unfold pComment in H. content H Hone. Qed.

Lemma content_strings ic part ic' l mid r :
  oneLine part ->
  extractStringOrComment ic part = (ic', Some (l, mid, r)) ->
  keeps part l mid r.
Proof.
  intros Hone. unfold extractStringOrComment.
  destruct (FindStringSubmatch pString part) as [c |] eqn:E1;
    destruct (FindStringSubmatch pStringDQ part) as [c2 |] eqn:E2.
  - destruct (len (group c 2) <? len (group c2 2))%Z;
      intros H; injection H as _ <- <- <-;
      [apply content_pStringDQ | apply content_pString]; assumption.
  - intros H; injection H as _ <- <- <-. apply content_pString; assumption.
  - intros H; injection H as _ <- <- <-. apply content_pStringDQ; assumption.
  - destruct (FindStringSubmatch pComment part) as [c |] eqn:E3;
      [| discriminate].
    intros H; injection H as _ <- <- <-. apply content_pComment; assumption.
Qed.

Lemma content_pNumSci part m :
  oneLine part ->
  FindStringSubmatch pNumSci part = Some m ->
  keeps part (group m 1 ++ group m 2) (group m 3) (group m 4 ++ group m 5).
Proof. intros Hone H. unfold pNumSci in H. content H Hone. Qed.

Lemma content_pNumRational part m :
  oneLine part ->
  FindStringSubmatch pNumRational part = Some m ->
  keeps part (group m 1 ++ group m 2) (group m 3) (group m 4 ++ group m 5).
Proof. intros Hone H. unfold pNumRational in H. content H Hone. Qed.

Lemma content_pIncrement part m :
  oneLine part ->
  FindStringSubmatch pIncrement part = Some m ->
  keeps part (group m 1) (group m 2 ++ group m 3) (group m 4).
Proof. intros Hone H. unfold pIncrement in H. content H Hone. Qed.

Lemma content_pSign part m :
  oneLine part ->
  FindStringSubmatch pSign part = Some m ->
  keeps part (group m 1) (group m 2) (group m 3).
Proof. intros Hone H. unfold pSign in H. content H Hone. Qed.

Lemma content_pColon part m :
  oneLine part ->
  FindStringSubmatch pColon part = Some m ->
  keeps part (group m 1) (group m 2) (group m 3).
Proof. intros Hone H. unfold pColon in H. content H Hone. Qed.

Lemma content_pOpDot part m :
  oneLine part ->
  FindStringSubmatch pOpDot part = Some m ->
  forall sep,
    keeps part (group m 1 ++ sepIf sep) (group m 2 ++ group m 3 ++ group m 4)
      (sepIf sep ++ group m 5).
Proof. intros Hone H sep. unfold pOpDot in H. content H Hone. Qed.

Lemma content_pPowDot part m :
  oneLine part ->
  FindStringSubmatch pPowDot part = Some m ->
  forall sep,
    keeps part (group m 1 ++ sepIf sep) (group m 2 ++ group m 3)
      (sepIf sep ++ group m 4).
Proof. intros Hone H sep. unfold pPowDot in H. content H Hone. Qed.

Lemma content_pPow part m :
  oneLine part ->
  FindStringSubmatch pPow part = Some m ->
  forall sep,
    keeps part (group m 1 ++ sepIf sep) (group m 2) (sepIf sep ++ group m 3).
Proof. intros Hone H sep. unfold pPow in H. content H Hone. Qed.

Lemma content_pOpComb part m :
  oneLine part ->
  FindStringSubmatch pOpComb part = Some m ->
  forall sep,
    keeps part (group m 1 ++ sepIf sep) (group m 2 ++ group m 3)
      (sepIf sep ++ group m 4).
Proof. intros Hone H sep. unfold pOpComb in H. content H Hone. Qed.

Lemma content_pNot part m :
  oneLine part ->
  FindStringSubmatch pNot part = Some m ->
  keeps part (group m 1 ++ str " ") (group m 2) (group m 3).
Proof. intros Hone H. unfold pNot in H. content H Hone. Qed.

Lemma content_pOp part m :
  oneLine part ->
  FindStringSubmatch pOp part = Some m ->
  forall sep,
    keeps part (group m 1 ++ sepIf sep) (group m 2) (sepIf sep ++ group m 3).
Proof. intros Hone H sep. unfold pOp in H. content H Hone. Qed.

Lemma content_pFunc part m :
  oneLine part ->
  FindStringSubmatch pFunc part = Some m ->
  keeps part (group m 1) (group m 2) (group m 3).
Proof. intros Hone H. unfold pFunc in H. content H Hone. Qed.

Lemma content_pOpen part m :
  oneLine part ->
  FindStringSubmatch pOpen part = Some m ->
  keeps part (group m 1) (group m 2) (group m 3).
Proof. intros Hone H. unfold pOpen in H. content H Hone. Qed.

Lemma content_pClose part m :
  oneLine part ->
  FindStringSubmatch pClose part = Some m ->
  keeps part (group m 1) (group m 2) (group m 3).
Proof. intros Hone H. unfold pClose in H. content H Hone. Qed.

Lemma content_pComma part m :
  oneLine part ->
  FindStringSubmatch pComma part = Some m ->
  keeps part (group m 1) (group m 2) (str " " ++ group m 3).
Proof. intros Hone H. unfold pComma in H. content H Hone. Qed.

Lemma content_pEllipsis part m :
  oneLine part ->
  FindStringSubmatch pEllipsis part = Some m ->
  keeps part (group m 1 ++ str " ") (group m 2) (str " " ++ group m 3).
Proof. intros Hone H. unfold pEllipsis in H. content H Hone. Qed.

Lemma content_pMultiWS part m :
  oneLine part ->
  FindStringSubmatch pMultiWS part = Some m ->
  keeps part (group m 1) (str " ") (group m 3).
Proof. intros Hone H. unfold pMultiWS in H. content H Hone. Qed.

Ltac keep_rule lem :=
  match goal with
  | |- match FindStringSubmatch ?p ?part with _ => _ end = _ -> _ =>
      let E := fresh "E" in
      destruct (FindStringSubmatch p part) eqn:E;
      [ intros H; injection H as _ <- <- <-; apply lem; assumption |]
  end.

Lemma extract_content f ic part ic' l mid r :
  oneLine part ->
  extract f ic part = (ic', Some (l, mid, r)) ->
  keeps part l mid r.
Proof.
  intros Hone. unfold extract.
  destruct (MatchString pBlank part) eqn:Eb.
  { intros H. injection H as _ <- <- <-.
    apply (content_pBlank Hone) in Eb.
    unfold keeps. rewrite Eb. repeat split; reflexivity. }
  destruct (extractStringOrComment ic part) as [ic1 [[[l' m'] r'] |]] eqn:Es.
  { intros H. injection H as _ <- <- <-.
    eapply content_strings; eassumption. }
  keep_rule content_pNumSci.
  keep_rule content_pNumRational.
  keep_rule content_pIncrement.
  keep_rule content_pSign.
  keep_rule content_pColon.
  keep_rule content_pOpDot.
  keep_rule content_pPowDot.
  keep_rule content_pPow.
  keep_rule content_pOpComb.
  keep_rule content_pNot.
  keep_rule content_pOp.
  keep_rule content_pFunc.
  keep_rule content_pOpen.
  keep_rule content_pClose.
  keep_rule content_pComma.
  keep_rule content_pEllipsis.
  keep_rule content_pMultiWS.
  discriminate.
Qed.

Lemma format_fuel_content f :
  forall fuel ic part res,
    oneLine part ->
    format_fuel f fuel ic part = Some res ->
    visible (snd res) = visible part /\ oneLine (snd res).
Proof.
  induction fuel as [| fuel IH]; intros ic part res Hone H; [discriminate |].
  cbn [format_fuel] in H.
  destruct (extract f ic part) as [ic1 [[[l mid] r] |]] eqn:E.
  - apply (extract_content _ _ Hone) in E.
    destruct E as (Ev & Hl & Hm & Hr).
    destruct (format_fuel f fuel ic1 l) as [[ic2 fl] |] eqn:El; [| discriminate].
    destruct (format_fuel f fuel ic2 r) as [[ic3 fr] |] eqn:Er; [| discriminate].
    injection H as <-. cbn [snd].
    apply (IH _ _ _ Hl) in El. apply (IH _ _ _ Hr) in Er. cbn [snd] in El, Er.
    destruct El as [Vl Ol]. destruct Er as [Vr Or].
    split.
    + rewrite !visible_app, Vl, Vr. assumption.
    + apply oneLine_app. split; [assumption |].
      apply oneLine_app. split; assumption.
  - injection H as <-. cbn [snd]. split; [reflexivity | assumption].
Qed.

Lemma normalize_content f part :
  oneLine part ->
  visible (normalize f part) = visible part /\ oneLine (normalize f part).
Proof.
  intros Hone. unfold normalize, format.
  destruct (format_fuel f (budget part) 0 part) as [res |] eqn:E.
  - cbn [orDefault]. eapply format_fuel_content; eassumption.
  - cbn. split; [reflexivity | assumption].
Qed.

Lemma fmt_content f st x :
  oneLine x ->
  visible (fst (fmt f st x)) = visible x /\ oneLine (fst (fmt f st x)).
Proof.
  intros Hone. rewrite fmt_fst.
  destruct (normalize_content f Hone) as [V O].
  rewrite visible_TrimSpace. split; [assumption |].
  apply oneLine_TrimSpace. assumption.
Qed.

(** *** The branches of formatLine *)

Ltac pieces H Hone :=
  cover_of H Hone; other_groups; space_facts; split_lines;
  repeat split; [vis | lines ..].

Lemma cover_ctrl1Line line m :
  oneLine line ->
  FindStringSubmatch ctrl1Line line = Some m ->
  visible (group m 2) ++ visible (group m 3) ++ visible (group m 4)
    ++ visible (group m 6) = visible line
  /\ oneLine (group m 2) /\ oneLine (group m 3) /\ oneLine (group m 4)
  /\ oneLine (group m 6).
Proof. intros Hone H. unfold ctrl1Line in H. pieces H Hone. Qed.

Lemma cover_fcnStart line m :
  oneLine line ->
  FindStringSubmatch fcnStart line = Some m ->
  visible (group m 2) ++ visible (group m 3) = visible line
  /\ oneLine (group m 2) /\ oneLine (group m 3).
Proof. intros Hone H. unfold fcnStart in H. pieces H Hone. Qed.

Lemma cover_ctrlStart line m :
  oneLine line ->
  FindStringSubmatch ctrlStart line = Some m ->
  visible (group m 2) ++ visible (group m 3) = visible line
  /\ oneLine (group m 2) /\ oneLine (group m 3).
Proof. intros Hone H. unfold ctrlStart in H. pieces H Hone. Qed.

Lemma cover_ctrlStartSwitch line m :
  oneLine line ->
  FindStringSubmatch ctrlStartSwitch line = Some m ->
  visible (group m 2) ++ visible (group m 3) = visible line
  /\ oneLine (group m 2) /\ oneLine (group m 3).
Proof. intros Hone H. unfold ctrlStartSwitch in H. pieces H Hone. Qed.

Lemma cover_ctrlCont line m :
  oneLine line ->
  FindStringSubmatch ctrlCont line = Some m ->
  visible (group m 2) ++ visible (group m 3) = visible line
  /\ oneLine (group m 2) /\ oneLine (group m 3).
Proof. intros Hone H. unfold ctrlCont in H. pieces H Hone. Qed.

Lemma cover_ctrlEnd line m :
  oneLine line ->
  FindStringSubmatch ctrlEnd line = Some m ->
  visible (group m 2) ++ visible (group m 4) = visible line
  /\ oneLine (group m 2) /\ oneLine (group m 4).
Proof. intros Hone H. unfold ctrlEnd in H. pieces H Hone. Qed.

Lemma sameLine_trimmed f st line :
  oneLine line -> sameLine line (indent f st 0 ++ TrimSpace line).
Proof.
  intros Hone. split.
  - rewrite visible_app, visible_indent, visible_TrimSpace. reflexivity.
  - apply oneLine_app. split; [apply oneLine_indent |].
    apply oneLine_TrimSpace. assumption.
Qed.

Ltac fmt_facts :=
  repeat match goal with
  | |- context [fmt ?f ?s ?x] =>
      let F := fresh "F" in
      pose proof (@fmt_content f s x) as F;
      destruct (fmt f s x); cbn [fst] in F
  end.

Ltac same :=
  cbn [fst snd]; split;
  [ repeat rewrite visible_app; rewrite ?visible_indent;
    change (visible (str " ")) with (@nil rune);
    repeat match goal with
    | F : oneLine ?x -> _, Hx : oneLine ?x |- _ =>
        destruct (F Hx) as [?V ?O]; clear F
    end;
    repeat match goal with V : visible _ = visible _ |- _ => rewrite V; clear V end;
    rewrite ?app_nil_l, ?app_nil_r, <- ?app_assoc;
    try assumption; try reflexivity
  | repeat match goal with
    | F : oneLine ?x -> _, Hx : oneLine ?x |- _ =>
        destruct (F Hx) as [?V ?O]; clear F
    end;
    repeat match goal with
    | |- oneLine (_ ++ _) => apply oneLine_app; split
    | |- oneLine (indent _ _ _) => apply oneLine_indent
    | |- oneLine _ => assumption
    | |- oneLine _ => reflexivity
    end ].

Lemma dispatch_content f st line :
  oneLine line -> sameLine line (snd (fst (dispatch f st line))).
Proof.
  intros Hone. unfold dispatch.
  destruct (0 <? isBlockComment st).
  { cbn. split; [apply visible_TrimRight | apply oneLine_TrimRight; assumption]. }
  destruct (isLineComment st =? 2).
  { cbn. apply sameLine_trimmed. assumption. }
  destruct (MatchString ctrlIgnore line).
  { cbn. apply sameLine_trimmed. assumption. }
  cbv zeta.
  destruct (multilineMatrix f st line) as [diff st1].
  destruct (negb (diff =? 0) || negb (matrix st =? 0)).
  { fmt_facts. same. }
  destruct (cellArray f st1 line) as [diff2 st2].
  destruct (negb (diff2 =? 0) || negb (cell st1 =? 0)).
  { fmt_facts. same. }
  destruct (FindStringSubmatch ctrl1Line line) as [m |] eqn:E1.
  { apply (cover_ctrl1Line Hone) in E1. destruct E1 as (Ev & ? & ? & ? & ?).
    fmt_facts. same. }
  destruct (FindStringSubmatch fcnStart line) as [m |] eqn:E2.
  { apply (cover_fcnStart Hone) in E2. destruct E2 as (Ev & ? & ?).
    fmt_facts. same. }
  destruct (FindStringSubmatch ctrlStart line) as [m |] eqn:E3.
  { apply (cover_ctrlStart Hone) in E3. destruct E3 as (Ev & ? & ?).
    fmt_facts. same. }
  destruct (FindStringSubmatch ctrlStartSwitch line) as [m |] eqn:E4.
  { apply (cover_ctrlStartSwitch Hone) in E4. destruct E4 as (Ev & ? & ?).
    fmt_facts. same. }
  destruct (FindStringSubmatch ctrlCont line) as [m |] eqn:E5.
  { apply (cover_ctrlCont Hone) in E5. destruct E5 as (Ev & ? & ?).
    fmt_facts. same. }
  destruct (FindStringSubmatch ctrlEnd line) as [m |] eqn:E6.
  { apply (cover_ctrlEnd Hone) in E6. destruct E6 as (Ev & ? & ?).
    repeat match goal with
    | |- context [if ?b then _ else _] => destruct b
    end; cbv beta iota zeta; fmt_facts; same. }
  fmt_facts. same.
Qed.

Lemma formatLine_content f st line :
  oneLine line -> sameLine line (snd (fst (formatLine f st line))).
Proof.
  intros Hone. rewrite formatLine_eq.
  destruct (0 <? ignoreLines st).
  - cbn. apply sameLine_trimmed. assumption.
  - apply dispatch_content. assumption.
Qed.

(** *** The loop over the lines *)

Lemma content_app a b : content (a ++ b) = content a ++ content b.
Proof. unfold content. rewrite map_app, filter_app. reflexivity. Qed.

Lemma content_blank : content [[]] = [].
Proof. reflexivity. Qed.

Lemma content_one a b : visible a = visible b -> content [a] = content [b].
Proof. intros E. unfold content. cbn. rewrite E. reflexivity. Qed.

Lemma content_invisible a : visible a = [] -> content [a] = [].
Proof. intros E. unfold content. cbn. rewrite E. reflexivity. Qed.

Lemma lineStep_content f st output blank raw :
  oneLine raw -> Forall oneLine output ->
  let '(_, output', _) := lineStep f (st, output, blank) raw in
  content output' = content (output ++ [raw]) /\ Forall oneLine output'.
Proof.
  intros Hone Hout. unfold lineStep.
  assert (Hnil : Forall oneLine [[] : text]) by (repeat constructor).
  destruct (Z.eqb_spec (len (TrimSpace raw)) 0) as [E | _].
  - apply blank_visible in E.
    rewrite content_app, (content_invisible _ E), app_nil_r.
    destruct blank; cbn [negb].
    + split; [reflexivity | assumption].
    + split; [rewrite content_app, content_blank, app_nil_r; reflexivity |].
      apply Forall_app. split; assumption.
  - pose proof (formatLine_content f st Hone) as [V O].
    destruct (formatLine f st raw) as [[offset line] st1]. cbn [fst snd] in V, O.
    cbv zeta.
    assert (Hl : Forall oneLine [TrimRight line cutset]).
    { repeat constructor. apply oneLine_TrimRight. assumption. }
    assert (Hc : content [TrimRight line cutset] = content [raw]).
    { apply content_one. rewrite visible_TrimRight. assumption. }
    repeat match goal with
    | |- context [if ?b then _ else _] => destruct b
    end;
      (split;
       [ rewrite ?content_app, ?content_blank, ?app_nil_r, Hc; reflexivity
       | repeat (apply Forall_app; split); assumption ]).
Qed.

Lemma fold_content f segment :
  Forall oneLine segment ->
  forall st output blank,
    Forall oneLine output ->
    let '(_, output', _) := fold_left (lineStep f) segment (st, output, blank) in
    content output' = content (output ++ segment) /\ Forall oneLine output'.
Proof.
  induction 1 as [| raw segment Hraw Hseg IH]; intros st output blank Hout.
  - cbn. rewrite app_nil_r. split; [reflexivity | assumption].
  - cbn [fold_left].
    pose proof (lineStep_content f st blank Hraw Hout) as Hs.
    destruct (lineStep f (st, output, blank) raw) as [[st1 output1] blank1].
    destruct Hs as [Hc Ho].
    specialize (IH st1 output1 blank1 Ho).
    destruct (fold_left (lineStep f) segment (st1, output1, blank1))
      as [[st2 output2] blank2].
    destruct IH as [IHc IHo]. split; [| assumption].
    rewrite IHc, content_app, Hc, <- content_app, <- app_assoc. reflexivity.
Qed.

Lemma content_trimBlankEnd output : content (trimBlankEnd output) = content output.
Proof.
  unfold trimBlankEnd.
  rewrite <- (rev_involutive output) at 2.
  generalize (rev output) as l. clear output.
  induction l as [| x l IH]; [reflexivity |].
  destruct x as [| y x].
  - cbn [rev]. rewrite content_app.
    change (content (@cons (list rune) [] [])) with (@nil text).
    rewrite app_nil_r, <- IH. reflexivity.
  - reflexivity.
Qed.

Lemma oneLine_trimBlankEnd output :
  Forall oneLine output -> Forall oneLine (trimBlankEnd output).
Proof.
  intros H. unfold trimBlankEnd. apply Forall_rev.
  apply Forall_rev in H. revert H. generalize (rev output) as l.
  induction l as [| x l IH]; intros H; [constructor |].
  destruct x as [| y x]; [| assumption].
  apply IH. inversion H; assumption.
Qed.

Lemma content_orBlank output : content (orBlank output) = content output.
Proof. destruct output; reflexivity. Qed.

Lemma oneLine_orBlank output :
  Forall oneLine output -> Forall oneLine (orBlank output).
Proof. destruct output; [repeat constructor | auto]. Qed.

Lemma enterSegment_content f st segment :
  Forall oneLine segment ->
  content (snd (enterSegment f st segment)) = content segment
  /\ Forall oneLine (snd (enterSegment f st segment)).
Proof.
  intros H. destruct H as [| first others Hf Ho]; [split; [reflexivity | constructor] |].
  unfold enterSegment. rewrite (initialIndent_exact _ Hf). cbn [snd group Nat.eqb].
  split.
  - change (?a :: others) with ([a] ++ others).
    rewrite !content_app. f_equal. apply content_one.
    apply visible_dropWhile, is_s_IsSpace.
  - constructor; [apply oneLine_dropWhile |]; assumption.
Qed.

Lemma oneLine_firstn n (l : list text) :
  Forall oneLine l -> Forall oneLine (firstn n l).
Proof.
  intros H. revert n. induction H as [| x l Hx Hl IH]; intros [| n]; cbn;
    constructor; auto.
Qed.

Lemma oneLine_skipn n (l : list text) :
  Forall oneLine l -> Forall oneLine (skipn n l).
Proof.
  intros H. revert n. induction H as [| x l Hx Hl IH]; intros [| n]; cbn;
    try constructor; auto.
Qed.

Lemma slice_split (lines : list text) a b :
  0 <= a -> a <= b ->
  lines = firstn (Z.to_nat a) lines ++ slice lines a b ++ skipn (Z.to_nat b) lines.
Proof.
  intros Ha Hab. unfold slice.
  rewrite <- (firstn_skipn (Z.to_nat a) lines) at 1. f_equal.
  rewrite <- (firstn_skipn (Z.to_nat (b - a)) (skipn (Z.to_nat a) lines)) at 1.
  f_equal. rewrite skipn_skipn. f_equal. lia.
Qed.

Lemma formatSegment_content f st lines a b :
  Forall oneLine lines ->
  content (fst (formatSegment f st lines a b)) = content (slice lines a b)
  /\ Forall oneLine (fst (formatSegment f st lines a b)).
Proof.
  intros H. unfold formatSegment. cbv zeta.
  assert (Hs : Forall oneLine (slice lines a b)).
  { unfold slice. apply oneLine_firstn, oneLine_skipn. assumption. }
  set (segment := match slice lines a b with [] => [[]] | _ :: _ => slice lines a b end).
  assert (Hseg : content segment = content (slice lines a b)
                 /\ Forall oneLine segment).
  { unfold segment. destruct (slice lines a b); [| auto].
    split; [reflexivity | repeat constructor]. }
  destruct Hseg as [Cseg Oseg].
  pose proof (enterSegment_content f (resetState st) Oseg) as [Ce Oe].
  destruct (enterSegment f (resetState st) segment) as [st1 segment1].
  cbn [snd] in Ce, Oe.
  pose proof (@fold_content f segment1 Oe st1 [] true (Forall_nil _)) as Hf.
  destruct (fold_left (lineStep f) segment1 (st1, [], true))
    as [[st2 output] blank].
  destruct Hf as [Cf Of]. cbn [app] in Cf. cbn [fst].
  destruct (b =? Z.of_nat (List.length lines)).
  - rewrite content_orBlank, content_trimBlankEnd. split; [congruence |].
    apply oneLine_orBlank, oneLine_trimBlankEnd. assumption.
  - rewrite content_orBlank. split; [congruence |].
    apply oneLine_orBlank. assumption.
Qed.

Lemma FormatLines_content f st lines :
  Forall oneLine lines ->
  content (fst (FormatLines f st lines)) = content lines
  /\ Forall oneLine (fst (FormatLines f st lines)).
Proof.
  intros H. pose proof (selection_bounds f lines) as Hb.
  unfold FormatLines. destruct (selection f lines) as [a b].
  destruct Hb as (Ha & Hab & Hbn).
  destruct (a =? b); [split; [reflexivity | assumption] |].
  pose proof (formatSegment_content f st a b H) as [Cs Os].
  destruct (formatSegment f st lines a b) as [output st1]. cbn [fst] in *.
  split.
  - rewrite !content_app, Cs, <- !content_app.
    rewrite <- (slice_split lines Ha Hab). reflexivity.
  - apply Forall_app. split; [apply oneLine_firstn; assumption |].
    apply Forall_app. split; [assumption | apply oneLine_skipn; assumption].
Qed.

(** C1 (amended).  Formatting changes white space only.  On lines
    without a line feed (the lines [readLines] hands over), the result of
    [FormatLines] holds the same non-blank lines in the same order, each
    with the same characters that are no white space; so does a second
    pass over the result, from any state.  The normalizer keeps the
    characters of a part that are no white space, and so does a second
    application of it. *)
Theorem formatting_changes_only_white_space (f : Config) (st : State)
  (lines : list text) :
  Forall oneLine lines ->
  let out := fst (FormatLines f st lines) in
  content out = content lines
  /\ Forall oneLine out
  /\ (forall st', content (fst (FormatLines f st' out)) = content out)
  /\ (forall part, oneLine part ->
        visible (normalize f part) = visible part
        /\ visible (normalize f (normalize f part)) = visible (normalize f part)).
Proof.
  intros H. cbv zeta.
  destruct (FormatLines_content f st H) as [C O].
  split; [assumption |]. split; [assumption |]. split.
  - intros st'. apply FormatLines_content. assumption.
  - intros part Hp. destruct (normalize_content f Hp) as [V Op].
    split; [assumption |]. apply normalize_content. assumption.
Qed.

Lemma formatting_changes_only_white_space_witness :
  Forall oneLine (texts ["A =[1;"; "2];"])
  /\ let out := formatted defaultConfig (texts ["A =[1;"; "2];"]) in
     content out = content (texts ["A =[1;"; "2];"])
     /\ Forall oneLine out
     /\ (forall st', content (fst (FormatLines defaultConfig st' out)) = content out)
     /\ (forall part, oneLine part ->
           visible (normalize defaultConfig part) = visible part
           /\ visible (normalize defaultConfig (normalize defaultConfig part))
              = visible (normalize defaultConfig part)).
Proof.
  assert (H : Forall oneLine (texts ["A =[1;"; "2];"])).
  { repeat constructor. }
  split; [exact H |].
  apply (@formatting_changes_only_white_space defaultConfig zeroState
           (texts ["A =[1;"; "2];"]) H).
Defined.

(* ------------------------------------------------------------------ *)
(** ** C2: lines outside the range *)

(** A range that holds the one line [  x], indented by two spaces with an
    indent width of four: the lines around it are kept, and the line
    itself comes out at column 0, not at its original indent; with six
    spaces it comes out at four. *)
Lemma initial_indent_refuted :
  formatted (rangeConfig 2 2) (texts ["a"; "  x"; "b"]) = texts ["a"; "x"; "b"]
  /\ formatted (rangeConfig 2 2) (texts ["a"; "      x"; "b"])
     = texts ["a"; "    x"; "b"]
  /\ fst (enterSegment (rangeConfig 2 2) zeroState [str "  x"])
     = set_ilvl zeroState 0.
Proof. vm_compute. repeat split; reflexivity. Qed.

(** C2 (amended).  The selection [a, b) lies inside the file; an empty
    selection returns the input, and otherwise the result is the first
    [a] lines of the input, the formatted segment, and the input from
    line [b] on.  The run enters the segment at the level given by the
    byte length of the first line's leading white space divided by the
    indent width, rounded towards zero, and with that white space
    removed. *)
Theorem range_isolation (f : Config) (st : State) (lines : list text) :
  let '(a, b) := selection f lines in
  let result := fst (FormatLines f st lines) in
  (0 <= a /\ a <= b /\ b <= Z.of_nat (List.length lines))
  /\ (a = b -> result = lines)
  /\ (a < b ->
      result = firstn (Z.to_nat a) lines
                 ++ fst (formatSegment f st lines a b)
                 ++ skipn (Z.to_nat b) lines)
  /\ (forall first others,
        forallb is_dot first = true ->
        enterSegment f (resetState st) (first :: others)
        = (set_ilvl (resetState st)
             (Z.quot (len (takeWhile is_s first)) (iwidth f)),
           dropWhile is_s first :: others)).
Proof.
  pose proof (selection_bounds f lines) as Hb.
  unfold FormatLines.
  destruct (selection f lines) as [a b]. cbv zeta.
  split; [assumption |]. split; [| split].
  - intros ->. rewrite Z.eqb_refl. reflexivity.
  - intros Hlt. destruct (Z.eqb_spec a b); [lia |].
    destruct (formatSegment f st lines a b). reflexivity.
  - intros first others H. apply enterSegment_exact. assumption.
Qed.

(* ------------------------------------------------------------------ *)
(** ** C3: where the separating blank lines go *)

(** The claim read on a four-line block: the opener [if a] has delta +1
    and the closer [end] delta -1, yet the output line after the opener
    and before the closer is the body, not a blank; the one blank line
    comes after the closer. *)
Lemma blank_after_opener_refuted :
  let lines := texts ["if a"; "b"; "end"; "c"] in
  let out := formatted defaultConfig lines in
  deltas defaultConfig (zeroState, [], true) lines
    = [Some 1; Some 0; Some (-1); Some 0]
  /\ out = texts ["if a"; "    b"; "end"; ""; "c"]
  /\ nth 1 out [] <> []
  /\ nth 3 out [] = [].
Proof. vm_compute. repeat split; discriminate. Qed.

(** C3 (amended).  With separate-blocks enabled, one loop iteration on a
    non-blank line appends: a blank line and then the line when the delta
    is positive, unless the blank flag is set or the line-comment counter
    is not zero (then the line only); the line and then a blank line when
    the delta is negative, setting the blank flag; the line only when the
    delta is zero. *)
Theorem separation_placement (f : Config) (st : State) (output : list text)
  (blank : bool) (rawLine : text) :
  separateBlock f = true ->
  len (TrimSpace rawLine) <> 0 ->
  let '(offset, line, st1) := formatLine f st rawLine in
  let '(_, output', blank') := lineStep f (st, output, blank) rawLine in
  let emitted := TrimRight line cutset in
  (0 < offset ->
     output' = (if negb blank && (isLineComment st1 =? 0)
                then output ++ [[]; emitted] else output ++ [emitted])
     /\ blank' = false)
  /\ (offset < 0 -> output' = output ++ [emitted; []] /\ blank' = true)
  /\ (offset = 0 -> output' = output ++ [emitted] /\ blank' = false).
Proof.
  intros Hsep Hnb. unfold lineStep.
  destruct (Z.eqb_spec (len (TrimSpace rawLine)) 0) as [E | _]; [contradiction |].
  destruct (formatLine f st rawLine) as [[offset line] st1].
  rewrite Hsep. cbn [andb].
  assert (Hlc : forall v,
             isLineComment (if ilvl (set_ilvl st1 v) <? 0
                            then set_ilvl (set_ilvl st1 v) 0
                            else set_ilvl st1 v) = isLineComment st1).
  { intros v. destruct (ilvl (set_ilvl st1 v) <? 0); reflexivity. }
  rewrite Hlc.
  destruct (Z.ltb_spec 0 offset) as [Hpos | Hnpos];
    destruct (Z.ltb_spec offset 0) as [Hneg | Hnneg]; try lia.
  - split; [intros _ | split; intros; lia].
    cbn [andb].
    destruct (negb blank && (isLineComment st1 =? 0)); cbn;
      rewrite <- ?app_assoc; split; reflexivity.
  - split; [intros; lia | split; [intros _ | intros; lia]].
    cbn [andb]. rewrite <- app_assoc. split; reflexivity.
  - split; [intros; lia | split; [intros; lia | intros _]].
    cbn [andb]. split; reflexivity.
Qed.

Lemma separation_placement_witness :
  separateBlock defaultConfig = true /\
  len (TrimSpace (str "end")) <> 0 /\
  let st := set_istep (set_ilvl zeroState 1) [1] in
  let output := texts ["if a"; "    b"] in
  let '(offset, line, st1) := formatLine defaultConfig st (str "end") in
  let '(_, output', blank') :=
    lineStep defaultConfig (st, output, false) (str "end") in
  let emitted := TrimRight line cutset in
  (0 < offset ->
     output' = (if negb false && (isLineComment st1 =? 0)
                then output ++ [[]; emitted] else output ++ [emitted])
     /\ blank' = false)
  /\ (offset < 0 -> output' = output ++ [emitted; []] /\ blank' = true)
  /\ (offset = 0 -> output' = output ++ [emitted] /\ blank' = false).
Proof.
  split; [reflexivity |]. split; [discriminate |].
  apply (separation_placement defaultConfig
           (set_istep (set_ilvl zeroState 1) [1])
           (texts ["if a"; "    b"]) false (str "end")).
  - reflexivity.
  - discriminate.
Defined.

(** The blank flag tells the truth about the output: when it is set the
    output is empty or ends in a blank line, so a blank is never doubled. *)
Lemma blank_flag_invariant (f : Config) (segment : list text) :
  forall st output blank,
    (blank = true -> output = [] \/ exists pre, output = pre ++ [[]]) ->
    let '(_, output', blank') := fold_left (lineStep f) segment (st, output, blank) in
    blank' = true -> output' = [] \/ exists pre, output' = pre ++ [[]].
Proof.
  induction segment as [| raw segment IH]; intros st output blank Hinv.
  - cbn. assumption.
  - cbn [fold_left].
    destruct (lineStep f (st, output, blank) raw) as [[st1 output1] blank1] eqn:E.
    apply IH. unfold lineStep in E.
    destruct (len (TrimSpace raw) =? 0).
    + destruct blank; cbn in E; injection E as <- <- <-.
      * assumption.
      * intros _. right. exists output. reflexivity.
    + destruct (formatLine f st raw) as [[offset line] st2].
      match type of E with
      | (if ?c then _ else _) = _ => destruct c
      end; injection E as <- <- <-.
      * intros _. right. eexists. reflexivity.
      * discriminate.
Qed.

(* ------------------------------------------------------------------ *)
(** ** C4: which quoted string wins *)

(** Both patterns match [twoStrings]; the single-quoted match starts
    first and is the shorter literal, and the extractor returns the
    double-quoted one.  On [nestedQuotes] the extractor picks the
    double-quoted word inside the second single-quoted literal, and the
    run rewrites the inside of that literal. *)
Lemma shorter_string_refuted :
  (exists c c2,
      FindStringSubmatch pString twoStrings = Some c
      /\ FindStringSubmatch pStringDQ twoStrings = Some c2
      /\ len (group c 1) < len (group c2 1)
      /\ len (group c 2) < len (group c2 2)
      /\ snd (extractStringOrComment 0 twoStrings)
         = Some (group c2 1, group c2 2, group c2 4)
      /\ group c 2 = str "'a'"
      /\ group c2 2 = dq ++ str "bcdef" ++ dq)
  /\ snd (extractStringOrComment 0 nestedQuotes)
     = Some (str "x = 'a' + ' ", dq ++ str "bcdef" ++ dq, str " y=1'")
  /\ formatted defaultConfig [nestedQuotes]
     = [str "x = 'a' + ' " ++ dq ++ str "bcdef" ++ dq ++ str " y = 1'"].
Proof.
  split.
  - destruct (FindStringSubmatch pString twoStrings) as [c |] eqn:E1;
      [| vm_compute in E1; discriminate].
    destruct (FindStringSubmatch pStringDQ twoStrings) as [c2 |] eqn:E2;
      [| vm_compute in E2; discriminate].
    exists c, c2. vm_compute in E1, E2.
    injection E1 as <-. injection E2 as <-.
    vm_compute. repeat split; reflexivity.
  - vm_compute. split; reflexivity.
Qed.

(** C4 (amended).  When both quoted-string patterns match, the extractor
    returns the double-quoted match if its literal is strictly longer (in
    bytes) than the single-quoted literal, and the single-quoted match
    otherwise: the longer literal wins, a tie goes to the single quote. *)
Theorem longer_string_wins (ic : Z) (part : text) (c c2 : caps) :
  FindStringSubmatch pString part = Some c ->
  FindStringSubmatch pStringDQ part = Some c2 ->
  extractStringOrComment ic part
  = (ic, Some (if len (group c 2) <? len (group c2 2)
               then (group c2 1, group c2 2, group c2 4)
               else (group c 1, group c 2, group c 4)))
  /\ (forall l m r, snd (extractStringOrComment ic part) = Some (l, m, r) ->
        len m = Z.max (len (group c 2)) (len (group c2 2))).
Proof.
  intros H1 H2. unfold extractStringOrComment. rewrite H1, H2.
  destruct (Z.ltb_spec (len (group c 2)) (len (group c2 2))) as [Hlt | Hge].
  - split; [reflexivity |]. cbn. intros l m r E. injection E as _ <- _. lia.
  - split; [reflexivity |]. cbn. intros l m r E. injection E as _ <- _. lia.
Qed.

Lemma longer_string_wins_witness :
  exists c c2,
    FindStringSubmatch pString twoStrings = Some c /\
    FindStringSubmatch pStringDQ twoStrings = Some c2 /\
    (extractStringOrComment 0 twoStrings
     = (0, Some (if len (group c 2) <? len (group c2 2)
                 then (group c2 1, group c2 2, group c2 4)
                 else (group c 1, group c 2, group c 4)))
     /\ (forall l m r,
           snd (extractStringOrComment 0 twoStrings) = Some (l, m, r) ->
           len m = Z.max (len (group c 2)) (len (group c2 2)))).
Proof.
  eexists. eexists.
  split; [vm_compute; reflexivity |].
  split; [vm_compute; reflexivity |].
  apply (longer_string_wins 0 twoStrings); vm_compute; reflexivity.
Defined.

(* ------------------------------------------------------------------ *)
(** ** C5: a closer without an opener *)

Local Close Scope Z_scope.

(** A line of the [end] family begins with its keyword: it matches none
    of the patterns that [formatLine] tries before the closer pattern. *)
Section EndLines.

Variables (line : text) (m : caps).

Hypothesis Hend : FindStringSubmatch ctrlEnd line = Some m.

Ltac clash_with H :=
  let r := fresh "r" in
  pose proof Hend as Hr; apply head_ctrlEnd in Hr; destruct Hr as [r Hr];
  let kw := fresh "kw" in
  let r' := fresh "r'" in
  let Hin := fresh "Hin" in
  let Hh := fresh "Hh" in
  destruct H as (kw & r' & Hin & Hh);
  rewrite Hr in Hh; cbn in Hin;
  repeat match goal with Hk : _ \/ _ |- _ => destruct Hk as [Hk | Hk] end;
  try contradiction; subst; cbn in Hh; congruence.

Lemma end_not_comment : MatchString lineComment line = false.
Proof.
  unfold MatchString.
  destruct (FindStringSubmatch lineComment line) eqn:E; [exfalso | reflexivity].
  unfold lineComment in E. cbn [seqs] in E. apply head_percent in E.
  destruct E as [r' Hh]. pose proof Hend as Hr; apply head_ctrlEnd in Hr; destruct Hr as [r Hr].
  rewrite Hr in Hh. cbn in Hh. congruence.
Qed.

Lemma end_not_blockCommentOpen : MatchString blockCommentOpen line = false.
Proof.
  unfold MatchString.
  destruct (FindStringSubmatch blockCommentOpen line) eqn:E;
    [exfalso | reflexivity].
  unfold blockCommentOpen in E. rewrite word_cons in E. cbn [seqs] in E.
  apply find_sound in E. destruct E as (s1 & s2 & -> & H).
  invert_sem. subst.
  repeat match goal with Hw : sem ws _ _ _ _ _ |- _ =>
    apply sem_ws_spaces in Hw end.
  match goal with Hk : sem (Lit _) _ _ _ _ _ |- _ =>
    unfold Lit in Hk; cbn [sem] in Hk;
    let y := fresh "y" in let E := fresh "E" in
    destruct Hk as (y & -> & E & _); apply N.eqb_eq in E; subst y end.
  pose proof Hend as Hr; apply head_ctrlEnd in Hr; destruct Hr as [r Hr].
  rewrite <- !app_assoc in Hr.
  rewrite lineHead_after_ws in Hr; [| assumption | reflexivity].
  cbn in Hr. congruence.
Qed.

Lemma end_not_blockCommentClose : MatchString blockCommentClose line = false.
Proof.
  unfold MatchString.
  destruct (FindStringSubmatch blockCommentClose line) eqn:E;
    [exfalso | reflexivity].
  unfold blockCommentClose in E. rewrite word_cons in E. cbn [seqs] in E.
  apply find_sound in E. destruct E as (s1 & s2 & -> & H).
  invert_sem. subst.
  repeat match goal with Hw : sem ws _ _ _ _ _ |- _ =>
    apply sem_ws_spaces in Hw end.
  match goal with Hk : sem (Lit _) _ _ _ _ _ |- _ =>
    unfold Lit in Hk; cbn [sem] in Hk;
    let y := fresh "y" in let E := fresh "E" in
    destruct Hk as (y & -> & E & _); apply N.eqb_eq in E; subst y end.
  pose proof Hend as Hr; apply head_ctrlEnd in Hr; destruct Hr as [r Hr].
  rewrite <- !app_assoc in Hr.
  rewrite lineHead_after_ws in Hr; [| assumption | reflexivity].
  cbn in Hr. congruence.
Qed.

Lemma end_not_ctrlIgnore : MatchString ctrlIgnore line = false.
Proof.
  unfold MatchString.
  destruct (FindStringSubmatch ctrlIgnore line) eqn:E; [exfalso | reflexivity].
  unfold ctrlIgnore in E. cbn [seqs] in E.
  apply keyword_line in E; [| reflexivity]. clash_with E.
Qed.

Lemma end_not_ctrl1Line : FindStringSubmatch ctrl1Line line = None.
Proof.
  destruct (FindStringSubmatch ctrl1Line line) eqn:E; [exfalso | reflexivity].
  unfold ctrl1Line in E. cbn [seqs] in E.
  apply keyword_line in E; [| reflexivity]. clash_with E.
Qed.

Lemma end_not_fcnStart : FindStringSubmatch fcnStart line = None.
Proof.
  destruct (FindStringSubmatch fcnStart line) eqn:E; [exfalso | reflexivity].
  unfold fcnStart in E. cbn [seqs] in E.
  apply keyword_line in E; [| reflexivity]. clash_with E.
Qed.

Lemma end_not_ctrlStart : FindStringSubmatch ctrlStart line = None.
Proof.
  destruct (FindStringSubmatch ctrlStart line) eqn:E; [exfalso | reflexivity].
  unfold ctrlStart in E. cbn [seqs] in E.
  apply keyword_line in E; [| reflexivity]. clash_with E.
Qed.

Lemma end_not_ctrlStartSwitch : FindStringSubmatch ctrlStartSwitch line = None.
Proof.
  destruct (FindStringSubmatch ctrlStartSwitch line) eqn:E;
    [exfalso | reflexivity].
  unfold ctrlStartSwitch in E. cbn [seqs] in E.
  change (word "switch") with (words ["switch"%string]) in E.
  apply keyword_line in E; [| reflexivity]. clash_with E.
Qed.

Lemma end_not_ctrlCont : FindStringSubmatch ctrlCont line = None.
Proof.
  destruct (FindStringSubmatch ctrlCont line) eqn:E; [exfalso | reflexivity].
  unfold ctrlCont in E. cbn [seqs] in E.
  apply keyword_line in E; [| reflexivity]. clash_with E.
Qed.

End EndLines.

Local Open Scope Z_scope.

Lemma end_nonblank line m :
  FindStringSubmatch ctrlEnd line = Some m -> len (TrimSpace line) <> 0.
Proof.
  intros H. apply head_ctrlEnd in H. destruct H as [r H]. cbn in H.
  eapply TrimSpace_nonblank; [eassumption | reflexivity].
Qed.



(* ------------------------------------------------------------------ *)
(** ** C6: a function opener and its end *)

(** C6.  In classic mode the opener [function f] returns offset 0 and
    pushes the entry 1; the matching [end] pops that entry and returns
    offset -1, with an extra indent of one step to the left.  At level 0
    the clamp of the level hides it.  A function that starts one step in
    loses that step at its end; in a class file the [end] of a method is
    emitted one step to the left of its [function] line, and the openers
    [classdef] and [function], which returned 0, each leave an entry 1
    for a later [end]. *)
Theorem function_end_not_symmetric :
  let '(o1, _, st1) := formatLine classicConfig (set_ilvl zeroState 1)
                                   (str "function f") in
  let '(o2, out2, _) := formatLine classicConfig st1 (str "end") in
  o1 = 0 /\ fstep st1 = [1] /\ o2 = -1 /\ out2 = str "end "
  /\ formatted classicConfig
       (texts ["    function f"; "    x"; "    end"; "    y"])
     = texts ["    function f"; "    x"; "end"; ""; "y"]
  /\ formatted classicConfig
       (texts ["classdef A"; "methods"; "function f"; "x"; "end"; "end"; "end"])
     = texts ["classdef A"; ""; "methods"; "    function f"; "    x"; "end";
              ""; "end"; ""; "end"].
Proof. vm_compute. repeat split; reflexivity. Qed.

(* ------------------------------------------------------------------ *)
(** ** C7: the indent of a bracket region *)

Lemma search_at_start r s m :
  exec r 0 s [] accept = Some m -> FindStringSubmatch r s = Some m.
Proof.
  intros H. unfold FindStringSubmatch. destruct s; cbn [search]; rewrite H;
    reflexivity.
Qed.

Lemma Count_zero_notin (s : text) (c : rune) :
  Count s c = 0 -> forallb (fun x => negb (N.eqb c x)) s = true.
Proof.
  unfold Count. induction s as [| x s IH]; [reflexivity |]. cbn.
  destruct (N.eqb c x); cbn; [lia | assumption].
Qed.

Lemma forallb_app_r (p : rune -> bool) u v :
  forallb p (u ++ v) = true -> forallb p v = true.
Proof. rewrite forallb_app. intros H. apply andb_true_iff in H. tauto. Qed.

Lemma firstn_length_app (a b : text) n :
  n = List.length a -> firstn n (a ++ b) = a.
Proof.
  intros ->. rewrite firstn_app, Nat.sub_diag, firstn_all. cbn.
  apply app_nil_r.
Qed.

Lemma bracketPattern_exact (open : rune) (lead body post : text) :
  forallb is_s lead = true ->
  match body with x :: _ => is_s x = false | [] => True end ->
  forallb is_dot body = true -> forallb is_dot post = true ->
  is_s open = false -> is_dot open = true ->
  Count post open = 0 ->
  exists m,
    FindStringSubmatch (bracketPattern open) (lead ++ body ++ open :: post)
    = Some m
    /\ group m 2 = body.
Proof.
  intros Hlead Hbody Hdb Hdp Hso Hdo Hcount.
  apply Count_zero_notin in Hcount.
  unfold bracketPattern. cbn [seqs].
  destruct body as [| x body]; cbn [app].
  - (* the bracket follows the leading white space *)
    eexists. split.
    + apply search_at_start. cbn [exec]. unfold ws at 1, s_.
      apply star_cls_greedy_max.
      rewrite (takeWhile_app_stop is_s lead open post Hlead Hso).
      rewrite (dropWhile_app_stop is_s lead open post Hlead Hso).
      unfold Opt. cbn [exec].
      unfold S_. rewrite exec_Cls_cons. unfold is_S. rewrite Hso. cbn [negb].
      unfold any at 1, dot.
      rewrite star_cls_none.
      * rewrite N.eqb_refl. unfold any, dot. apply star_cls_greedy_max.
        rewrite (takeWhile_all _ _ Hdp), (dropWhile_all _ _ Hdp).
        cbn [exec accept]. reflexivity.
      * intros u v E _. cbn beta.
        destruct v as [| y v]; [reflexivity |].
        rewrite E in Hcount. apply forallb_app_r in Hcount. cbn in Hcount.
        destruct (N.eqb open y); [discriminate | reflexivity].
    + cbn [group Nat.eqb]. rewrite Nat.sub_diag. reflexivity.
  - (* some text stands between the white space and the bracket *)
    cbn in Hdb. apply andb_true_iff in Hdb. destruct Hdb as [Hdx Hdb].
    eexists. split.
    + apply search_at_start. cbn [exec]. unfold ws at 1, s_.
      apply star_cls_greedy_max.
      cbn [app].
      rewrite (takeWhile_app_stop is_s lead x (body ++ open :: post) Hlead Hbody).
      rewrite (dropWhile_app_stop is_s lead x (body ++ open :: post) Hlead Hbody).
      unfold Opt. cbn [exec].
      unfold S_. rewrite exec_Cls_cons. unfold is_S. rewrite Hbody. cbn [negb].
      unfold any at 1, dot.
      erewrite star_cls_greedy_last with (s1 := body) (s2 := open :: post);
        [reflexivity | assumption | |].
      * cbn beta. rewrite N.eqb_refl. unfold any, dot.
        apply star_cls_greedy_max.
        rewrite (takeWhile_all _ _ Hdp), (dropWhile_all _ _ Hdp).
        cbn [exec accept]. reflexivity.
      * intros u v Hu E _. cbn beta.
        destruct u as [| y u]; [congruence |]. cbn [app] in E.
        injection E as _ E.
        destruct v as [| z v]; [reflexivity |].
        rewrite E in Hcount. apply forallb_app_r in Hcount. cbn in Hcount.
        destruct (N.eqb open z); [discriminate | reflexivity].
    + cbn [group Nat.eqb].
      change (x :: body ++ open :: post) with ((x :: body) ++ open :: post).
      apply firstn_length_app. cbn [List.length]. lia.
Qed.

Lemma cellIndent_spec f ic line (open close : rune) indent0 :
  is_s open = false -> is_dot open = true ->
  let '(count, ind, _) := cellIndent f ic line open close indent0 in
  count = netBrackets line open close
  /\ (count < 0 -> ind = 0)
  /\ (count = 0 -> ind = indent0)
  /\ (0 < count ->
      forall lead body post,
        splitsAt open (cleaned line) lead body post ->
        ind = if matrixIndent f then len body + 1 else iwidth f).
Proof.
  intros Hso Hdo. unfold cellIndent, netBrackets.
  rewrite <- (clean_snd ic line).
  destruct (cleanLineFromStringsAndComments ic line) as [ic1 cl].
  cbn [snd]. set (count := Count cl open - Count cl close).
  split; [reflexivity |].
  destruct (Z.ltb_spec 0 count) as [Hpos | Hnpos];
    destruct (Z.ltb_spec count 0) as [Hneg | Hnneg]; try lia.
  split; [lia |]. split; [lia |]. intros _ lead body post Hsp.
    destruct Hsp as (E & Hl & Hb & Hdb & Hdp & Hc).
    destruct (@bracketPattern_exact open lead body post Hl Hb Hdb Hdp Hso Hdo Hc)
      as (m & Hm & Hg).
    rewrite E, Hm, Hg. reflexivity.
Qed.

(** On [A =  [1;] the last character before the bracket that is no white
    space is [=], at index 2: the column after it, plus one, is 4, or 5
    when columns count from one.  The tracked indent is 6, the byte
    length of [A =  ] plus one, and the next line is emitted at 6 while
    the normalised first line has its [1] at index 5.  Inside an [if] the
    continuation is emitted at the structural indent plus the tracked
    one, and a comment line inside a region is emitted without it. *)
Lemma aligned_column_refuted :
  let line := str "A =  [1;" in
  netBrackets line 91%N 93%N = 1
  /\ len (dropWhileEnd is_s (takeWhile (fun r => negb (r =? 91)%N) line)) = 3
  /\ matrix (snd (formatLine defaultConfig zeroState line)) = 6
  /\ formatted defaultConfig (texts ["A =  [1;"; "2];"])
     = texts ["A = [1;"; "      2];"]
  /\ formatted defaultConfig (texts ["if a"; "A = [1;"; "2];"; "end"])
     = texts ["if a"; "    A = [1;"; "         2];"; "end"]
  /\ formatted defaultConfig (texts ["A = [1;"; "% c"; "2];"])
     = texts ["A = [1;"; "% c"; "     2];"].
Proof. vm_compute. repeat split; reflexivity. Qed.

(** C7 (amended).  For a line that [formatLine] formats (the ignore
    counter is spent, the line is no comment, block-comment or
    import/clear line), with [net] the count of opening minus closing
    square brackets of the cleaned line: when [net] is not zero or a
    region is open, the offset is 0 and the line is emitted at the
    structural indent plus the indent tracked before the line, followed
    by the normalised line; a negative [net] closes the region, a zero
    [net] keeps it, and a positive [net] sets the tracked indent, in
    aligned mode to one plus the byte length of the cleaned line from its
    first character that is no white space up to its last opening
    bracket, in simple mode to one indent step.  The same holds of curly
    brackets when no square-bracket region is involved. *)
Theorem bracket_region (f : Config) (st : State) (line : text) :
  formattedLine st line ->
  regionResult f st line (formatLine f st line).
Proof.
  intros (Hig & Hbc & Hlc & H1 & H2 & H3 & H4).
  rewrite formatLine_eq.
  destruct (Z.ltb_spec 0 (ignoreLines st)) as [| _]; [lia |].
  pose proof (trackState_frame st line) as Hfr. cbv zeta in Hfr.
  pose proof (@trackState_plain st line H1 H2 H3 Hlc Hbc) as Hpl.
  cbv zeta in Hpl.
  set (st1 := trackState st line) in *.
  destruct Hfr as (F1 & F2 & F3 & F4 & F5 & F6). destruct Hpl as [P1 P2].
  unfold dispatch.
  destruct (Z.ltb_spec 0 (isBlockComment st1)) as [| _]; [lia |].
  destruct (Z.eqb_spec (isLineComment st1) 2) as [| _]; [lia |].
  rewrite H4.
  (* the matrix step *)
  unfold multilineMatrix.
  pose proof (@cellIndent_spec f (isComment st1) line 91%N 93%N (matrix st1)
                eq_refl eq_refl) as Sm.
  destruct (cellIndent f (isComment st1) line 91%N 93%N (matrix st1))
    as [[diff ind] ic].
  destruct Sm as (-> & Sneg & Szero & Spos).
  rewrite F4 in *.
  destruct (Z.eqb_spec (netBrackets line 91%N 93%N) 0) as [Enet | Enet];
    destruct (Z.eqb_spec (matrix st) 0) as [Emat | Emat]; cbn [negb orb];
    try solve
      [ pose proof (fmt_fst f (set_matrix (set_isComment st1 ic) ind) line) as Ho;
        pose proof (fmt_snd f (set_matrix (set_isComment st1 ic) ind) line) as Hs;
        destruct (fmt f (set_matrix (set_isComment st1 ic) ind) line) as [o st4];
        cbn [fst snd] in Ho, Hs; subst o st4; unfold regionResult; cbv zeta;
        cbn [matrix set_isComment set_matrix];
        (split; [intros _; split; reflexivity |]);
        (split; [assumption |]);
        (split; [intros E0; rewrite (Szero E0); reflexivity |]);
        (split; [assumption |]); intros E0 E1; lia ].
  (* the cell step *)
  assert (Hind : ind = matrix st) by (apply Szero; assumption).
  unfold cellArray.
  cbn [isComment cell set_matrix set_isComment].
  pose proof (@cellIndent_spec f ic line 123%N 125%N (cell st1)
                eq_refl eq_refl) as Sc.
  destruct (cellIndent f ic line 123%N 125%N (cell st1)) as [[diffc indc] icc].
  destruct Sc as (-> & Scneg & Sczero & Scpos).
  rewrite F5 in *.
  destruct (Z.eqb_spec (netBrackets line 123%N 125%N) 0) as [Ecell | Ecell];
    destruct (Z.eqb_spec (cell st) 0) as [Ecl | Ecl]; cbn [negb orb];
    try solve
      [ match goal with
        | |- context [fmt f ?s line] =>
            pose proof (fmt_fst f s line) as Ho;
            pose proof (fmt_snd f s line) as Hs;
            destruct (fmt f s line) as [o st4]
        end;
        cbn [fst snd] in Ho, Hs; subst o st4; unfold regionResult; cbv zeta;
        cbn [matrix cell set_isComment set_matrix set_cell];
        (split; [intros [? | ?]; contradiction |]);
        (split; [intros; lia |]); (split; [intros _; assumption |]);
        (split; [intros; lia |]); intros _ _;
        (split; [intros _; split; reflexivity |]);
        (split; assumption) ].
  (* neither region is concerned: whatever the keyword tests return *)
  assert (Hrest : forall r : Z * text * State,
             matrix (snd r) = matrix st -> regionResult f st line r).
  { intros [[offset out] st'] Hr. cbn [snd] in Hr. unfold regionResult.
    cbv zeta.
    split; [intros [? | ?]; contradiction |].
    split; [intros; lia |]. split; [intros _; assumption |].
    split; [intros; lia |]. intros _ _.
    split; [intros [? | ?]; contradiction |]. split; intros; lia. }
  apply Hrest.
  repeat match goal with
  | |- context [match FindStringSubmatch ?p line with _ => _ end] =>
      destruct (FindStringSubmatch p line)
  | |- context [fmt f ?s ?x] =>
      let Hs := fresh "Hs" in
      pose proof (fmt_snd f s x) as Hs;
      destruct (fmt f s x); cbn [snd] in Hs; subst
  | |- context [if ?b then _ else _] => destruct b
  end; cbn; congruence.
Qed.

(** The line of the counterexample: it splits into no leading white
    space, the body [A =  ] of five bytes, the bracket and [1;]. *)
Lemma bracket_region_witness :
  formattedLine zeroState (str "A =  [1;")
  /\ splitsAt 91%N (cleaned (str "A =  [1;")) [] (str "A =  ") (str "1;")
  /\ regionResult defaultConfig zeroState (str "A =  [1;")
       (formatLine defaultConfig zeroState (str "A =  [1;")).
Proof.
  assert (H : formattedLine zeroState (str "A =  [1;")).
  { unfold formattedLine. cbn [ignoreLines isBlockComment isLineComment zeroState].
    repeat split; try lia; vm_compute; reflexivity. }
  split; [exact H |].
  split; [vm_compute; repeat split; reflexivity |].
  apply (@bracket_region defaultConfig zeroState (str "A =  [1;") H).
Defined.

(* ------------------------------------------------------------------ *)
(** ** C8: the ignore directive *)

(** C8.  The directive pattern asks for white space after the word
    [ignore]: a comment that ends in [formatter ignore] does not match,
    the counter stays 0 and the next line is formatted.  With a count, or
    with a space after the word, the next line is kept. *)
Theorem bare_ignore_directive_not_seen :
  FindStringSubmatch ignoreCommand (str "% formatter ignore") = None
  /\ ignoreLines (snd (formatLine defaultConfig zeroState
                         (str "% formatter ignore"))) = 0
  /\ formatted defaultConfig (texts ["% formatter ignore"; "x=1"])
     = texts ["% formatter ignore"; "x = 1"]
  /\ formatted defaultConfig (texts ["% formatter ignore "; "x=1"])
     = texts ["% formatter ignore"; "x=1"]
  /\ formatted defaultConfig (texts ["% formatter ignore 2"; "x=1"; "y=2"; "z=3"])
     = texts ["% formatter ignore 2"; "x=1"; "y=2"; "z = 3"].
Proof. vm_compute. repeat split; reflexivity. Qed.

(* ------------------------------------------------------------------ *)
(** ** C9: the normalizer terminates *)

Local Close Scope Z_scope.

(** A run emits at most two lines for a line of the segment. *)
Lemma lineStep_length f st output blank raw :
  let '(_, output', _) := lineStep f (st, output, blank) raw in
  (List.length output' <= List.length output + 2)%nat.
Proof.
  unfold lineStep.
  destruct (len (TrimSpace raw) =? 0)%Z.
  - destruct blank; cbn [negb]; rewrite ?length_app; cbn; lia.
  - destruct (formatLine f st raw) as [[offset line] st1]. cbv zeta.
    destruct (Z.ltb_spec 0 offset); destruct (Z.ltb_spec offset 0); try lia;
      rewrite ?andb_false_r; cbn [andb];
      repeat match goal with
      | |- context [if ?b then _ else _] => destruct b
      end; rewrite ?length_app; cbn [List.length]; lia.
Qed.

Lemma fold_length f segment :
  forall st output blank,
    let '(_, output', _) := fold_left (lineStep f) segment (st, output, blank) in
    (List.length output' <= List.length output + 2 * List.length segment)%nat.
Proof.
  induction segment as [| raw segment IH]; intros st output blank.
  - cbn. lia.
  - cbn [fold_left].
    pose proof (lineStep_length f st output blank raw) as Hs.
    destruct (lineStep f (st, output, blank) raw) as [[st1 output1] blank1].
    specialize (IH st1 output1 blank1).
    destruct (fold_left (lineStep f) segment (st1, output1, blank1))
      as [[st2 output2] blank2].
    cbn [List.length]. lia.
Qed.

Lemma trimBlankEnd_length output :
  (List.length (trimBlankEnd output) <= List.length output)%nat.
Proof.
  unfold trimBlankEnd. rewrite length_rev, <- (length_rev output).
  generalize (rev output) as l.
  induction l as [| x l IH]; [cbn; lia |].
  destruct x as [| y x]; cbn [isEmpty List.length] in *; lia.
Qed.

Lemma orBlank_length output :
  (List.length (orBlank output) <= Nat.max 1 (List.length output))%nat.
Proof. destruct output; cbn; lia. Qed.

Lemma enterSegment_length f st segment :
  List.length (snd (enterSegment f st segment)) = List.length segment.
Proof.
  unfold enterSegment. destruct segment as [| first others]; [reflexivity |].
  destruct (FindStringSubmatch initialIndent first); reflexivity.
Qed.

Lemma FormatLines_length f st lines :
  (List.length (fst (FormatLines f st lines)) <= 2 * List.length lines)%nat.
Proof.
  pose proof (selection_bounds f lines) as Hb.
  unfold FormatLines. destruct (selection f lines) as [a b].
  destruct Hb as (Ha & Hab & Hbn).
  destruct (Z.eqb_spec a b) as [E | Hne]; [cbn; lia |].
  unfold formatSegment. cbv zeta.
  assert (Hsl : List.length (slice lines a b) = Z.to_nat (b - a)).
  { unfold slice. rewrite length_firstn, length_skipn. lia. }
  destruct (slice lines a b) as [| x seg] eqn:Es; [cbn in Hsl; lia |].
  pose proof (enterSegment_length f (resetState st) (x :: seg)) as He.
  destruct (enterSegment f (resetState st) (x :: seg)) as [st1 segment1].
  cbn [snd] in He.
  pose proof (fold_length f segment1 st1 [] true) as Hf.
  destruct (fold_left (lineStep f) segment1 (st1, [], true))
    as [[st2 output] blank].
  cbn [List.length] in Hf. cbn [fst].
  rewrite !length_app, length_firstn, length_skipn.
  match goal with
  | |- context [if ?c then _ else _] => destruct c
  end.
  - pose proof (orBlank_length (trimBlankEnd output)).
    pose proof (trimBlankEnd_length output). lia.
  - pose proof (orBlank_length output). lia.
Qed.

(** Each rule, read off the shape of its match: what it hands back for
    the left and for the right is lighter than the part. *)
Section Progress.

Variable f : Config.

Lemma progress_pBlank part :
  MatchString pBlank part = true -> (0 < weight part)%nat.
Proof.
  unfold MatchString. destruct (FindStringSubmatch pBlank part) as [m |] eqn:H;
    [intros _ | discriminate].
  unfold pBlank, ws1 in H. shape_of H. min_lengths.
  cbn [group Nat.eqb];
  unfold weight;
  repeat rewrite ?nonSpaces_app, ?length_app, ?nonSpaces_sepIf;
  change (nonSpaces (str " ")) with 0%nat;
  change (nonSpaces []) with 0%nat;
  cbn [List.length str list_ascii_of_string List.map];
  repeat match goal with
  | |- context [List.length (sepIf ?b)] =>
      let L := fresh "L" in
      pose proof (length_sepIf b) as L;
      generalize dependent (List.length (sepIf b)); intros
  end. lia.
Qed.

Lemma progress_pString part m :
  FindStringSubmatch pString part = Some m ->
  (weight (group m 1) < weight part /\ weight (group m 4) < weight part)%nat.
Proof.
  intros H. unfold pString in H. shape_of H. other_groups.
  min_lengths. split; weigh.
Qed.

Lemma progress_pStringDQ part m :
  FindStringSubmatch pStringDQ part = Some m ->
  (weight (group m 1) < weight part /\ weight (group m 4) < weight part)%nat.
Proof.
  intros H. unfold pStringDQ in H. shape_of H. other_groups.
  min_lengths. split; weigh.
Qed.

Lemma progress_pComment part m :
  FindStringSubmatch pComment part = Some m ->
  (weight (group m 1 ++ str " ") < weight part)%nat.
Proof.
  intros H. unfold pComment in H. shape_of H. tok_facts. min_lengths. weigh.
Qed.

Lemma progress_strings ic part ic' l mid r :
  extractStringOrComment ic part = (ic', Some (l, mid, r)) ->
  (weight l < weight part /\ weight r < weight part)%nat.
Proof.
  unfold extractStringOrComment.
  destruct (FindStringSubmatch pString part) as [c |] eqn:E1;
    destruct (FindStringSubmatch pStringDQ part) as [c2 |] eqn:E2.
  - destruct (len (group c 2) <? len (group c2 2))%Z;
      intros H; injection H as _ <- _ <-;
      [apply progress_pStringDQ | apply progress_pString]; assumption.
  - intros H; injection H as _ <- _ <-. apply progress_pString; assumption.
  - intros H; injection H as _ <- _ <-. apply progress_pStringDQ; assumption.
  - destruct (FindStringSubmatch pComment part) as [c |] eqn:E3;
      [| discriminate].
    intros H; injection H as _ <- _ <-. split.
    + apply progress_pComment; assumption.
    + apply progress_pComment in E3. unfold weight in *. cbn in *.
      rewrite ?nonSpaces_app, ?length_app in E3. cbn. lia.
Qed.

Lemma progress_pNumSci part m :
  FindStringSubmatch pNumSci part = Some m ->
  (weight (group m 1 ++ group m 2) < weight part
   /\ weight (group m 4 ++ group m 5) < weight part)%nat.
Proof. intros H. unfold pNumSci in H. rule H. Qed.

Lemma progress_pNumRational part m :
  FindStringSubmatch pNumRational part = Some m ->
  (weight (group m 1 ++ group m 2) < weight part
   /\ weight (group m 4 ++ group m 5) < weight part)%nat.
Proof. intros H. unfold pNumRational in H. rule H. Qed.

Lemma progress_pIncrement part m :
  FindStringSubmatch pIncrement part = Some m ->
  (weight (group m 1) < weight part /\ weight (group m 4) < weight part)%nat.
Proof. intros H. unfold pIncrement in H. rule H. Qed.

Lemma progress_pSign part m :
  FindStringSubmatch pSign part = Some m ->
  (weight (group m 1) < weight part /\ weight (group m 3) < weight part)%nat.
Proof. intros H. unfold pSign in H. rule H. Qed.

Lemma progress_pColon part m :
  FindStringSubmatch pColon part = Some m ->
  (weight (group m 1) < weight part /\ weight (group m 3) < weight part)%nat.
Proof. intros H. unfold pColon in H. rule H. Qed.

Lemma progress_pOpDot part m :
  FindStringSubmatch pOpDot part = Some m ->
  forall sep,
  (weight (group m 1 ++ sepIf sep) < weight part
   /\ weight (sepIf sep ++ group m 5) < weight part)%nat.
Proof. intros H sep. unfold pOpDot in H. rule H. Qed.

Lemma progress_pPowDot part m :
  FindStringSubmatch pPowDot part = Some m ->
  forall sep,
  (weight (group m 1 ++ sepIf sep) < weight part
   /\ weight (sepIf sep ++ group m 4) < weight part)%nat.
Proof. intros H sep. unfold pPowDot in H. rule H. Qed.

Lemma progress_pPow part m :
  FindStringSubmatch pPow part = Some m ->
  forall sep,
  (weight (group m 1 ++ sepIf sep) < weight part
   /\ weight (sepIf sep ++ group m 3) < weight part)%nat.
Proof. intros H sep. unfold pPow in H. rule H. Qed.

Lemma progress_pOpComb part m :
  FindStringSubmatch pOpComb part = Some m ->
  forall sep,
  (weight (group m 1 ++ sepIf sep) < weight part
   /\ weight (sepIf sep ++ group m 4) < weight part)%nat.
Proof. intros H sep. unfold pOpComb in H. rule H. Qed.

Lemma progress_pNot part m :
  FindStringSubmatch pNot part = Some m ->
  (weight (group m 1 ++ str " ") < weight part
   /\ weight (group m 3) < weight part)%nat.
Proof. intros H. unfold pNot in H. rule H. Qed.

Lemma progress_pOp part m :
  FindStringSubmatch pOp part = Some m ->
  forall sep,
  (weight (group m 1 ++ sepIf sep) < weight part
   /\ weight (sepIf sep ++ group m 3) < weight part)%nat.
Proof. intros H sep. unfold pOp in H. rule H. Qed.

Lemma progress_pFunc part m :
  FindStringSubmatch pFunc part = Some m ->
  (weight (group m 1) < weight part /\ weight (group m 3) < weight part)%nat.
Proof. intros H. unfold pFunc in H. rule H. Qed.

Lemma progress_pOpen part m :
  FindStringSubmatch pOpen part = Some m ->
  (weight (group m 1) < weight part /\ weight (group m 3) < weight part)%nat.
Proof. intros H. unfold pOpen in H. rule H. Qed.

Lemma progress_pClose part m :
  FindStringSubmatch pClose part = Some m ->
  (weight (group m 1) < weight part /\ weight (group m 3) < weight part)%nat.
Proof. intros H. unfold pClose in H. rule H. Qed.

Lemma progress_pComma part m :
  FindStringSubmatch pComma part = Some m ->
  (weight (group m 1) < weight part
   /\ weight (str " " ++ group m 3) < weight part)%nat.
Proof. intros H. unfold pComma in H. rule H. Qed.

Lemma progress_pEllipsis part m :
  FindStringSubmatch pEllipsis part = Some m ->
  (weight (group m 1 ++ str " ") < weight part
   /\ weight (str " " ++ group m 3) < weight part)%nat.
Proof. intros H. unfold pEllipsis in H. rule H. Qed.

Lemma progress_pMultiWS part m :
  FindStringSubmatch pMultiWS part = Some m ->
  (weight (group m 1) < weight part /\ weight (group m 3) < weight part)%nat.
Proof. intros H. unfold pMultiWS in H. rule H. Qed.

Lemma extract_progress ic part ic' l mid r :
  extract f ic part = (ic', Some (l, mid, r)) ->
  (weight l < weight part /\ weight r < weight part)%nat.
Proof.
  unfold extract.
  destruct (MatchString pBlank part) eqn:Eb.
  { intros H. injection H as _ <- _ <-. apply progress_pBlank in Eb.
    split; assumption. }
  destruct (extractStringOrComment ic part) as [ic1 [[[l' m'] r'] |]] eqn:Es.
  { intros H. injection H as _ <- _ <-.
    eapply progress_strings; eassumption. }
  try_rule progress_pNumSci.
  try_rule progress_pNumRational.
  try_rule progress_pIncrement.
  try_rule progress_pSign.
  try_rule progress_pColon.
  try_rule progress_pOpDot.
  try_rule progress_pPowDot.
  try_rule progress_pPow.
  try_rule progress_pOpComb.
  try_rule progress_pNot.
  try_rule progress_pOp.
  try_rule progress_pFunc.
  try_rule progress_pOpen.
  try_rule progress_pClose.
  try_rule progress_pComma.
  try_rule progress_pEllipsis.
  try_rule progress_pMultiWS.
  discriminate.
Qed.

Lemma format_fuel_enough :
  forall fuel ic part,
    (weight part < fuel)%nat ->
    exists res, format_fuel f fuel ic part = Some res.
Proof.
  induction fuel as [| fuel IH]; intros ic part Hw; [lia |].
  cbn [format_fuel].
  destruct (extract f ic part) as [ic1 [[[l mid] r] |]] eqn:E;
    [| eexists; reflexivity].
  apply extract_progress in E. destruct E as [Hl Hr].
  destruct (IH ic1 l) as [[ic2 fl] ->]; [lia |].
  destruct (IH ic2 r) as [[ic3 fr] ->]; [lia |].
  eexists; reflexivity.
Qed.

Lemma format_fuel_stable :
  forall fuel ic part res,
    format_fuel f fuel ic part = Some res ->
    forall fuel', (fuel <= fuel')%nat -> format_fuel f fuel' ic part = Some res.
Proof.
  induction fuel as [| fuel IH]; intros ic part res H fuel' Hle; [discriminate |].
  destruct fuel' as [| fuel']; [lia |].
  cbn [format_fuel] in *.
  destruct (extract f ic part) as [ic1 [[[l mid] r] |]]; [| assumption].
  destruct (format_fuel f fuel ic1 l) as [[ic2 fl] |] eqn:El; [| discriminate].
  destruct (format_fuel f fuel ic2 r) as [[ic3 fr] |] eqn:Er; [| discriminate].
  rewrite (IH _ _ _ El fuel'), (IH _ _ _ Er fuel') by lia. assumption.
Qed.

Lemma clean_fuel_enough :
  forall fuel ic line,
    (weight line < fuel)%nat ->
    exists res, clean_fuel fuel ic line = Some res.
Proof.
  induction fuel as [| fuel IH]; intros ic line Hw; [lia |].
  cbn [clean_fuel].
  destruct (extractStringOrComment ic line) as [ic1 [[[l mid] r] |]] eqn:E;
    [| eexists; reflexivity].
  apply progress_strings in E. destruct E as [Hl Hr].
  destruct (IH ic1 l) as [[ic2 fl] ->]; [lia |].
  destruct (IH ic2 r) as [[ic3 fr] ->]; [lia |].
  eexists; reflexivity.
Qed.

Lemma clean_fuel_stable :
  forall fuel ic line res,
    clean_fuel fuel ic line = Some res ->
    forall fuel', (fuel <= fuel')%nat -> clean_fuel fuel' ic line = Some res.
Proof.
  induction fuel as [| fuel IH]; intros ic line res H fuel' Hle; [discriminate |].
  destruct fuel' as [| fuel']; [lia |].
  cbn [clean_fuel] in *.
  destruct (extractStringOrComment ic line) as [ic1 [[[l mid] r] |]];
    [| assumption].
  destruct (clean_fuel fuel ic1 l) as [[ic2 fl] |] eqn:El; [| discriminate].
  destruct (clean_fuel fuel ic2 r) as [[ic3 fr] |] eqn:Er; [| discriminate].
  rewrite (IH _ _ _ El fuel'), (IH _ _ _ Er fuel') by lia. assumption.
Qed.

Lemma weight_neq a b : (weight a < weight b)%nat -> a <> b.
Proof. intros H ->. lia. Qed.

(** C9.  Every successful extraction makes progress: both remainders
    differ from the part and weigh strictly less than it (the weight of a
    text is its length plus the number of its non-space characters).
    Hence the recursion of [format] and of the string-and-comment cleaner
    returns within [budget part] nested calls, and any larger bound gives
    the same result.  A run of [FormatLines] is a fold of these total
    functions over the finite list of lines, and returns at most two
    lines for each line of its input. *)
Theorem normalizer_terminates (ic : Z) (part : text) :
  (forall ic' l mid r,
      extract f ic part = (ic', Some (l, mid, r)) ->
      l <> part /\ r <> part
      /\ (weight l < weight part)%nat /\ (weight r < weight part)%nat)
  /\ (forall fuel, (budget part <= fuel)%nat ->
        format_fuel f fuel ic part = Some (format f ic part))
  /\ (forall fuel, (budget part <= fuel)%nat ->
        clean_fuel fuel ic part
        = Some (cleanLineFromStringsAndComments ic part))
  /\ (forall st lines,
        (List.length (fst (FormatLines f st lines))
         <= 2 * List.length lines)%nat).
Proof.
  split; [| split; [| split]].
  - intros ic' l mid r H. apply extract_progress in H. destruct H as [Hl Hr].
    repeat split; try assumption; apply weight_neq; assumption.
  - intros fuel Hf. unfold format.
    destruct (@format_fuel_enough (budget part) ic part) as [res E];
      [unfold budget; lia |].
    rewrite E. cbn. eapply format_fuel_stable; eassumption.
  - intros fuel Hf. unfold cleanLineFromStringsAndComments.
    destruct (@clean_fuel_enough (budget part) ic part) as [res E];
      [unfold budget; lia |].
    rewrite E. cbn. eapply clean_fuel_stable; eassumption.
  - intros st lines. apply FormatLines_length.
Qed.

End Progress.

(* ------------------------------------------------------------------ *)
(** ** C10: an ignored line only decrements the counter *)

Local Open Scope Z_scope.

(** C10.  While the ignore-line counter is positive, [formatLine] returns
    offset 0 and the current indent followed by the whitespace-trimmed
    line, decrements the counter and leaves every other field of the
    state as it was, whatever the line contains. *)
Theorem ignored_line_only_decrements (f : Config) (st : State) (line : text) :
  0 < ignoreLines st ->
  let '(offset, out, st') := formatLine f st line in
  offset = 0 /\
  out = indent f st 0 ++ TrimSpace line /\
  ignoreLines st' = ignoreLines st - 1 /\
  ilvl st' = ilvl st /\ istep st' = istep st /\ fstep st' = fstep st /\
  matrix st' = matrix st /\ cell st' = cell st /\
  isBlockComment st' = isBlockComment st /\
  isLineComment st' = isLineComment st /\
  longLine st' = longLine st /\ continueLine st' = continueLine st /\
  isComment st' = isComment st.
Proof.
  intros H. unfold formatLine.
  destruct (Z.ltb_spec 0 (ignoreLines st)) as [_ | Hle]; [| lia].
  cbn. repeat split; reflexivity.
Qed.

Lemma ignored_line_only_decrements_witness :
  0 < ignoreLines midRun /\
  let '(offset, out, st') :=
    formatLine defaultConfig midRun (str "  %{ if x ... end  ") in
  offset = 0 /\
  out = indent defaultConfig midRun 0 ++ TrimSpace (str "  %{ if x ... end  ") /\
  ignoreLines st' = ignoreLines midRun - 1 /\
  ilvl st' = ilvl midRun /\ istep st' = istep midRun /\
  fstep st' = fstep midRun /\
  matrix st' = matrix midRun /\ cell st' = cell midRun /\
  isBlockComment st' = isBlockComment midRun /\
  isLineComment st' = isLineComment midRun /\
  longLine st' = longLine midRun /\ continueLine st' = continueLine midRun /\
  isComment st' = isComment midRun.
Proof.
  split; [reflexivity |].
  apply (ignored_line_only_decrements defaultConfig midRun
           (str "  %{ if x ... end  ")).
  reflexivity.
Defined.

(* ------------------------------------------------------------------ *)
(** ** X1 to X3: reading and writing a file *)

Lemma splitFrom_LF_cons x s :
  splitFrom [LF] 0 (x :: s)
  = if (x =? LF)%N then [] :: splitFrom [LF] 0 s
    else pushHead x (splitFrom [LF] 0 s).
Proof.
  cbn [splitFrom HasPrefix List.length Nat.sub]. rewrite ?andb_true_r.
  destruct (x =? LF)%N; reflexivity.
Qed.

Lemma splitFrom_nonempty s : splitFrom [LF] 0 s <> [].
Proof.
  induction s as [| x s IH]; [discriminate |].
  rewrite splitFrom_LF_cons. destruct (x =? LF)%N; [discriminate |].
  destruct (splitFrom [LF] 0 s); [contradiction | discriminate].
Qed.

Lemma Split_pieces (p : rune -> bool) s :
  forallb p s = true -> Forall (fun l => forallb p l = true) (splitFrom [LF] 0 s).
Proof.
  induction s as [| x s IH]; intros H.
  - repeat constructor.
  - cbn in H. apply andb_true_iff in H. destruct H as [Hx Hs].
    specialize (IH Hs). rewrite splitFrom_LF_cons.
    destruct (x =? LF)%N; [constructor; [reflexivity | assumption] |].
    destruct (splitFrom [LF] 0 s) as [| l ls]; cbn [pushHead].
    + repeat constructor. cbn. rewrite Hx. reflexivity.
    + inversion IH; subst. constructor; [| assumption].
      cbn. rewrite Hx. assumption.
Qed.

Lemma Split_no_LF s :
  Forall (fun l => forallb (fun x => negb (x =? LF)%N) l = true) (splitFrom [LF] 0 s).
Proof.
  induction s as [| x s IH]; [repeat constructor |].
  rewrite splitFrom_LF_cons. destruct (x =? LF)%N eqn:E;
    [constructor; [reflexivity | assumption] |].
  destruct (splitFrom [LF] 0 s) as [| l ls]; cbn [pushHead].
  - repeat constructor. cbn. rewrite E. reflexivity.
  - inversion IH; subst. constructor; [| assumption].
    cbn. rewrite E. assumption.
Qed.

Lemma replaceFrom_CR_cons x s :
  replaceFrom [CR] [LF] 0 (x :: s)
  = (if (x =? CR)%N then LF else x) :: replaceFrom [CR] [LF] 0 s.
Proof.
  cbn [replaceFrom HasPrefix List.length Nat.sub]. rewrite ?andb_true_r.
  destruct (x =? CR)%N; reflexivity.
Qed.

Lemma ReplaceAll_CR_map s :
  ReplaceAll s [CR] [LF] = List.map (fun x => if (x =? CR)%N then LF else x) s.
Proof.
  unfold ReplaceAll. induction s as [| x s IH]; [reflexivity |].
  rewrite replaceFrom_CR_cons, IH. reflexivity.
Qed.

Lemma ReplaceAll_CR_none s :
  forallb (fun x => negb (x =? CR)%N) (ReplaceAll s [CR] [LF]) = true.
Proof.
  rewrite ReplaceAll_CR_map. induction s as [| x s IH]; [reflexivity |].
  cbn. rewrite IH. destruct (x =? CR)%N eqn:E; [reflexivity |].
  rewrite E. reflexivity.
Qed.

Lemma Forall_removelast (A : Type) (P : A -> Prop) (l : list A) :
  Forall P l -> Forall P (removelast l).
Proof.
  induction 1 as [| x l Hx Hl IH]; [constructor |].
  cbn. destruct l; [constructor |]. constructor; assumption.
Qed.

Lemma Forall_and_inv (A : Type) (P Q : A -> Prop) (l : list A) :
  Forall P l -> Forall Q l -> Forall (fun x => P x /\ Q x) l.
Proof. induction 1; intros H2; inversion H2; subst; constructor; auto. Qed.

Lemma noBreak_split l :
  forallb (fun x => negb (x =? LF)%N) l = true ->
  forallb (fun x => negb (x =? CR)%N) l = true ->
  forallb noBreak l = true.
Proof.
  induction l as [| x l IH]; [reflexivity |]. cbn. intros H1 H2.
  apply andb_true_iff in H1. destruct H1 as [A1 B1].
  apply andb_true_iff in H2. destruct H2 as [A2 B2].
  unfold noBreak at 1. rewrite A1, A2, (IH B1 B2). reflexivity.
Qed.

(** X1. [readLines] never returns an empty list of lines, no line it
    returns holds a carriage return or a line feed, and empty content is
    read as one empty line. *)
Theorem readLines_lines (data : text) :
  readLines data <> []
  /\ Forall (fun line => forallb noBreak line = true) (readLines data)
  /\ readLines [] = [[]].
Proof.
  unfold readLines. cbv zeta.
  set (content := ReplaceAll (ReplaceAll data [CR; LF] [LF]) [CR] [LF]).
  assert (Hall : Forall (fun line => forallb noBreak line = true)
                   (Split content [LF])).
  { pose proof (Split_no_LF content) as H1.
    pose proof (Split_pieces (fun x => negb (x =? CR)%N) content
                  (ReplaceAll_CR_none _)) as H2.
    unfold Split.
    pose proof (Forall_and_inv H1 H2) as H. 
    eapply Forall_impl; [| exact H]. cbn. intros l [A B].
    apply noBreak_split; assumption. }
  pose proof (splitFrom_nonempty content) as Hne. fold (Split content [LF]) in Hne.
  split; [| split; [| reflexivity]].
  - destruct (Split content [LF]) as [| l ls]; [contradiction |].
    destruct ((1 <? Z.of_nat (List.length (l :: ls))) && isEmpty (last (l :: ls) []))
      eqn:E; [| discriminate].
    apply andb_true_iff in E. destruct E as [E _].
    destruct ls as [| l2 ls]; [cbn in E; discriminate |]. cbn. discriminate.
  - destruct (_ && _); [apply Forall_removelast |]; assumption.
Qed.

Lemma noBreak_LF x : noBreak x = true -> (x =? LF)%N = false.
Proof. unfold noBreak. destruct (x =? LF)%N; [discriminate | reflexivity]. Qed.

Lemma noBreak_CR x : noBreak x = true -> (x =? CR)%N = false.
Proof.
  unfold noBreak. destruct (x =? CR)%N; [| reflexivity].
  rewrite andb_false_r. discriminate.
Qed.

(** Texts without the old text's first character are left alone. *)
Lemma replaceFrom_absent (c : rune) (old new s : text) :
  forallb (fun x => negb (x =? c)%N) s = true ->
  replaceFrom (c :: old) new 0 s = s.
Proof.
  induction s as [| x s IH]; [reflexivity |]. cbn [forallb]. intros H.
  apply andb_true_iff in H. destruct H as [Hx Hs].
  cbn [replaceFrom HasPrefix].
  apply negb_true_iff in Hx. rewrite Hx. cbn [andb]. rewrite (IH Hs).
  reflexivity.
Qed.

Lemma replaceFrom_CRLF_no_LF (new s : text) :
  forallb (fun x => negb (x =? LF)%N) s = true ->
  replaceFrom [CR; LF] new 0 s = s.
Proof.
  induction s as [| x s IH]; [reflexivity |]. cbn [forallb]. intros H.
  apply andb_true_iff in H. destruct H as [Hx Hs].
  cbn [replaceFrom HasPrefix].
  destruct s as [| y s'].
  - rewrite andb_false_r. reflexivity.
  - cbn [forallb] in Hs. apply andb_true_iff in Hs. destruct Hs as [Hy Hs'].
    apply negb_true_iff in Hy. rewrite Hy. cbn [andb]. rewrite andb_false_r.
    rewrite IH; [reflexivity |]. cbn [forallb]. rewrite Hy, Hs'. reflexivity.
Qed.

Lemma replaceFrom_CRLF_line (l rest : text) :
  forallb noBreak l = true ->
  replaceFrom [CR; LF] [LF] 0 (l ++ CR :: LF :: rest)
  = l ++ LF :: replaceFrom [CR; LF] [LF] 0 rest.
Proof.
  induction l as [| x l IH]; intros H.
  - reflexivity.
  - cbn [forallb] in H. apply andb_true_iff in H. destruct H as [Hx Hl].
    cbn [app replaceFrom HasPrefix]. rewrite (noBreak_CR _ Hx). cbn [andb].
    rewrite (IH Hl). reflexivity.
Qed.

Lemma forallb_joined (p : rune -> bool) eol lines :
  forallb p eol = true ->
  Forall (fun l => forallb p l = true) lines ->
  forallb p (joined eol lines) = true.
Proof.
  intros He. induction 1 as [| l lines Hl _ IH]; [reflexivity |].
  unfold joined in *. cbn [List.map List.concat].
  rewrite !forallb_app, Hl, He, IH. reflexivity.
Qed.

Lemma Forall_noBreak_LF lines :
  Forall (fun l => forallb noBreak l = true) lines ->
  Forall (fun l => forallb (fun x => negb (x =? LF)%N) l = true) lines.
Proof.
  apply Forall_impl. intros l H. eapply forallb_impl; [| exact H].
  intros x Hx. rewrite (noBreak_LF _ Hx). reflexivity.
Qed.

Lemma Forall_noBreak_CR lines :
  Forall (fun l => forallb noBreak l = true) lines ->
  Forall (fun l => forallb (fun x => negb (x =? CR)%N) l = true) lines.
Proof.
  apply Forall_impl. intros l H. eapply forallb_impl; [| exact H].
  intros x Hx. rewrite (noBreak_CR _ Hx). reflexivity.
Qed.

(** The two replacements of [readLines] turn each of the three line
    endings into a line feed. *)
Lemma normalized_endings eol lines last :
  lineEnding eol ->
  Forall (fun l => forallb noBreak l = true) lines ->
  forallb noBreak last = true ->
  ReplaceAll (ReplaceAll (joined eol lines ++ last) [CR; LF] [LF]) [CR] [LF]
  = joined [LF] lines ++ last.
Proof.
  intros He Hl Hlast.
  assert (HlastLF : forallb (fun x => negb (x =? LF)%N) last = true).
  { eapply forallb_impl; [| exact Hlast]. intros x Hx.
    rewrite (noBreak_LF _ Hx). reflexivity. }
  assert (HlastCR : forallb (fun x => negb (x =? CR)%N) last = true).
  { eapply forallb_impl; [| exact Hlast]. intros x Hx.
    rewrite (noBreak_CR _ Hx). reflexivity. }
  destruct He as [-> | [-> | ->]].
  - (* line feeds *)
    assert (H : forallb (fun x => negb (x =? CR)%N) (joined [LF] lines ++ last) = true).
    { rewrite forallb_app. apply andb_true_iff. split; [| assumption].
      apply forallb_joined; [reflexivity | apply Forall_noBreak_CR; assumption]. }
    unfold ReplaceAll. rewrite (@replaceFrom_absent _ _ _ _ H).
    apply replaceFrom_absent. assumption.
  - (* carriage return and line feed *)
    assert (E : ReplaceAll (joined [CR; LF] lines ++ last) [CR; LF] [LF]
                = joined [LF] lines ++ last).
    { unfold ReplaceAll. induction Hl as [| l lines Hl0 _ IH].
      - cbn. apply replaceFrom_absent. assumption.
      - unfold joined in *. cbn [List.map List.concat].
        rewrite <- !app_assoc. cbn [app].
        rewrite (@replaceFrom_CRLF_line _ _ Hl0), IH. reflexivity. }
    rewrite E. unfold ReplaceAll. apply replaceFrom_absent.
    rewrite forallb_app. apply andb_true_iff. split; [| assumption].
    apply forallb_joined; [reflexivity | apply Forall_noBreak_CR; assumption].
  - (* carriage returns *)
    assert (H : forallb (fun x => negb (x =? LF)%N) (joined [CR] lines ++ last) = true).
    { rewrite forallb_app. apply andb_true_iff. split; [| assumption].
      apply forallb_joined; [reflexivity | apply Forall_noBreak_LF; assumption]. }
    unfold ReplaceAll at 2. rewrite (@replaceFrom_CRLF_no_LF _ _ H).
    rewrite ReplaceAll_CR_map, map_app.
    assert (Hid : forall l, forallb (fun x => negb (x =? CR)%N) l = true ->
                     List.map (fun x => if (x =? CR)%N then LF else x) l = l).
    { induction l as [| x l IHl]; [reflexivity |]. cbn. intros Hx.
      apply andb_true_iff in Hx. destruct Hx as [Hx Hl'].
      apply negb_true_iff in Hx. rewrite Hx, (IHl Hl'). reflexivity. }
    f_equal; [| apply Hid; assumption].
    clear H. induction Hl as [| l lines Hl0 _ IH]; [reflexivity |].
    unfold joined in *. cbn [List.map List.concat].
    rewrite !map_app. f_equal; [f_equal | exact IH].
    apply Hid. eapply forallb_impl; [| exact Hl0]. intros x Hx.
    rewrite (noBreak_CR _ Hx). reflexivity.
Qed.

Lemma splitFrom_line (l rest : text) :
  forallb (fun x => negb (x =? LF)%N) l = true ->
  splitFrom [LF] 0 (l ++ LF :: rest) = l :: splitFrom [LF] 0 rest.
Proof.
  induction l as [| x l IH]; intros H.
  - cbn [app]. rewrite splitFrom_LF_cons. reflexivity.
  - cbn [forallb] in H. apply andb_true_iff in H. destruct H as [Hx Hl].
    cbn [app]. rewrite splitFrom_LF_cons.
    apply negb_true_iff in Hx. rewrite Hx, (IH Hl). reflexivity.
Qed.

Lemma splitFrom_last (l : text) :
  forallb (fun x => negb (x =? LF)%N) l = true ->
  splitFrom [LF] 0 l = [l].
Proof.
  induction l as [| x l IH]; intros H; [reflexivity |].
  cbn [forallb] in H. apply andb_true_iff in H. destruct H as [Hx Hl].
  rewrite splitFrom_LF_cons.
  apply negb_true_iff in Hx. rewrite Hx, (IH Hl). reflexivity.
Qed.

Lemma Split_joined lines last :
  Forall (fun l => forallb (fun x => negb (x =? LF)%N) l = true) lines ->
  forallb (fun x => negb (x =? LF)%N) last = true ->
  Split (joined [LF] lines ++ last) [LF] = lines ++ [last].
Proof.
  intros Hl Hlast. unfold Split.
  induction Hl as [| l lines Hl0 _ IH].
  - cbn. apply splitFrom_last. assumption.
  - unfold joined in *. cbn [List.map List.concat].
    rewrite <- !app_assoc. cbn [app].
    rewrite (@splitFrom_line _ _ Hl0), IH. reflexivity.
Qed.

(** X2. Lines without line breaks that are written each with the same
    ending (line feed, carriage return and line feed, or carriage
    return) are read back as they were; a last line without an ending is
    one more line; and what the writing loop of [FormatFile] writes for
    a list of lines is read back as that list. *)
Theorem readLines_round_trip (eol : text) (lines : list text) (final : text) :
  lineEnding eol ->
  Forall (fun l => forallb noBreak l = true) lines ->
  forallb noBreak final = true ->
  (lines <> [] -> readLines (joined eol lines) = lines)
  /\ (final <> [] -> readLines (joined eol lines ++ final) = lines ++ [final])
  /\ (lines <> [] -> readLines (writeLines lines) = lines).
Proof.
  intros He Hl Hf.
  assert (Hl' := Forall_noBreak_LF Hl).
  assert (Hf' : forallb (fun x => negb (x =? LF)%N) final = true).
  { eapply forallb_impl; [| exact Hf]. intros x Hx.
    rewrite (noBreak_LF _ Hx). reflexivity. }
  assert (R : forall e, lineEnding e -> lines <> [] ->
                        readLines (joined e lines) = lines).
  { intros e Hee Hne. unfold readLines. cbv zeta.
    pose proof (@normalized_endings e lines [] Hee Hl eq_refl) as E1.
    pose proof (@Split_joined lines [] Hl' eq_refl) as E2.
    rewrite !app_nil_r in E1. rewrite app_nil_r in E2. rewrite E1, E2.
    rewrite last_last, removelast_last, length_app. cbn [isEmpty List.length].
    destruct lines as [| l ls]; [contradiction |].
    match goal with
    | |- context [(?a <? ?b)] => destruct (Z.ltb_spec a b)
    end; [reflexivity | cbn [List.length] in *; lia]. }
  split; [apply R; assumption |]. split.
  - intros Hne. unfold readLines. cbv zeta.
    rewrite (@normalized_endings eol lines final He Hl Hf), (@Split_joined lines final Hl' Hf').
    rewrite last_last. destruct final; [contradiction |].
    cbn [isEmpty]. rewrite andb_false_r. reflexivity.
  - apply (R [LF]). left. reflexivity.
Qed.

Lemma readLines_round_trip_witness :
  lineEnding [CR; LF]
  /\ Forall (fun l => forallb noBreak l = true) (texts ["a = 1"; ""; "b"])
  /\ forallb noBreak (str "c") = true
  /\ (texts ["a = 1"; ""; "b"] <> [] ->
      readLines (joined [CR; LF] (texts ["a = 1"; ""; "b"]))
      = texts ["a = 1"; ""; "b"])
  /\ (str "c" <> [] ->
      readLines (joined [CR; LF] (texts ["a = 1"; ""; "b"]) ++ str "c")
      = texts ["a = 1"; ""; "b"] ++ [str "c"])
  /\ (texts ["a = 1"; ""; "b"] <> [] ->
      readLines (writeLines (texts ["a = 1"; ""; "b"]))
      = texts ["a = 1"; ""; "b"]).
Proof.
  assert (He : lineEnding [CR; LF]) by (right; left; reflexivity).
  assert (Hl : Forall (fun l => forallb noBreak l = true)
                 (texts ["a = 1"; ""; "b"])) by (repeat constructor).
  assert (Hf : forallb noBreak (str "c") = true) by reflexivity.
  split; [exact He |]. split; [exact Hl |]. split; [exact Hf |].
  apply (@readLines_round_trip [CR; LF] (texts ["a = 1"; ""; "b"]) (str "c")
           He Hl Hf).
Defined.

Lemma visible_concat (ls : list text) :
  visible (List.concat ls) = List.concat (List.map visible ls).
Proof.
  induction ls as [| l ls IH]; [reflexivity |]. cbn [List.concat List.map].
  rewrite visible_app, IH. reflexivity.
Qed.

Lemma visible_writeLines (ls : list text) :
  visible (writeLines ls) = List.concat (List.map visible ls).
Proof.
  unfold writeLines. rewrite visible_concat, map_map. f_equal.
  apply map_ext. intros l. rewrite visible_app. apply app_nil_r.
Qed.

Lemma concat_content (ls : list text) :
  List.concat (content ls) = List.concat (List.map visible ls).
Proof.
  unfold content. induction ls as [| l ls IH]; [reflexivity |].
  cbn [List.map filter List.concat].
  destruct (visible l) as [| x v]; cbn [isEmpty negb List.concat app];
    rewrite IH; reflexivity.
Qed.

Lemma visible_replace_CRLF s :
  visible (replaceFrom [CR; LF] [LF] 0 s) = visible s
  /\ visible (replaceFrom [CR; LF] [LF] 1 s) = visible (tl s).
Proof.
  induction s as [| x s [IH0 IH1]]; [split; reflexivity |].
  split; [| exact IH0].
  cbn [replaceFrom HasPrefix List.length Nat.sub].
  destruct (x =? CR)%N eqn:Ex; cbn [andb].
  - apply N.eqb_eq in Ex. subst x.
    destruct s as [| y s']; [reflexivity |].
    destruct (y =? LF)%N eqn:Ey; cbn [andb].
    + apply N.eqb_eq in Ey. subst y. cbn [app].
      change (visible (LF :: ?t)) with (visible t).
      rewrite IH1. reflexivity.
    + change (visible (CR :: ?t)) with (visible t). exact IH0.
  - cbn [visible filter]. fold (visible s).
    fold (visible (replaceFrom [CR; LF] [LF] 0 s)). rewrite IH0. reflexivity.
Qed.

Lemma visible_replace_CR s : visible (ReplaceAll s [CR] [LF]) = visible s.
Proof.
  rewrite ReplaceAll_CR_map. induction s as [| x s IH]; [reflexivity |].
  cbn [List.map]. destruct (x =? CR)%N eqn:Ex.
  - apply N.eqb_eq in Ex. subst x.
    change (visible (LF :: ?t)) with (visible t).
    change (visible (CR :: ?t)) with (visible t). exact IH.
  - cbn [visible filter]. fold (visible s).
    fold (visible (List.map (fun x0 => if (x0 =? CR)%N then LF else x0) s)).
    rewrite IH. reflexivity.
Qed.

Lemma visible_pushHead x ls :
  List.concat (List.map visible (pushHead x ls))
  = visible [x] ++ List.concat (List.map visible ls).
Proof.
  destruct ls as [| l ls]; cbn [pushHead List.map List.concat].
  - reflexivity.
  - change (x :: l) with ([x] ++ l). rewrite visible_app, app_assoc.
    reflexivity.
Qed.

Lemma visible_Split s :
  List.concat (List.map visible (Split s [LF])) = visible s.
Proof.
  unfold Split. induction s as [| x s IH]; [reflexivity |].
  rewrite splitFrom_LF_cons. destruct (x =? LF)%N eqn:Ex.
  - apply N.eqb_eq in Ex. subst x. cbn [List.map List.concat].
    change (visible (LF :: ?t)) with (visible t). exact IH.
  - rewrite visible_pushHead, IH. change (x :: s) with ([x] ++ s).
    rewrite visible_app. reflexivity.
Qed.

Lemma visible_removelast (ls : list text) :
  isEmpty (last ls []) = true ->
  List.concat (List.map visible (removelast ls))
  = List.concat (List.map visible ls).
Proof.
  intros H. destruct ls as [| l0 ls0]; [reflexivity |].
  assert (Hex : exists init : list text, l0 :: ls0 = init ++ [[]]).
  { exists (removelast (l0 :: ls0)).
    assert (Hne : l0 :: ls0 <> []) by discriminate.
    pose proof (app_removelast_last [] Hne) as E.
    assert (El : last (l0 :: ls0) [] = []).
    { destruct (last (l0 :: ls0) []); [reflexivity | discriminate]. }
    etransitivity; [exact E |]. f_equal. f_equal. exact El. }
  destruct Hex as [init ->].
  rewrite removelast_last, map_app, concat_app.
  cbn [List.map List.concat visible filter]. rewrite !app_nil_r. reflexivity.
Qed.

Lemma visible_readLines data :
  List.concat (List.map visible (readLines data)) = visible data.
Proof.
  unfold readLines. cbv zeta.
  set (content := ReplaceAll (ReplaceAll data [CR; LF] [LF]) [CR] [LF]).
  assert (E : List.concat (List.map visible (Split content [LF])) = visible data).
  { rewrite visible_Split. unfold content.
    rewrite visible_replace_CR. apply visible_replace_CRLF. }
  destruct ((1 <? Z.of_nat (List.length (Split content [LF])))
            && isEmpty (last (Split content [LF]) [])) eqn:C; [| exact E].
  apply andb_true_iff in C. destruct C as [_ C].
  rewrite (visible_removelast _ C). exact E.
Qed.

Lemma oneLine_noBreak (ls : list text) :
  Forall (fun l => forallb noBreak l = true) ls -> Forall oneLine ls.
Proof.
  apply Forall_impl. intros l H. unfold oneLine.
  eapply forallb_impl; [| exact H]. intros x Hx.
  change (negb (x =? LF)%N = true). rewrite (noBreak_LF _ Hx). reflexivity.
Qed.

Lemma FormatLines_nonempty f st lines :
  lines <> [] -> fst (FormatLines f st lines) <> [].
Proof.
  intros Hne. unfold FormatLines. destruct (selection f lines) as [a b].
  destruct (a =? b); [exact Hne |].
  unfold formatSegment. cbv zeta.
  destruct (enterSegment f (resetState st) _) as [st1 segment1].
  destruct (fold_left (lineStep f) segment1 (st1, [], true))
    as [[st2 output] blank].
  cbn [fst]. intros E.
  apply app_eq_nil in E. destruct E as [_ E].
  apply app_eq_nil in E. destruct E as [E _].
  destruct (b =? Z.of_nat (List.length lines));
    [destruct (trimBlankEnd output) | destruct output]; discriminate.
Qed.

(** X3. Errors of reading and writing apart, [FormatFile] returns an
    error exactly when the file cannot be opened, and then leaves the
    state of the formatter as it was. Otherwise what it writes has the
    characters of the content that are no white space, in the same
    order, and ends in a line feed. *)
Theorem FormatFile_keeps_characters (f : Config) (st : State) (w : World)
  (filename : text) :
  match FormatFile f st w filename with
  | (Some out, _) =>
      exists data,
        openReader w filename = Some data
        /\ visible out = visible data
        /\ exists body, out = body ++ [LF]
  | (None, st') => openReader w filename = None /\ st' = st
  end.
Proof.
  unfold FormatFile.
  destruct (openReader w filename) as [data |]; [| split; reflexivity].
  cbv zeta.
  pose proof (readLines_lines data) as (Hne & Hnb & _).
  pose proof (@FormatLines_content f st (readLines data)
                (oneLine_noBreak Hnb)) as [Hc _].
  pose proof (@FormatLines_nonempty f st (readLines data) Hne) as Hout.
  destruct (FormatLines f st (readLines data)) as [formatted st'].
  cbn [fst] in Hc, Hout.
  exists data. split; [reflexivity |]. split.
  - rewrite visible_writeLines, <- concat_content, Hc, concat_content.
    apply visible_readLines.
  - unfold writeLines.
    rewrite (app_removelast_last [] Hout), map_app, concat_app.
    cbn [List.map List.concat]. rewrite app_nil_r, app_assoc.
    eexists. reflexivity.
Qed.

(* ------------------------------------------------------------------ *)
(** ** X4 and X5: the selection and the state between runs *)

(** X4. When there are no lines, when [StartLine] lies behind the last
    line, or when a positive [EndLine] lies before [StartLine], the
    selection is empty: [FormatLines] returns the lines as they are and
    does not touch the state. *)
Theorem FormatLines_empty_selection (f : Config) (st : State)
  (lines : list text) :
  lines = []
  \/ Z.of_nat (List.length lines) < StartLine (opts f)
  \/ (0 < EndLine (opts f) /\ EndLine (opts f) < StartLine (opts f)) ->
  FormatLines f st lines = (lines, st).
Proof.
  intros H. unfold FormatLines.
  assert (E : fst (selection f lines) = snd (selection f lines)).
  { unfold selection. cbv zeta.
    set (n := Z.of_nat (List.length lines)).
    assert (Hn : 0 <= n) by (unfold n; lia).
    assert (H' : n = 0 \/ n < StartLine (opts f)
                 \/ (0 < EndLine (opts f) /\ EndLine (opts f) < StartLine (opts f))).
    { destruct H as [-> | [H | H]]; [left; reflexivity | right; left; exact H
                                     | right; right; exact H]. }
    clear H.
    destruct (Z.ltb_spec (StartLine (opts f)) 1);
      match goal with
      | |- context [n <? ?x] => destruct (Z.ltb_spec n x)
      end;
      destruct (Z.ltb_spec 0 (EndLine (opts f)));
      destruct (Z.leb_spec (EndLine (opts f)) n); cbn [andb fst snd];
      match goal with
      | |- context [?a <? ?b] => destruct (Z.ltb_spec a b)
      end; cbn [fst snd]; lia. }
  destruct (selection f lines) as [a b]. cbn [fst snd] in E. subst b.
  rewrite Z.eqb_refl. reflexivity.
Qed.

Lemma FormatLines_empty_selection_witness :
  (texts ["function y=foo(x)"; "end"] = []
   \/ Z.of_nat (List.length (texts ["function y=foo(x)"; "end"]))
      < StartLine (opts (rangeConfig 99 0))
   \/ (0 < EndLine (opts (rangeConfig 99 0))
       /\ EndLine (opts (rangeConfig 99 0)) < StartLine (opts (rangeConfig 99 0))))
  /\ FormatLines (rangeConfig 99 0) midRun (texts ["function y=foo(x)"; "end"])
     = (texts ["function y=foo(x)"; "end"], midRun).
Proof.
  assert (H : texts ["function y=foo(x)"; "end"] = []
   \/ Z.of_nat (List.length (texts ["function y=foo(x)"; "end"]))
      < StartLine (opts (rangeConfig 99 0))
   \/ (0 < EndLine (opts (rangeConfig 99 0))
       /\ EndLine (opts (rangeConfig 99 0)) < StartLine (opts (rangeConfig 99 0)))).
  { right. left. cbn. lia. }
  split; [exact H |].
  apply (@FormatLines_empty_selection (rangeConfig 99 0) midRun
           (texts ["function y=foo(x)"; "end"]) H).
Defined.

(** X5. The lines [FormatLines] returns do not depend on the state
    earlier calls left behind: a formatter that has been used formats
    like a fresh one. When the selection is not empty the state left
    behind does not depend on it either. *)
Theorem FormatLines_forgets_state (f : Config) (st st' : State)
  (lines lines' : list text) :
  fst (FormatLines f st lines) = fst (FormatLines f st' lines)
  /\ fst (FormatLines f (snd (FormatLines f st lines')) lines)
     = formatted f lines
  /\ (fst (selection f lines) <> snd (selection f lines) ->
      snd (FormatLines f st lines) = snd (FormatLines f st' lines)).
Proof.
  assert (H : forall s s',
             fst (FormatLines f s lines) = fst (FormatLines f s' lines)
             /\ (fst (selection f lines) <> snd (selection f lines) ->
                 snd (FormatLines f s lines) = snd (FormatLines f s' lines))).
  { intros s s'. unfold FormatLines. destruct (selection f lines) as [a b].
    cbn [fst snd]. destruct (Z.eqb_spec a b) as [-> | Hne].
    - split; [reflexivity | intros C; contradiction].
    - unfold formatSegment.
      change (resetState s) with (resetState s'). split; reflexivity. }
  split; [apply H |]. split; [apply H | apply H].
Qed.

(* ------------------------------------------------------------------ *)
(** ** X6 and X7: the lines of the formatted segment *)

Lemma dropWhile_idem (p : rune -> bool) s :
  dropWhile p (dropWhile p s) = dropWhile p s.
Proof.
  induction s as [| x s IH]; [reflexivity |]. cbn [dropWhile].
  destruct (p x) eqn:E; [exact IH |]. cbn [dropWhile]. rewrite E. reflexivity.
Qed.

Lemma dropWhileEnd_idem (p : rune -> bool) s :
  dropWhileEnd p (dropWhileEnd p s) = dropWhileEnd p s.
Proof.
  unfold dropWhileEnd. rewrite rev_involutive, dropWhile_idem. reflexivity.
Qed.

Lemma lineStep_trimmedRight f st output blank raw :
  Forall trimmedRight output ->
  Forall trimmedRight (snd (fst (lineStep f (st, output, blank) raw))).
Proof.
  intros H. unfold lineStep.
  assert (Hnil : Forall trimmedRight [[] : text]) by (repeat constructor).
  destruct (len (TrimSpace raw) =? 0).
  - destruct blank; cbn [negb fst snd]; [assumption |].
    apply Forall_app. split; assumption.
  - destruct (formatLine f st raw) as [[offset line] st1]. cbv zeta.
    assert (Hl : Forall trimmedRight [TrimRight line cutset]).
    { repeat constructor. apply dropWhileEnd_idem. }
    repeat match goal with
    | |- context [if ?b then _ else _] => destruct b
    end; cbn [fst snd]; repeat (apply Forall_app; split); assumption.
Qed.

Lemma fold_trimmedRight f segment :
  forall st output blank,
    Forall trimmedRight output ->
    Forall trimmedRight
      (snd (fst (fold_left (lineStep f) segment (st, output, blank)))).
Proof.
  induction segment as [| raw segment IH]; intros st output blank H.
  - exact H.
  - cbn [fold_left].
    pose proof (lineStep_trimmedRight f st blank raw H) as Hs.
    destruct (lineStep f (st, output, blank) raw) as [[st1 output1] blank1].
    apply IH. exact Hs.
Qed.

Lemma trimBlankEnd_Forall (P : text -> Prop) output :
  Forall P output -> Forall P (trimBlankEnd output).
Proof.
  intros H. unfold trimBlankEnd. apply Forall_rev.
  apply Forall_rev in H. revert H. generalize (rev output) as l.
  induction l as [| x l IH]; intros H; [constructor |].
  destruct x as [| y x]; [| assumption].
  apply IH. inversion H; assumption.
Qed.

(** X6. No line of the formatted segment ends in a space, a tab, a
    carriage return or a line feed. *)
Theorem segment_lines_trimmed (f : Config) (st : State) (lines : list text)
  (a b : Z) :
  Forall trimmedRight (fst (formatSegment f st lines a b)).
Proof.
  unfold formatSegment. cbv zeta.
  destruct (enterSegment f (resetState st) _) as [st1 segment1].
  pose proof (@fold_trimmedRight f segment1 st1 [] true (Forall_nil _)) as H.
  destruct (fold_left (lineStep f) segment1 (st1, [], true))
    as [[st2 output] blank].
  cbn [fst snd] in *.
  assert (Hb : forall o, Forall trimmedRight o -> Forall trimmedRight (orBlank o)).
  { intros [| x o] Ho; [repeat constructor | exact Ho]. }
  destruct (b =? Z.of_nat (List.length lines)); apply Hb;
    [apply trimBlankEnd_Forall |]; assumption.
Qed.

Lemma tidy_app prev a b :
  tidy prev (a ++ b) = tidy prev a && tidy (endsBlank prev a) b.
Proof.
  revert prev. induction a as [| l a IH]; intros prev; [reflexivity |].
  cbn [app tidy endsBlank fold_left]. fold (endsBlank (isEmpty l) a).
  destruct (isEmpty l).
  - rewrite IH, andb_assoc. reflexivity.
  - apply IH.
Qed.

Lemma endsBlank_app prev a b :
  endsBlank prev (a ++ b) = endsBlank (endsBlank prev a) b.
Proof. unfold endsBlank. apply fold_left_app. Qed.

Lemma emitted_nonempty f st raw :
  oneLine raw -> len (TrimSpace raw) <> 0 ->
  isEmpty (TrimRight (snd (fst (formatLine f st raw))) cutset) = false.
Proof.
  intros Hone Hnb.
  pose proof (formatLine_content f st Hone) as [V _].
  destruct (TrimRight (snd (fst (formatLine f st raw))) cutset) eqn:E;
    [| reflexivity].
  exfalso. apply Hnb. apply blank_visible.
  rewrite <- V, <- visible_TrimRight, E. reflexivity.
Qed.

Lemma lineStep_tidy f st output blank raw :
  oneLine raw ->
  tidy true output = true -> endsBlank true output = blank ->
  let '(_, output', blank') := lineStep f (st, output, blank) raw in
  tidy true output' = true /\ endsBlank true output' = blank'.
Proof.
  intros Hone Ht Hb. unfold lineStep.
  destruct (Z.eqb_spec (len (TrimSpace raw)) 0) as [E | Hnb].
  - destruct blank; cbn [negb]; [split; assumption |].
    rewrite tidy_app, endsBlank_app, Ht, Hb. split; reflexivity.
  - pose proof (emitted_nonempty f st Hone Hnb) as He.
    destruct (formatLine f st raw) as [[offset line] st1]. cbn [fst snd] in He.
    cbv zeta.
    set (e := TrimRight line cutset) in *.
    assert (T1 : forall o p, tidy true o = true -> endsBlank true o = p ->
                   tidy true (o ++ [e]) = true
                   /\ endsBlank true (o ++ [e]) = false).
    { intros o p To _. rewrite tidy_app, endsBlank_app, To.
      cbn. rewrite He. split; reflexivity. }
    assert (T2 : forall o, tidy true o = true -> endsBlank true o = false ->
                   tidy true (o ++ [[]]) = true
                   /\ endsBlank true (o ++ [[]]) = true).
    { intros o To Eo. rewrite tidy_app, endsBlank_app, To, Eo.
      split; reflexivity. }
    destruct (separateBlock f && (0 <? offset) && negb blank
              && (isLineComment _ =? 0)) eqn:C1.
    + destruct blank;
        [rewrite andb_false_r in C1; cbn [andb] in C1; discriminate |].
      destruct (T2 _ Ht Hb) as [A1 A2]. destruct (T1 _ _ A1 A2) as [B1 B2].
      destruct (separateBlock f && (offset <? 0)); [apply T2 | split]; assumption.
    + destruct (T1 _ _ Ht Hb) as [B1 B2].
      destruct (separateBlock f && (offset <? 0)); [apply T2 | split]; assumption.
Qed.

Lemma fold_tidy f segment :
  Forall oneLine segment ->
  forall st output blank,
    tidy true output = true -> endsBlank true output = blank ->
    let '(_, output', blank') := fold_left (lineStep f) segment (st, output, blank) in
    tidy true output' = true /\ endsBlank true output' = blank'.
Proof.
  induction 1 as [| raw segment Hraw _ IH]; intros st output blank Ht Hb.
  - split; assumption.
  - cbn [fold_left].
    pose proof (@lineStep_tidy f st output blank raw Hraw Ht Hb) as Hs.
    destruct (lineStep f (st, output, blank) raw) as [[st1 output1] blank1].
    destruct Hs as [H1 H2]. apply IH; assumption.
Qed.

Lemma trimBlankEnd_spec output :
  exists k, output = trimBlankEnd output ++ repeat [] k
            /\ endsBlank false (trimBlankEnd output) = false.
Proof.
  assert (A : forall l : list text,
             exists k, rev l = trimBlankEnd (rev l) ++ repeat [] k
                       /\ endsBlank false (trimBlankEnd (rev l)) = false).
  { unfold trimBlankEnd. intros l. rewrite rev_involutive.
    induction l as [| x l (k & E & B)].
    - exists 0%nat. split; reflexivity.
    - destruct x as [| y x].
      + exists (S k). split; [| exact B].
        cbn [rev isEmpty]. rewrite E at 1. rewrite <- app_assoc. f_equal.
        change ([[]] : list text) with (repeat ([] : text) 1).
        rewrite <- repeat_app. f_equal. lia.
      + exists 0%nat. cbn [repeat isEmpty]. rewrite app_nil_r.
        split; [reflexivity |].
        cbn [rev]. rewrite endsBlank_app. reflexivity. }
  specialize (A (rev output)). rewrite rev_involutive in A. exact A.
Qed.

(** X7. The formatted segment is the single empty line, or it does not
    begin with an empty line and has no two empty lines in a row; when
    the selection reaches the end of the input it does not end with an
    empty line either. *)
Theorem segment_blank_lines (f : Config) (st : State) (lines : list text)
  (a b : Z) :
  Forall oneLine lines ->
  let out := fst (formatSegment f st lines a b) in
  out = [[]]
  \/ (tidy true out = true
      /\ (b = Z.of_nat (List.length lines) -> endsBlank true out = false)).
Proof.
  intros H. cbv zeta. unfold formatSegment. cbv zeta.
  assert (Hs : Forall oneLine (slice lines a b)).
  { unfold slice. apply oneLine_firstn, oneLine_skipn. assumption. }
  set (segment := match slice lines a b with [] => [[]] | _ :: _ => slice lines a b end).
  assert (Oseg : Forall oneLine segment).
  { unfold segment. destruct (slice lines a b); [repeat constructor | auto]. }
  pose proof (enterSegment_content f (resetState st) Oseg) as [_ Oe].
  destruct (enterSegment f (resetState st) segment) as [st1 segment1].
  cbn [snd] in Oe.
  pose proof (@fold_tidy f segment1 Oe st1 [] true eq_refl eq_refl) as Hf.
  destruct (fold_left (lineStep f) segment1 (st1, [], true))
    as [[st2 output] blank].
  destruct Hf as [Ht Hb]. cbn [fst].
  destruct (Z.eqb_spec b (Z.of_nat (List.length lines))) as [Eb | Hne].
  - destruct (trimBlankEnd_spec output) as (k & E & B).
    destruct (trimBlankEnd output) as [| x t] eqn:Et; [left; reflexivity |].
    right. cbn [orBlank]. rewrite E, tidy_app in Ht.
    apply andb_true_iff in Ht. destruct Ht as [Ht _].
    split; [exact Ht |]. intros _.
    unfold endsBlank in *. cbn [fold_left] in *. exact B.
  - destruct output as [| x t]; [left; reflexivity |].
    right. cbn [orBlank]. split; [exact Ht | intros C; contradiction].
Qed.

Lemma segment_blank_lines_witness :
  Forall oneLine (texts [""; "if a"; ""; ""; "b"; "end"; ""])
  /\ let out := fst (formatSegment defaultConfig zeroState
                       (texts [""; "if a"; ""; ""; "b"; "end"; ""]) 0 7) in
     out = [[]]
     \/ (tidy true out = true
         /\ (7 = Z.of_nat (List.length (texts [""; "if a"; ""; ""; "b"; "end"; ""])) ->
             endsBlank true out = false)).
Proof.
  assert (H : Forall oneLine (texts [""; "if a"; ""; ""; "b"; "end"; ""])).
  { repeat constructor. }
  split; [exact H |].
  apply (@segment_blank_lines defaultConfig zeroState
           (texts [""; "if a"; ""; ""; "b"; "end"; ""]) 0 7 H).
Defined.

(* ------------------------------------------------------------------ *)
(** ** X8 and X9: comments *)

Lemma dropWhile_app (p : rune -> bool) a b :
  dropWhile p (a ++ b)
  = if forallb p a then dropWhile p b else dropWhile p a ++ b.
Proof.
  induction a as [| x a IH]; [reflexivity |]. cbn [app dropWhile forallb].
  destruct (p x); [exact IH | reflexivity].
Qed.

Lemma dropWhile_prefix (p : rune -> bool) w t :
  forallb p w = true -> dropWhile p (w ++ t) = dropWhile p t.
Proof. intros H. rewrite dropWhile_app, H. reflexivity. Qed.

Lemma dropWhileEnd_suffix (p : rune -> bool) t w :
  forallb p w = true -> dropWhileEnd p (t ++ w) = dropWhileEnd p t.
Proof.
  intros H. unfold dropWhileEnd. rewrite rev_app_distr, dropWhile_prefix;
    [reflexivity |].
  rewrite forallb_forall in *. intros x Hx. apply H. apply in_rev. assumption.
Qed.

Lemma dropWhileEnd_split (p : rune -> bool) s :
  exists w, s = dropWhileEnd p s ++ w /\ forallb p w = true.
Proof.
  exists (rev (takeWhile p (rev s))). split.
  - unfold dropWhileEnd. rewrite <- rev_app_distr, takeWhile_dropWhile.
    symmetry. apply rev_involutive.
  - pose proof (forallb_takeWhile p (rev s)) as H.
    rewrite forallb_forall in *. intros x Hx. apply H. apply in_rev.
    assumption.
Qed.

Lemma dropWhile_split (p : rune -> bool) s :
  exists w, s = w ++ dropWhile p s /\ forallb p w = true.
Proof.
  exists (takeWhile p s). split;
    [symmetry; apply takeWhile_dropWhile | apply forallb_takeWhile].
Qed.

(** White space at either end does not change what [TrimSpace] returns. *)
Lemma TrimSpace_pad w1 t w2 :
  forallb IsSpace w1 = true -> forallb IsSpace w2 = true ->
  TrimSpace (w1 ++ t ++ w2) = TrimSpace t.
Proof.
  intros H1 H2. unfold TrimSpace. rewrite dropWhile_prefix by assumption.
  rewrite dropWhile_app.
  destruct (forallb IsSpace t) eqn:Et.
  - rewrite !dropWhile_all by assumption. reflexivity.
  - apply dropWhileEnd_suffix. assumption.
Qed.

Lemma TrimSpace_idem t : TrimSpace (TrimSpace t) = TrimSpace t.
Proof.
  unfold TrimSpace at 2.
  destruct (dropWhile_split IsSpace t) as (w1 & E1 & H1).
  destruct (dropWhileEnd_split IsSpace (dropWhile IsSpace t)) as (w2 & E2 & H2).
  rewrite E1 at 2. rewrite E2 at 2.
  symmetry. apply TrimSpace_pad; assumption.
Qed.

Lemma TrimSpace_TrimRight t : TrimSpace (TrimRight t cutset) = TrimSpace t.
Proof.
  destruct (dropWhileEnd_split (fun r => mem r cutset) t) as (w & E & H).
  fold (TrimRight t cutset) in E. rewrite E at 2.
  rewrite <- (app_nil_l (TrimRight t cutset ++ w)).
  symmetry. apply TrimSpace_pad; [reflexivity |].
  eapply forallb_impl; [| exact H]. apply cutset_IsSpace.
Qed.

Lemma forallb_indent f st extra : forallb IsSpace (indent f st extra) = true.
Proof.
  apply visible_nil_spaces, visible_indent.
Qed.

Lemma TrimSpace_indented f st extra t :
  TrimSpace (indent f st extra ++ TrimSpace t) = TrimSpace t.
Proof.
  rewrite <- (app_nil_r (TrimSpace t)) at 1.
  rewrite TrimSpace_pad; [apply TrimSpace_idem | apply forallb_indent | reflexivity].
Qed.

(** What the bookkeeping does to the block-comment counter. *)
Lemma trackState_block st line :
  isBlockComment (trackState st line)
  = if MatchString blockCommentOpen line then blockCommentSentinel
    else if MatchString blockCommentClose line then 1
    else if 0 <? isBlockComment st then isBlockComment st - 1
    else isBlockComment st.
Proof.
  unfold trackState. cbv zeta.
  destruct (MatchString lineComment line);
    [| destruct (0 <? isLineComment st)];
    cbn [isBlockComment set_isLineComment];
    destruct (cleanLineFromStringsAndComments _ line) as [ic stripped];
    repeat match goal with
    | |- context [if ?b then _ else _] => destruct b
    end; reflexivity.
Qed.

Lemma trackState_comment st line :
  MatchString lineComment line = true ->
  isLineComment (trackState st line) = 2
  /\ continueLine (trackState st line) = 0
  /\ longLine (trackState st line) = 0.
Proof.
  intros H. unfold trackState. rewrite H. cbv zeta.
  destruct (MatchString blockCommentOpen line);
    [| destruct (MatchString blockCommentClose line);
       [| destruct (0 <? isBlockComment (set_isLineComment st 2))]];
    destruct (cleanLineFromStringsAndComments _ line) as [ic stripped];
    cbn [isLineComment set_isComment set_isBlockComment set_isLineComment
         Z.eqb Pos.eqb orb];
    rewrite ?orb_true_r; cbn [negb]; rewrite ?andb_false_r;
    repeat split; reflexivity.
Qed.

(** X8. A line comment that is not skipped gets the offset 0 and is
    emitted with its text unchanged between the indent and the end of
    the line; the level, the two stacks and the bracket columns stay as
    they are, and the continuation flags are cleared. *)
Theorem comment_line_kept (f : Config) (st : State) (line : text) :
  ignoreLines st <= 0 ->
  MatchString lineComment line = true ->
  let '(offset, out, st') := formatLine f st line in
  offset = 0
  /\ TrimSpace out = TrimSpace line
  /\ ilvl st' = ilvl st /\ istep st' = istep st /\ fstep st' = fstep st
  /\ matrix st' = matrix st /\ cell st' = cell st
  /\ continueLine st' = 0 /\ longLine st' = 0.
Proof.
  intros Hig Hc. rewrite formatLine_eq.
  destruct (Z.ltb_spec 0 (ignoreLines st)) as [| _]; [lia |].
  pose proof (trackState_frame st line) as Hfr. cbv zeta in Hfr.
  pose proof (@trackState_comment st line Hc) as (L1 & L2 & L3).
  set (st1 := trackState st line) in *.
  destruct Hfr as (F1 & F2 & F3 & F4 & F5 & F6).
  unfold dispatch.
  destruct (0 <? isBlockComment st1).
  { rewrite TrimSpace_TrimRight. repeat split; assumption. }
  rewrite L1. cbn [Z.eqb Pos.eqb].
  cbv beta zeta.
  match goal with
  | |- context [indent f ?s 0] => remember s as s2 eqn:Es
  end.
  assert (Hs : ilvl s2 = ilvl st1 /\ istep s2 = istep st1
               /\ fstep s2 = fstep st1 /\ matrix s2 = matrix st1
               /\ cell s2 = cell st1 /\ continueLine s2 = continueLine st1
               /\ longLine s2 = longLine st1).
  { subst s2. destruct (FindStringSubmatch ignoreCommand line) as [m |];
      [| repeat split].
    destruct (group m 1); [repeat split |].
    destruct (Atoi _); [| repeat split].
    destruct (1 <? _); repeat split. }
  clear Es.
  destruct Hs as (S1 & S2 & S3 & S4 & S5 & S6 & S7).
  split; [reflexivity |]. split; [apply TrimSpace_indented |].
  repeat split; congruence.
Qed.

Lemma comment_line_kept_witness :
  ignoreLines (set_ignoreLines midRun 0) <= 0
  /\ MatchString lineComment (str "   % if x ...  ") = true
  /\ let '(offset, out, st') :=
       formatLine defaultConfig (set_ignoreLines midRun 0)
         (str "   % if x ...  ") in
     offset = 0
     /\ TrimSpace out = TrimSpace (str "   % if x ...  ")
     /\ ilvl st' = ilvl (set_ignoreLines midRun 0)
     /\ istep st' = istep (set_ignoreLines midRun 0)
     /\ fstep st' = fstep (set_ignoreLines midRun 0)
     /\ matrix st' = matrix (set_ignoreLines midRun 0)
     /\ cell st' = cell (set_ignoreLines midRun 0)
     /\ continueLine st' = 0 /\ longLine st' = 0.
Proof.
  split; [cbn; lia |]. split; [reflexivity |].
  apply (@comment_line_kept defaultConfig (set_ignoreLines midRun 0)
           (str "   % if x ...  ")); [cbn; lia | reflexivity].
Defined.

(** X9. Inside a block comment, and on the lines that open and close
    one, the line is emitted as it is but for white space at its end,
    with offset 0. The level, the stacks, the bracket columns and the
    ignore counter stay as they are; the block comment counter becomes
    the sentinel on the opening line, 1 on the closing line, and is
    decremented in between. *)
Theorem block_comment_kept (f : Config) (st : State) (line : text) :
  ignoreLines st <= 0 ->
  2 <= isBlockComment st
  \/ MatchString blockCommentOpen line = true
  \/ MatchString blockCommentClose line = true ->
  let '(offset, out, st') := formatLine f st line in
  offset = 0
  /\ out = TrimRight line cutset
  /\ ilvl st' = ilvl st /\ istep st' = istep st /\ fstep st' = fstep st
  /\ matrix st' = matrix st /\ cell st' = cell st
  /\ ignoreLines st' = ignoreLines st
  /\ isBlockComment st'
     = (if MatchString blockCommentOpen line then blockCommentSentinel
        else if MatchString blockCommentClose line then 1
        else isBlockComment st - 1).
Proof.
  intros Hig Hb. rewrite formatLine_eq.
  destruct (Z.ltb_spec 0 (ignoreLines st)) as [| _]; [lia |].
  pose proof (trackState_frame st line) as Hfr. cbv zeta in Hfr.
  pose proof (trackState_block st line) as Hbl.
  set (st1 := trackState st line) in *.
  destruct Hfr as (F1 & F2 & F3 & F4 & F5 & F6).
  assert (Hv : isBlockComment st1
               = (if MatchString blockCommentOpen line then blockCommentSentinel
                  else if MatchString blockCommentClose line then 1
                  else isBlockComment st - 1)
               /\ 0 < isBlockComment st1).
  { rewrite Hbl.
    destruct (MatchString blockCommentOpen line);
      [split; [reflexivity | reflexivity] |].
    destruct (MatchString blockCommentClose line);
      [split; [reflexivity | lia] |].
    destruct Hb as [Hb | [Hb | Hb]]; try discriminate.
    destruct (Z.ltb_spec 0 (isBlockComment st)); [split; lia | lia]. }
  destruct Hv as [Hv Hpos].
  unfold dispatch.
  destruct (Z.ltb_spec 0 (isBlockComment st1)) as [_ |]; [| lia].
  repeat split; assumption.
Qed.

Lemma block_comment_kept_witness :
  ignoreLines (set_isBlockComment zeroState 5) <= 0
  /\ (2 <= isBlockComment (set_isBlockComment zeroState 5)
      \/ MatchString blockCommentOpen (str "  end ...  ") = true
      \/ MatchString blockCommentClose (str "  end ...  ") = true)
  /\ let '(offset, out, st') :=
       formatLine defaultConfig (set_isBlockComment zeroState 5)
         (str "  end ...  ") in
     offset = 0
     /\ out = TrimRight (str "  end ...  ") cutset
     /\ ilvl st' = ilvl (set_isBlockComment zeroState 5)
     /\ istep st' = istep (set_isBlockComment zeroState 5)
     /\ fstep st' = fstep (set_isBlockComment zeroState 5)
     /\ matrix st' = matrix (set_isBlockComment zeroState 5)
     /\ cell st' = cell (set_isBlockComment zeroState 5)
     /\ ignoreLines st' = ignoreLines (set_isBlockComment zeroState 5)
     /\ isBlockComment st'
        = (if MatchString blockCommentOpen (str "  end ...  ")
           then blockCommentSentinel
           else if MatchString blockCommentClose (str "  end ...  ") then 1
           else isBlockComment (set_isBlockComment zeroState 5) - 1).
Proof.
  assert (H1 : ignoreLines (set_isBlockComment zeroState 5) <= 0) by (cbn; lia).
  assert (H2 : 2 <= isBlockComment (set_isBlockComment zeroState 5)
      \/ MatchString blockCommentOpen (str "  end ...  ") = true
      \/ MatchString blockCommentClose (str "  end ...  ") = true)
    by (left; cbn; lia).
  split; [exact H1 |]. split; [exact H2 |].
  apply (@block_comment_kept defaultConfig (set_isBlockComment zeroState 5)
           (str "  end ...  ") H1 H2).
Defined.

(* ------------------------------------------------------------------ *)
(** ** X10: the ranges of the state *)

Lemma cellIndent_nonneg f ic line open close indent0 :
  0 < iwidth f -> 0 <= indent0 ->
  0 <= snd (fst (cellIndent f ic line open close indent0)).
Proof.
  intros Hw H0. unfold cellIndent.
  destruct (cleanLineFromStringsAndComments ic line) as [ic1 cl].
  cbn [fst snd].
  destruct (0 <? _).
  - destruct (FindStringSubmatch (bracketPattern open) cl) as [m |]; [| exact H0].
    destruct (matrixIndent f); [| lia].
    pose proof (len_nonneg (group m 2)). lia.
  - destruct (_ <? 0); [lia | exact H0].
Qed.

Lemma multilineMatrix_fields f st line :
  let st' := snd (multilineMatrix f st line) in
  ilvl st' = ilvl st /\ istep st' = istep st /\ fstep st' = fstep st
  /\ cell st' = cell st /\ isBlockComment st' = isBlockComment st
  /\ isLineComment st' = isLineComment st /\ longLine st' = longLine st
  /\ continueLine st' = continueLine st /\ ignoreLines st' = ignoreLines st
  /\ (0 < iwidth f -> 0 <= matrix st -> 0 <= matrix st').
Proof.
  cbv zeta. unfold multilineMatrix.
  pose proof (@cellIndent_nonneg f (isComment st) line 91%N 93%N (matrix st)) as H.
  destruct (cellIndent f (isComment st) line 91%N 93%N (matrix st))
    as [[diff ind] ic].
  cbn in *. repeat split; try reflexivity. assumption.
Qed.

Lemma cellArray_fields f st line :
  let st' := snd (cellArray f st line) in
  ilvl st' = ilvl st /\ istep st' = istep st /\ fstep st' = fstep st
  /\ matrix st' = matrix st /\ isBlockComment st' = isBlockComment st
  /\ isLineComment st' = isLineComment st /\ longLine st' = longLine st
  /\ continueLine st' = continueLine st /\ ignoreLines st' = ignoreLines st
  /\ (0 < iwidth f -> 0 <= cell st -> 0 <= cell st').
Proof.
  cbv zeta. unfold cellArray.
  pose proof (@cellIndent_nonneg f (isComment st) line 123%N 125%N (cell st)) as H.
  destruct (cellIndent f (isComment st) line 123%N 125%N (cell st))
    as [[diff ind] ic].
  cbn in *. repeat split; try reflexivity. assumption.
Qed.

Lemma trackState_wellFormed st line :
  wellFormed st -> wellFormed (trackState st line).
Proof.
  unfold wellFormed, trackState. cbv zeta.
  intros (H1 & H2 & H3 & H4 & H5 & H6 & H7 & H8 & H9 & H10).
  assert (Hs : blockCommentSentinel = 1073741824) by reflexivity.
  destruct (MatchString lineComment line);
    [| destruct (Z.ltb_spec 0 (isLineComment st))];
    cbn [isBlockComment set_isLineComment];
    (destruct (MatchString blockCommentOpen line);
     [| destruct (MatchString blockCommentClose line);
        [| destruct (Z.ltb_spec 0 (isBlockComment st))]]);
    destruct (cleanLineFromStringsAndComments _ line) as [ic stripped];
    repeat match goal with
    | |- context [if ?b then _ else _] => destruct b
    end; cbn; repeat split; try assumption; try lia.
Qed.

Lemma last_Forall (P : Z -> Prop) (l : list Z) d :
  Forall P l -> l <> [] -> P (last l d).
Proof.
  induction 1 as [| x l Hx Hl IH]; [congruence |]. intros _.
  destruct l as [| y l]; [exact Hx |]. apply IH. discriminate.
Qed.

Ltac fmt_states f :=
  repeat match goal with
  | |- context [fmt f ?s ?x] =>
      let Hs := fresh "Hs" in
      pose proof (fmt_snd f s x) as Hs;
      destruct (fmt f s x); cbn [snd] in Hs; subst
  end.

Ltac well :=
  unfold wellFormed in *;
  cbn [ilvl istep fstep matrix cell isBlockComment isLineComment longLine
       continueLine ignoreLines
       set_ilvl set_istep set_fstep set_matrix set_cell set_isBlockComment
       set_isLineComment set_longLine set_continueLine set_isComment
       set_ignoreLines];
  repeat match goal with
  | H : _ /\ _ |- _ => destruct H
  end;
  repeat match goal with
  | H : _ = _ |- _ => rewrite H
  end;
  repeat split;
  try assumption; try lia;
  try (apply Forall_app; split; [assumption | constructor; [auto | constructor]]);
  try (apply Forall_removelast; assumption).

Lemma dispatch_wellFormed f st line :
  validConfig f -> wellFormed st ->
  let '(offset, _, st') := dispatch f st line in
  -2 <= offset <= 2 /\ wellFormed st' /\ ilvl st' = ilvl st.
Proof.
  intros [Hw Hmode] Hwf. unfold dispatch.
  pose proof Hwf as (W1 & W2 & W3 & W4 & W5 & W6 & W7 & W8 & W9 & W10).
  destruct (0 <? isBlockComment st); [split; [lia | split; [assumption | reflexivity]] |].
  destruct (isLineComment st =? 2).
  { cbv zeta.
    destruct (FindStringSubmatch ignoreCommand line) as [m |];
      [| split; [lia | split; [assumption | reflexivity]]].
    destruct (group m 1); [split; [lia |]; split; [well | reflexivity] |].
    destruct (Atoi _) as [v |]; [| split; [lia | split; [assumption | reflexivity]]].
    destruct (Z.ltb_spec 1 v); (split; [lia |]; split; [well | reflexivity]). }
  destruct (MatchString ctrlIgnore line);
    [split; [lia | split; [assumption | reflexivity]] |].
  cbv zeta.
  pose proof (multilineMatrix_fields f st line) as Hm. cbv zeta in Hm.
  destruct (multilineMatrix f st line) as [diff st2]. cbn [snd] in Hm.
  destruct Hm as (M1 & M2 & M3 & M4 & M5 & M6 & M7 & M8 & M9 & M10).
  specialize (M10 Hw W4).
  assert (Wf2 : wellFormed st2) by (clear - Hwf M1 M2 M3 M4 M5 M6 M7 M8 M9 M10; well).
  destruct (negb (diff =? 0) || negb (matrix st =? 0)).
  { fmt_states f. split; [lia |]. split; [| exact M1].
    clear - Wf2. well. }
  pose proof (cellArray_fields f st2 line) as Hc. cbv zeta in Hc.
  destruct (cellArray f st2 line) as [diff2 st3]. cbn [snd] in Hc.
  destruct Hc as (C1 & C2 & C3 & C4 & C5 & C6 & C7 & C8 & C9 & C10).
  assert (Hc2 : 0 <= cell st2) by lia.
  specialize (C10 Hw Hc2).
  assert (Wf3 : wellFormed st3).
  { clear - Wf2 C1 C2 C3 C4 C5 C6 C7 C8 C9 C10. well. }
  assert (El : ilvl st3 = ilvl st) by congruence.
  clear M1 M2 M3 M4 M5 M6 M7 M8 M9 M10 C1 C2 C3 C4 C5 C6 C7 C8 C9 C10 Hc2.
  clear W1 W2 W3 W4 W5 W6 W7 W8 W9 W10 Wf2 Hwf.
  pose proof Wf3 as (W1 & W2 & W3 & W4 & W5 & W6 & W7 & W8 & W9 & W10).
  destruct (negb (diff2 =? 0) || negb (cell st2 =? 0)).
  { fmt_states f. split; [lia |]. split; [| exact El]. clear - Wf3. well. }
  destruct (FindStringSubmatch ctrl1Line line) as [m |].
  { fmt_states f. split; [lia |]. split; [| exact El]. clear - Wf3. well. }
  destruct (FindStringSubmatch fcnStart line) as [m |].
  { cbv zeta. fmt_states f. split.
    - destruct (indentMode f =? -1); [destruct (1 <? _); lia | lia].
    - split; [| exact El]. clear - Wf3. well. }
  destruct (FindStringSubmatch ctrlStart line) as [m |].
  { cbv zeta. fmt_states f. split; [lia |]. split; [| exact El].
    clear - Wf3. well. }
  destruct (FindStringSubmatch ctrlStartSwitch line) as [m |].
  { cbv zeta. fmt_states f. split; [lia |]. split; [| exact El].
    clear - Wf3. well. }
  destruct (FindStringSubmatch ctrlCont line) as [m |].
  { fmt_states f. split; [lia |]. split; [| exact El]. clear - Wf3. well. }
  destruct (FindStringSubmatch ctrlEnd line) as [m |].
  { assert (Hne : forall l : list Z, nonEmpty l = true -> l <> []).
    { intros [| x l]; [discriminate | discriminate]. }
    destruct (nonEmpty (istep st3)) eqn:Ni.
    - assert (Hl : last (istep st3) 0 = 1 \/ last (istep st3) 0 = 2).
      { apply (@last_Forall (fun s => s = 1 \/ s = 2)); [assumption | auto]. }
      fmt_states f. split; [lia |]. split; [| exact El].
      clear - Wf3. well.
    - destruct (nonEmpty (fstep st3)) eqn:Nf.
      + assert (Hl : last (fstep st3) 0 = 1).
        { apply (@last_Forall (fun s => s = 1)); [assumption | auto]. }
        fmt_states f. split; [lia |]. split; [| exact El].
        clear - Wf3. well.
      + destruct (0 <? ilvl st3); fmt_states f;
          (split; [lia |]; split; [| exact El]);
          clear - Wf3; well. }
  fmt_states f. split; [lia |]. split; [| exact El]. clear - Wf3. well.
Qed.

Lemma formatLine_wellFormed f st line :
  validConfig f -> wellFormed st ->
  let '(offset, _, st') := formatLine f st line in
  -2 <= offset <= 2 /\ wellFormed st' /\ ilvl st' = ilvl st.
Proof.
  intros Hv Hwf. rewrite formatLine_eq.
  destruct (Z.ltb_spec 0 (ignoreLines st)).
  - cbv zeta. split; [lia |]. split; [| reflexivity]. well.
  - pose proof (trackState_wellFormed line Hwf) as Hwf1.
    pose proof (trackState_frame st line) as Hfr. cbv zeta in Hfr.
    pose proof (@dispatch_wellFormed f (trackState st line) line Hv Hwf1) as Hd.
    destruct (dispatch f (trackState st line) line) as [[offset out] st'].
    destruct Hd as (Ho & Hw & Hl). split; [exact Ho |]. split; [exact Hw |].
    destruct Hfr as (F1 & _). congruence.
Qed.

Lemma lineStep_wellFormed f st output blank raw :
  validConfig f -> wellFormed st ->
  wellFormed (fst (fst (lineStep f (st, output, blank) raw))).
Proof.
  intros Hv Hwf. unfold lineStep.
  destruct (len (TrimSpace raw) =? 0).
  - destruct (negb blank); exact Hwf.
  - pose proof (@formatLine_wellFormed f st raw Hv Hwf) as Hf.
    destruct (formatLine f st raw) as [[offset line] st1].
    destruct Hf as (Ho & Hw & Hl). cbv zeta.
    assert (W : wellFormed
                  (if ilvl (set_ilvl st1 (ilvl st1 + offset)) <? 0
                   then set_ilvl (set_ilvl st1 (ilvl st1 + offset)) 0
                   else set_ilvl st1 (ilvl st1 + offset))).
    { cbn [ilvl set_ilvl].
      destruct (Z.ltb_spec (ilvl st1 + offset) 0); clear - Hw H; well. }
    destruct (separateBlock f && (offset <? 0)); exact W.
Qed.

Lemma fold_wellFormed f segment :
  validConfig f ->
  forall st output blank,
    wellFormed st ->
    wellFormed (fst (fst (fold_left (lineStep f) segment (st, output, blank)))).
Proof.
  intros Hv. induction segment as [| raw segment IH]; intros st output blank Hwf.
  - exact Hwf.
  - cbn [fold_left].
    pose proof (@lineStep_wellFormed f st output blank raw Hv Hwf) as Hs.
    destruct (lineStep f (st, output, blank) raw) as [[st1 output1] blank1].
    apply IH. exact Hs.
Qed.

(** X10. For a positive indent width and an indent mode between -1 and 1
    the fields of the state stay in their ranges along a run: after
    [FormatLines], after [formatLine] and after one iteration of the
    loop. [formatLine] returns an offset between -2 and 2 and does not
    change the level itself. *)
Theorem run_keeps_wellFormed (f : Config) (st : State) (lines : list text)
  (line : text) :
  validConfig f -> wellFormed st ->
  wellFormed (snd (FormatLines f st lines))
  /\ (let '(offset, _, st') := formatLine f st line in
      -2 <= offset <= 2 /\ wellFormed st' /\ ilvl st' = ilvl st)
  /\ (forall output blank,
        wellFormed (fst (fst (lineStep f (st, output, blank) line)))).
Proof.
  intros Hv Hwf. split; [| split].
  - unfold FormatLines. destruct (selection f lines) as [a b].
    destruct (a =? b); [exact Hwf |].
    unfold formatSegment. cbv zeta.
    assert (Hr : wellFormed (resetState st)).
    { unfold wellFormed, resetState, blockCommentSentinel. cbn.
      repeat split; try lia; constructor. }
    assert (He : forall seg, wellFormed (fst (enterSegment f (resetState st) seg))).
    { intros seg. unfold enterSegment. destruct seg as [| first others]; [exact Hr |].
      destruct (FindStringSubmatch initialIndent first) as [m |]; [| exact Hr].
      cbn [fst]. destruct Hv as [Hw _].
      pose proof (len_nonneg (group m 1)) as Hlen.
      pose proof (Z.quot_pos _ _ Hlen Hw) as Hq.
      clear - Hr Hq. well. }
    match goal with
    | |- context [enterSegment f (resetState st) ?seg] => specialize (He seg);
        destruct (enterSegment f (resetState st) seg) as [st1 segment1]
    end.
    cbn [fst] in He.
    pose proof (@fold_wellFormed f segment1 Hv st1 [] true He) as Hf.
    destruct (fold_left (lineStep f) segment1 (st1, [], true))
      as [[st2 output] blank].
    exact Hf.
  - apply formatLine_wellFormed; assumption.
  - intros output blank. apply lineStep_wellFormed; assumption.
Qed.

Lemma run_keeps_wellFormed_witness :
  validConfig defaultConfig /\ wellFormed (set_ignoreLines midRun 0)
  /\ wellFormed (snd (FormatLines defaultConfig (set_ignoreLines midRun 0)
                        (texts ["end"; "end"; "end"; "switch x"])))
  /\ (let '(offset, _, st') :=
        formatLine defaultConfig (set_ignoreLines midRun 0) (str "end") in
      -2 <= offset <= 2 /\ wellFormed st'
      /\ ilvl st' = ilvl (set_ignoreLines midRun 0))
  /\ (forall output blank,
        wellFormed (fst (fst (lineStep defaultConfig
                                (set_ignoreLines midRun 0, output, blank)
                                (str "end"))))).
Proof.
  assert (Hv : validConfig defaultConfig) by (unfold validConfig; cbn; lia).
  assert (Hw : wellFormed (set_ignoreLines midRun 0)).
  { unfold wellFormed, blockCommentSentinel. cbn.
    repeat split; try lia; repeat constructor; auto. }
  split; [exact Hv |]. split; [exact Hw |].
  apply (@run_keeps_wellFormed defaultConfig (set_ignoreLines midRun 0)
           (texts ["end"; "end"; "end"; "switch x"]) (str "end") Hv Hw).
Defined.

(* ------------------------------------------------------------------ *)
(** ** X11 and X12: the configurations of New, blank fragments *)

(** X11. [New] fails exactly for an indent width that is not positive.
    The formatter it builds keeps the options, the width and the
    separate-blocks flag, has a positive width and an indent mode
    between -1 and 1, and an option string that is no key of its table
    falls back to the default: all functions indented, operator spacing
    1/2, aligned matrices. *)
Theorem New_checks_width_only (o : Options) :
  (New o = None <-> IndentWidth o <= 0)
  /\ (forall f, New o = Some f ->
        validConfig f /\ opts f = o /\ iwidth f = IndentWidth o
        /\ separateBlock f = SeparateBlocks o
        /\ (operatorSep f = 1%Q \/ operatorSep f = (1 # 2)%Q
            \/ operatorSep f = 0%Q)
        /\ (indentModes (IndentMode o) = None -> indentMode f = 1)
        /\ (operatorSpaces (AddSpaces o) = None -> operatorSep f = (1 # 2)%Q)
        /\ (matrixIndentation (MatrixIndent o) = None -> matrixIndent f = true)).
Proof.
  unfold New. destruct (Z.leb_spec (IndentWidth o) 0) as [Hle | Hgt].
  - split; [split; [intros _; exact Hle | reflexivity] | discriminate].
  - split; [split; [discriminate | lia] |].
    intros f E. injection E as <-. unfold validConfig.
    cbn [iwidth indentMode opts separateBlock operatorSep matrixIndent].
    split; [split; [exact Hgt |] |].
    + unfold indentModes.
      repeat match goal with
      | |- context [if ?b then _ else _] => destruct b
      end; cbn; lia.
    + split; [reflexivity |]. split; [reflexivity |]. split; [reflexivity |].
      split.
      * unfold operatorSpaces.
        repeat match goal with
        | |- context [if ?b then _ else _] => destruct b
        end; cbn; auto.
      * repeat split; intros ->; reflexivity.
Qed.

Lemma pBlank_matches part :
  part <> [] -> forallb is_s part = true -> MatchString pBlank part = true.
Proof.
  intros Hne Hs. unfold MatchString.
  destruct part as [| x part]; [contradiction |].
  cbn [forallb] in Hs. apply andb_true_iff in Hs. destruct Hs as [Hx Hp].
  assert (E : exists m, FindStringSubmatch pBlank (x :: part) = Some m).
  { unfold pBlank. cbn [seqs]. rewrite find_anchored.
    unfold ws1, Plus, s_. cbn [exec]. rewrite Hx.
    eexists. apply star_cls_greedy_max.
    rewrite (takeWhile_all _ _ Hp), (dropWhile_all _ _ Hp).
    cbn [exec]. reflexivity. }
  destruct E as [m ->]. reflexivity.
Qed.

Lemma extract_empty f ic : extract f ic [] = (ic, None).
Proof. vm_compute. reflexivity. Qed.

(** X12. [format] returns the empty fragment for the empty fragment, and
    one space for a fragment that is not empty and holds white space
    only. *)
Theorem normalize_blank (f : Config) (part : text) :
  normalize f [] = []
  /\ (part <> [] -> forallb is_s part = true -> normalize f part = str " ").
Proof.
  split; [vm_compute; reflexivity |].
  intros Hne Hs. unfold normalize, format.
  assert (Hb : exists n, budget part = S (S n)).
  { destruct part as [| x p]; [contradiction |].
    unfold budget, weight. cbn [List.length]. rewrite Nat.add_succ_r.
    eexists. reflexivity. }
  destruct Hb as [n ->]. cbn [format_fuel].
  unfold extract at 1. rewrite (pBlank_matches Hne Hs).
  rewrite extract_empty. reflexivity.
Qed.

(* ------------------------------------------------------------------ *)
(** ** X13: the indent of an emitted line *)






Lemma keyword_startsVisible (L : list string) (kw : text) :
  forallb (fun w => match str w with x :: _ => negb (IsSpace x) | [] => false end) L
  = true ->
  In kw (List.map str L) -> kw <> [] /\ startsVisible kw.
Proof.
  induction L as [| w L IH]; cbn; [tauto |].
  intros Hall [<- | Hin]; apply andb_true_iff in Hall; destruct Hall as [Hw Hl].
  - destruct (str w); [discriminate |]. split; [discriminate |].
    apply negb_true_iff. assumption.
  - apply IH; assumption.
Qed.














(* ------------------------------------------------------------------ *)
(** ** The keyword at the head of a line *)

(** The first word of a line that one of the comment patterns matches
    is the percent sign. *)
Lemma head_blockComment (c : ascii) line m :
  FindStringSubmatch
    (seqs [Bol; Grp 1 ws; word (String "%" (String c EmptyString)); ws; Eol])
    line = Some m ->
  exists r, lineHead line = str "%" ++ r.
Proof.
  intros E. rewrite word_cons in E. cbn [seqs] in E.
  apply find_sound in E. destruct E as (s1 & s2 & -> & H).
  invert_sem. subst.
  repeat match goal with Hw : sem ws _ _ _ _ _ |- _ =>
    apply sem_ws_spaces in Hw end.
  match goal with Hk : sem (Lit "%") _ _ _ _ _ |- _ =>
    unfold Lit in Hk; cbn [sem] in Hk;
    let y := fresh "y" in let E := fresh "E" in
    destruct Hk as (y & -> & E & _); apply N.eqb_eq in E; subst y end.
  rewrite <- !app_assoc.
  rewrite lineHead_after_ws; [| assumption | reflexivity].
  eexists; reflexivity.
Qed.

Lemma head_comment line :
  MatchString lineComment line = true
  \/ MatchString blockCommentOpen line = true
  \/ MatchString blockCommentClose line = true ->
  exists r, lineHead line = str "%" ++ r.
Proof.
  unfold MatchString. intros [H | [H | H]].
  - destruct (FindStringSubmatch lineComment line) eqn:E; [| discriminate].
    unfold lineComment in E. cbn [seqs] in E. eapply head_percent; eassumption.
  - destruct (FindStringSubmatch blockCommentOpen line) eqn:E; [| discriminate].
    eapply head_blockComment; eassumption.
  - destruct (FindStringSubmatch blockCommentClose line) eqn:E; [| discriminate].
    eapply head_blockComment; eassumption.
Qed.

Lemma beginsWith_no_comment L line :
  forallb (fun w => match str w with
                    | x :: _ => negb (N.eqb x 37%N)
                    | [] => false
                    end) L = true ->
  beginsWith L line ->
  MatchString lineComment line = false
  /\ MatchString blockCommentOpen line = false
  /\ MatchString blockCommentClose line = false.
Proof.
  intros HL (kw & r & Hin & Hh).
  assert (N : ~ exists r', lineHead line = str "%" ++ r').
  { intros [r' E]. rewrite Hh in E. clear Hh.
    induction L as [| w L IH]; cbn in Hin; [contradiction |].
    cbn [forallb] in HL. apply andb_true_iff in HL. destruct HL as [Hw HL'].
    destruct Hin as [<- | Hin]; [| exact (IH HL' Hin)].
    destruct (str w) as [| x k]; [discriminate |].
    cbn in E. injection E as -> _. discriminate. }
  repeat split.
  - destruct (MatchString lineComment line) eqn:E; [| reflexivity].
    exfalso. apply N. apply head_comment. auto.
  - destruct (MatchString blockCommentOpen line) eqn:E; [| reflexivity].
    exfalso. apply N. apply head_comment. auto.
  - destruct (MatchString blockCommentClose line) eqn:E; [| reflexivity].
    exfalso. apply N. apply head_comment. auto.
Qed.

Ltac begins H :=
  match type of H with
  | FindStringSubmatch ?p _ = Some _ =>
      unfold p in H; cbn [seqs] in H;
      try change (word "switch") with (words ["switch"%string]) in H;
      apply keyword_line in H; [| reflexivity]
  end.

Ltac heads_differ H1 H2 :=
  let kw1 := fresh "kw" in
  let r1 := fresh "r" in
  let Hin1 := fresh "Hin" in
  let Hh1 := fresh "Hh" in
  let kw2 := fresh "kw" in
  let r2 := fresh "r" in
  let Hin2 := fresh "Hin" in
  let Hh2 := fresh "Hh" in
  destruct H1 as (kw1 & r1 & Hin1 & Hh1);
  destruct H2 as (kw2 & r2 & Hin2 & Hh2);
  rewrite Hh1 in Hh2; cbn in Hin1, Hin2;
  repeat match goal with Hk : _ \/ _ |- _ => destruct Hk as [Hk | Hk] end;
  try contradiction; subst; cbn in Hh2; congruence.

Ltac no_match p Hb :=
  match goal with
  | |- MatchString p ?line = false =>
      unfold MatchString;
      let E := fresh "E" in
      destruct (FindStringSubmatch p line) eqn:E; [exfalso | reflexivity];
      begins E; heads_differ Hb E
  | |- FindStringSubmatch p ?line = None =>
      let E := fresh "E" in
      destruct (FindStringSubmatch p line) eqn:E; [exfalso | reflexivity];
      begins E; heads_differ Hb E
  end.

Lemma fcnStart_first line m :
  FindStringSubmatch fcnStart line = Some m ->
  (MatchString lineComment line = false
   /\ MatchString blockCommentOpen line = false
   /\ MatchString blockCommentClose line = false)
  /\ MatchString ctrlIgnore line = false
  /\ FindStringSubmatch ctrl1Line line = None.
Proof.
  intros H. begins H.
  split; [eapply beginsWith_no_comment; [| exact H]; reflexivity |].
  split; [no_match ctrlIgnore H | no_match ctrl1Line H].
Qed.

Lemma ctrlStart_first line m :
  FindStringSubmatch ctrlStart line = Some m ->
  (MatchString lineComment line = false
   /\ MatchString blockCommentOpen line = false
   /\ MatchString blockCommentClose line = false)
  /\ MatchString ctrlIgnore line = false
  /\ FindStringSubmatch fcnStart line = None.
Proof.
  intros H. begins H.
  split; [eapply beginsWith_no_comment; [| exact H]; reflexivity |].
  split; [no_match ctrlIgnore H | no_match fcnStart H].
Qed.

Lemma ctrlStartSwitch_first line m :
  FindStringSubmatch ctrlStartSwitch line = Some m ->
  (MatchString lineComment line = false
   /\ MatchString blockCommentOpen line = false
   /\ MatchString blockCommentClose line = false)
  /\ MatchString ctrlIgnore line = false
  /\ FindStringSubmatch ctrl1Line line = None
  /\ FindStringSubmatch fcnStart line = None
  /\ FindStringSubmatch ctrlStart line = None.
Proof.
  intros H. begins H.
  split; [eapply beginsWith_no_comment; [| exact H]; reflexivity |].
  split; [no_match ctrlIgnore H |].
  split; [no_match ctrl1Line H |].
  split; [no_match fcnStart H | no_match ctrlStart H].
Qed.

Lemma ctrlCont_first line m :
  FindStringSubmatch ctrlCont line = Some m ->
  (MatchString lineComment line = false
   /\ MatchString blockCommentOpen line = false
   /\ MatchString blockCommentClose line = false)
  /\ MatchString ctrlIgnore line = false
  /\ FindStringSubmatch ctrl1Line line = None
  /\ FindStringSubmatch fcnStart line = None
  /\ FindStringSubmatch ctrlStart line = None
  /\ FindStringSubmatch ctrlStartSwitch line = None.
Proof.
  intros H. begins H.
  split; [eapply beginsWith_no_comment; [| exact H]; reflexivity |].
  split; [no_match ctrlIgnore H |].
  split; [no_match ctrl1Line H |].
  split; [no_match fcnStart H |].
  split; [no_match ctrlStart H | no_match ctrlStartSwitch H].
Qed.

(* ------------------------------------------------------------------ *)
(** ** X14 to X17: openers, continuations and closers *)

Lemma balanced_nets line :
  balanced line = true ->
  netBrackets line 91%N 93%N = 0 /\ netBrackets line 123%N 125%N = 0.
Proof.
  unfold balanced. intros H. apply andb_true_iff in H.
  destruct H as [H1 H2]. split; apply Z.eqb_eq; assumption.
Qed.

Ltac code_line f st line Hcm Hni Hst Hbal :=
  destruct Hcm as (Hc1 & Hc2 & Hc3);
  destruct Hst as (Hig & Hbc & Hlc & Hm & Hc);
  destruct (@balanced_nets _ Hbal) as (Hb1 & Hb2);
  rewrite formatLine_eq;
  destruct (Z.ltb_spec 0 (ignoreLines st)) as [| _]; [lia |];
  pose proof (trackState_frame st line) as Hfr; cbv zeta in Hfr;
  pose proof (@trackState_plain st line Hc1 Hc2 Hc3 Hlc Hbc) as Hpl;
  cbv zeta in Hpl;
  set (st1 := trackState st line) in *;
  destruct Hfr as (F1 & F2 & F3 & F4 & F5 & F6); destruct Hpl as [P1 P2];
  unfold dispatch;
  destruct (Z.ltb_spec 0 (isBlockComment st1)) as [| _]; [lia |];
  destruct (Z.eqb_spec (isLineComment st1) 2) as [| _]; [lia |];
  rewrite Hni;
  pose proof (@multilineMatrix_balanced f st1 line Hb1) as Hmm;
  pose proof (multilineMatrix_fields f st1 line) as Hmf; cbv zeta in Hmf;
  destruct (multilineMatrix f st1 line) as [diff2 st2];
  cbn [fst snd] in Hmm, Hmf;
  destruct Hmm as (-> & M1 & M2 & M3 & M4 & M5 & M6);
  destruct Hmf as (_ & _ & _ & _ & N1 & N2 & N3 & N4 & N5 & _);
  rewrite F4, Hm; cbn [Z.eqb negb orb];
  pose proof (@cellArray_balanced f st2 line Hb2) as Hca;
  pose proof (cellArray_fields f st2 line) as Hcf; cbv zeta in Hcf;
  destruct (cellArray f st2 line) as [diff3 st3];
  cbn [fst snd] in Hca, Hcf;
  destruct Hca as (-> & C1 & C2 & C3 & C4 & C5 & C6);
  destruct Hcf as (_ & _ & _ & _ & D1 & D2 & D3 & D4 & D5 & _);
  rewrite M6, F5, Hc; cbn [Z.eqb negb orb].

Ltac fmt_out f :=
  repeat match goal with
  | |- context [fmt f ?s ?x] =>
      let Ho := fresh "Ho" in
      let Hs := fresh "Hs" in
      pose proof (fmt_fst f s x) as Ho; pose proof (fmt_snd f s x) as Hs;
      destruct (fmt f s x); cbn [fst snd] in Ho, Hs; subst
  end;
  unfold inCode;
  cbn [ilvl istep fstep matrix cell isBlockComment isLineComment longLine
       continueLine ignoreLines
       set_ilvl set_istep set_fstep set_matrix set_cell set_isBlockComment
       set_isLineComment set_longLine set_continueLine set_isComment
       set_ignoreLines].

Ltac code_done f :=
  fmt_out f; repeat split; try reflexivity; try congruence; try lia.

(** X14. On a line with balanced brackets, read in a state between two
    lines of code, a keyword of [ctrlStart] whose block does not end on
    the same line returns the offset 1 and pushes the entry 1 on the
    control stack, and [switch] returns the offset 2 and pushes the
    entry 2. The line is emitted at the current level as the keyword,
    one space and the formatted rest; the function stack and the level
    stay as they are. *)
Theorem block_opener_pushes (f : Config) (st : State) (line : text) (m : caps) (step : Z) :
  (FindStringSubmatch ctrl1Line line = None
   /\ FindStringSubmatch ctrlStart line = Some m /\ step = 1)
  \/ (FindStringSubmatch ctrlStartSwitch line = Some m /\ step = 2) ->
  inCode st -> balanced line = true ->
  let '(offset, out, st') := formatLine f st line in
  offset = step
  /\ out = indent f st' 0 ++ group m 2 ++ str " "
           ++ TrimSpace (normalize f (group m 3))
  /\ istep st' = istep st ++ [step] /\ fstep st' = fstep st
  /\ ilvl st' = ilvl st /\ inCode st'.
Proof.
  intros Hop Hst Hbal.
  destruct Hop as [(H1 & Hs & ->) | (Hs & ->)].
  - destruct (@ctrlStart_first _ _ Hs) as (Hcm & Hni & Hf).
    code_line f st line Hcm Hni Hst Hbal.
    rewrite H1, Hf, Hs. code_done f.
  - destruct (@ctrlStartSwitch_first _ _ Hs) as (Hcm & Hni & H1 & Hf & Hs1).
    code_line f st line Hcm Hni Hst Hbal.
    rewrite H1, Hf, Hs1, Hs. code_done f.
Qed.

Lemma block_opener_pushes_witness :
  exists m,
    ((FindStringSubmatch ctrl1Line (str "switch mode") = None
      /\ FindStringSubmatch ctrlStart (str "switch mode") = Some m /\ 2 = 1)
     \/ (FindStringSubmatch ctrlStartSwitch (str "switch mode") = Some m
         /\ 2 = 2))
    /\ inCode zeroState /\ balanced (str "switch mode") = true
    /\ let '(offset, out, st') :=
         formatLine defaultConfig zeroState (str "switch mode") in
       offset = 2
       /\ out = indent defaultConfig st' 0 ++ group m 2 ++ str " "
                ++ TrimSpace (normalize defaultConfig (group m 3))
       /\ istep st' = istep zeroState ++ [2] /\ fstep st' = fstep zeroState
       /\ ilvl st' = ilvl zeroState /\ inCode st'.
Proof.
  eexists.
  assert (H1 : inCode zeroState) by (unfold inCode; cbn; lia).
  assert (H2 : balanced (str "switch mode") = true) by reflexivity.
  match goal with
  | |- ?A /\ _ => assert (H0 : A) by (right; split; [vm_compute |]; reflexivity)
  end.
  split; [exact H0 |]. split; [exact H1 |]. split; [exact H2 |].
  apply (@block_opener_pushes defaultConfig zeroState (str "switch mode") _ 2
           H0 H1 H2).
Defined.

(** X15. On a line with balanced brackets, read in a state between two
    lines of code, [function] and [classdef] always push the entry 1 on
    the function stack, whatever offset they return: the indent mode
    itself, or for the mode -1 the offset 1 inside another function and
    0 outside. The control stack and the level stay as they are. *)
Theorem function_opener_pushes (f : Config) (st : State) (line : text) (m : caps) :
  FindStringSubmatch fcnStart line = Some m ->
  inCode st -> balanced line = true ->
  let '(offset, out, st') := formatLine f st line in
  offset = (if indentMode f =? -1
            then if nonEmpty (fstep st) then 1 else 0
            else indentMode f)
  /\ out = indent f st' 0 ++ group m 2 ++ str " "
           ++ TrimSpace (normalize f (group m 3))
  /\ fstep st' = fstep st ++ [1] /\ istep st' = istep st
  /\ ilvl st' = ilvl st /\ inCode st'.
Proof.
  intros Hs Hst Hbal.
  destruct (@fcnStart_first _ _ Hs) as (Hcm & Hni & H1).
  code_line f st line Hcm Hni Hst Hbal.
  rewrite H1, Hs. cbv zeta. cbn [fstep set_fstep].
  rewrite length_app. cbn [List.length].
  assert (E : (1 <? Z.of_nat (List.length (fstep st3) + 1)) = nonEmpty (fstep st)).
  { rewrite C5, M5, F3. destruct (fstep st); cbn [List.length nonEmpty].
    - reflexivity.
    - apply Z.ltb_lt. lia. }
  rewrite E. code_done f.
Qed.

Lemma function_opener_pushes_witness :
  exists m,
    FindStringSubmatch fcnStart (str "function y = f(x)") = Some m
    /\ inCode zeroState /\ balanced (str "function y = f(x)") = true
    /\ let '(offset, out, st') :=
         formatLine classicConfig zeroState (str "function y = f(x)") in
       offset = (if indentMode classicConfig =? -1
                 then if nonEmpty (fstep zeroState) then 1 else 0
                 else indentMode classicConfig)
       /\ out = indent classicConfig st' 0 ++ group m 2 ++ str " "
                ++ TrimSpace (normalize classicConfig (group m 3))
       /\ fstep st' = fstep zeroState ++ [1] /\ istep st' = istep zeroState
       /\ ilvl st' = ilvl zeroState /\ inCode st'.
Proof.
  eexists.
  assert (H1 : inCode zeroState) by (unfold inCode; cbn; lia).
  assert (H2 : balanced (str "function y = f(x)") = true) by reflexivity.
  split; [vm_compute; reflexivity |]. split; [exact H1 |]. split; [exact H2 |].
  apply (@function_opener_pushes classicConfig zeroState
           (str "function y = f(x)")); [reflexivity | exact H1 | exact H2].
Defined.

(** X16. On a line with balanced brackets, read in a state between two
    lines of code, a continuation keyword ([else], [elseif], [case],
    [otherwise], [catch]) returns the offset 0 and leaves both stacks
    and the level as they are; the line is emitted one indent width to
    the left of the current level. *)
Theorem continuation_line (f : Config) (st : State) (line : text) (m : caps) :
  FindStringSubmatch ctrlCont line = Some m ->
  inCode st -> balanced line = true ->
  let '(offset, out, st') := formatLine f st line in
  offset = 0
  /\ out = indent f st' (- iwidth f) ++ group m 2 ++ str " "
           ++ TrimSpace (normalize f (group m 3))
  /\ istep st' = istep st /\ fstep st' = fstep st
  /\ ilvl st' = ilvl st /\ inCode st'.
Proof.
  intros Hs Hst Hbal.
  destruct (@ctrlCont_first _ _ Hs) as (Hcm & Hni & H1 & Hf & Hs1 & Hs2).
  code_line f st line Hcm Hni Hst Hbal.
  rewrite H1, Hf, Hs1, Hs2, Hs. code_done f.
Qed.

Lemma continuation_line_witness :
  exists m,
    FindStringSubmatch ctrlCont (str "elseif x > 1") = Some m
    /\ inCode (set_ignoreLines midRun 0)
    /\ balanced (str "elseif x > 1") = true
    /\ let '(offset, out, st') :=
         formatLine defaultConfig (set_ignoreLines midRun 0)
           (str "elseif x > 1") in
       offset = 0
       /\ out = indent defaultConfig st' (- iwidth defaultConfig)
                ++ group m 2 ++ str " "
                ++ TrimSpace (normalize defaultConfig (group m 3))
       /\ istep st' = istep (set_ignoreLines midRun 0)
       /\ fstep st' = fstep (set_ignoreLines midRun 0)
       /\ ilvl st' = ilvl (set_ignoreLines midRun 0) /\ inCode st'.
Proof.
  eexists.
  assert (H1 : inCode (set_ignoreLines midRun 0)) by (unfold inCode; cbn; lia).
  assert (H2 : balanced (str "elseif x > 1") = true) by reflexivity.
  split; [vm_compute; reflexivity |]. split; [exact H1 |]. split; [exact H2 |].
  apply (@continuation_line defaultConfig (set_ignoreLines midRun 0)
           (str "elseif x > 1")); [reflexivity | exact H1 | exact H2].
Defined.

Lemma MatchString_true p s :
  MatchString p s = true -> exists m, FindStringSubmatch p s = Some m.
Proof.
  unfold MatchString. destruct (FindStringSubmatch p s) as [m |];
    [exists m; reflexivity | discriminate].
Qed.

Lemma MatchString_false p s :
  MatchString p s = false -> FindStringSubmatch p s = None.
Proof.
  unfold MatchString. destruct (FindStringSubmatch p s); [discriminate | reflexivity].
Qed.



(* ------------------------------------------------------------------ *)
(** ** X18: nested blocks *)

Lemma opener_state (f : Config) (st : State) (line : text) (m : caps) (step : Z) :
  (FindStringSubmatch ctrl1Line line = None
   /\ FindStringSubmatch ctrlStart line = Some m /\ step = 1)
  \/ (FindStringSubmatch ctrlStartSwitch line = Some m /\ step = 2) ->
  inCode st -> balanced line = true ->
  let '(offset, _, st') := formatLine f st line in
  offset = step /\ istep st' = istep st ++ [step] /\ fstep st' = fstep st
  /\ ilvl st' = ilvl st /\ inCode st'.
Proof.
  intros Hop Hst Hbal.
  destruct Hop as [(H1 & Hs & ->) | (Hs & ->)].
  - destruct (@ctrlStart_first _ _ Hs) as (Hcm & Hni & Hf).
    code_line f st line Hcm Hni Hst Hbal.
    rewrite H1, Hf, Hs. code_done f.
  - destruct (@ctrlStartSwitch_first _ _ Hs) as (Hcm & Hni & H1 & Hf & Hs1).
    code_line f st line Hcm Hni Hst Hbal.
    rewrite H1, Hf, Hs1, Hs. code_done f.
Qed.

Lemma ctrlEnd_control (f : Config) (st : State) (line : text) (m : caps)
  (pre : list Z) (s : Z) :
  FindStringSubmatch ctrlEnd line = Some m ->
  inCode st -> balanced line = true -> istep st = pre ++ [s] ->
  let '(offset, _, st') := formatLine f st line in
  offset = - s /\ istep st' = pre /\ fstep st' = fstep st
  /\ ilvl st' = ilvl st /\ inCode st'.
Proof.
  intros Hend Hst Hbal Hi.
  assert (Hcm : MatchString lineComment line = false
                /\ MatchString blockCommentOpen line = false
                /\ MatchString blockCommentClose line = false).
  { split; [apply (@end_not_comment _ _ Hend) |].
    split; [apply (@end_not_blockCommentOpen _ _ Hend)
           | apply (@end_not_blockCommentClose _ _ Hend)]. }
  pose proof (@end_not_ctrlIgnore _ _ Hend) as Hni.
  code_line f st line Hcm Hni Hst Hbal.
  rewrite (@end_not_ctrl1Line _ _ Hend), (@end_not_fcnStart _ _ Hend),
    (@end_not_ctrlStart _ _ Hend), (@end_not_ctrlStartSwitch _ _ Hend),
    (@end_not_ctrlCont _ _ Hend), Hend.
  assert (Ei : istep st3 = pre ++ [s]) by congruence.
  rewrite Ei.
  assert (Hn : nonEmpty (pre ++ [s]) = true) by (destruct pre; reflexivity).
  rewrite Hn, last_last, removelast_last.
  code_done f.
Qed.

Lemma quiet_step (f : Config) (st : State) (line : text) :
  quiet line = true -> len (TrimSpace line) <> 0 -> inCode st ->
  let '(offset, out, st') := formatLine f st line in
  offset = 0 /\ ilvl st' = ilvl st /\ istep st' = istep st
  /\ fstep st' = fstep st /\ inCode st'.
Proof.
  intros Hq Hnb Hst. unfold quiet in Hq.
  destruct (Z.eqb_spec (len (TrimSpace line)) 0) as [| _]; [contradiction |].
  cbn [orb] in Hq. apply orb_true_iff in Hq. destruct Hq as [Hq | Hq].
  - (* a comment *)
    apply andb_true_iff in Hq. destruct Hq as [Hq Hd].
    apply andb_true_iff in Hq. destruct Hq as [Hq Hcl].
    apply andb_true_iff in Hq. destruct Hq as [Hcm Hop].
    apply negb_true_iff in Hd, Hcl, Hop. apply MatchString_false in Hd.
    destruct Hst as (Hig & Hbc & Hlc & Hm & Hc).
    rewrite formatLine_eq.
    destruct (Z.ltb_spec 0 (ignoreLines st)) as [| _]; [lia |].
    pose proof (trackState_frame st line) as Hfr. cbv zeta in Hfr.
    pose proof (@trackState_comment st line Hcm) as (L1 & L2 & L3).
    pose proof (trackState_block st line) as Hbl. rewrite Hop, Hcl in Hbl.
    set (st1 := trackState st line) in *.
    destruct Hfr as (F1 & F2 & F3 & F4 & F5 & F6).
    assert (P2 : isBlockComment st1 <= 0).
    { rewrite Hbl. destruct (Z.ltb_spec 0 (isBlockComment st)); lia. }
    unfold dispatch.
    destruct (Z.ltb_spec 0 (isBlockComment st1)) as [| _]; [lia |].
    rewrite L1, Hd. cbn [Z.eqb Pos.eqb].
    unfold inCode. repeat split; try assumption; try lia; congruence.
  - apply andb_true_iff in Hq. destruct Hq as [Hcode Hq].
    unfold codeLine in Hcode.
    apply andb_true_iff in Hcode. destruct Hcode as [Hcode Hbal].
    apply andb_true_iff in Hcode. destruct Hcode as [Hcode Hc3].
    apply andb_true_iff in Hcode. destruct Hcode as [Hc1 Hc2].
    apply negb_true_iff in Hc1, Hc2, Hc3.
    destruct (MatchString ctrlIgnore line) eqn:Hni.
    + (* import, clear *)
      destruct Hst as (Hig & Hbc & Hlc & Hm & Hc).
      rewrite formatLine_eq.
      destruct (Z.ltb_spec 0 (ignoreLines st)) as [| _]; [lia |].
      pose proof (trackState_frame st line) as Hfr. cbv zeta in Hfr.
      pose proof (@trackState_plain st line Hc1 Hc2 Hc3 Hlc Hbc) as Hpl.
      cbv zeta in Hpl.
      set (st1 := trackState st line) in *.
      destruct Hfr as (F1 & F2 & F3 & F4 & F5 & F6). destruct Hpl as [P1 P2].
      unfold dispatch.
      destruct (Z.ltb_spec 0 (isBlockComment st1)) as [| _]; [lia |].
      destruct (Z.eqb_spec (isLineComment st1) 2) as [| _]; [lia |].
      rewrite Hni.
      unfold inCode. repeat split; try assumption; try lia; congruence.
    + cbn [orb] in Hq.
      assert (Hcm : MatchString lineComment line = false
                    /\ MatchString blockCommentOpen line = false
                    /\ MatchString blockCommentClose line = false)
        by (repeat split; assumption).
      clear Hc1 Hc2 Hc3.
      code_line f st line Hcm Hni Hst Hbal.
      destruct (FindStringSubmatch ctrl1Line line) as [m1 |] eqn:E1;
        [code_done f |].
      assert (E1' : MatchString ctrl1Line line = false)
        by (unfold MatchString; rewrite E1; reflexivity).
      rewrite E1' in Hq. cbn [orb] in Hq.
      apply andb_true_iff in Hq. destruct Hq as [Hq H4].
      apply andb_true_iff in Hq. destruct Hq as [Hq H3].
      apply andb_true_iff in Hq. destruct Hq as [H1 H2].
      apply negb_true_iff in H1, H2, H3, H4.
      apply MatchString_false in H1, H2, H3, H4.
      rewrite H1, H2, H3, H4.
      destruct (FindStringSubmatch ctrlCont line) as [m5 |]; code_done f.
Qed.

Lemma beginsWith_nonblank L line :
  forallb (fun w => match str w with x :: _ => negb (IsSpace x) | [] => false end) L
  = true ->
  beginsWith L line -> len (TrimSpace line) <> 0.
Proof.
  intros HL (kw & r & Hin & Hh).
  destruct (@keyword_startsVisible L kw HL Hin) as [Hne Hv].
  destruct kw as [| x k]; [congruence |].
  apply (@TrimSpace_nonblank line x (k ++ r)); [exact Hh | exact Hv].
Qed.

Lemma lineStep_state f st output blank line :
  len (TrimSpace line) <> 0 ->
  let '(offset, _, st1) := formatLine f st line in
  let st' := fst (fst (lineStep f (st, output, blank) line)) in
  ilvl st' = Z.max 0 (ilvl st1 + offset)
  /\ istep st' = istep st1 /\ fstep st' = fstep st1
  /\ (inCode st1 -> inCode st').
Proof.
  intros Hnb. unfold lineStep.
  destruct (Z.eqb_spec (len (TrimSpace line)) 0) as [| _]; [contradiction |].
  destruct (formatLine f st line) as [[offset out] st1].
  cbv zeta. cbn [ilvl set_ilvl].
  destruct (Z.ltb_spec (ilvl st1 + offset) 0);
    destruct (separateBlock f && (offset <? 0)); cbn [fst ilvl set_ilvl istep fstep];
    (split; [lia |]); (split; [reflexivity |]); (split; [reflexivity |]);
    intros Hin; exact Hin.
Qed.

Lemma lineStep_blank f st output blank line :
  len (TrimSpace line) = 0 ->
  fst (fst (lineStep f (st, output, blank) line)) = st.
Proof.
  intros Hb. unfold lineStep. rewrite Hb. cbn [Z.eqb].
  destruct blank; reflexivity.
Qed.

Lemma opens_step line step :
  opens line = Some step ->
  balanced line = true /\ len (TrimSpace line) <> 0 /\ (step = 1 \/ step = 2)
  /\ exists m,
       (FindStringSubmatch ctrl1Line line = None
        /\ FindStringSubmatch ctrlStart line = Some m /\ step = 1)
       \/ (FindStringSubmatch ctrlStartSwitch line = Some m /\ step = 2).
Proof.
  unfold opens. intros H.
  destruct (balanced line) eqn:Hb; [| discriminate]. cbn [negb] in H.
  split; [reflexivity |].
  destruct (MatchString ctrlStart line && negb (MatchString ctrl1Line line)) eqn:E.
  - injection H as <-. apply andb_true_iff in E. destruct E as [E1 E2].
    apply negb_true_iff in E2. apply MatchString_false in E2.
    apply MatchString_true in E1. destruct E1 as [m E1].
    split.
    { pose proof E1 as E. begins E.
      eapply beginsWith_nonblank; [| exact E]. reflexivity. }
    split; [left; reflexivity |]. exists m. left. repeat split; assumption.
  - destruct (MatchString ctrlStartSwitch line) eqn:E'; [| discriminate].
    injection H as <-.
    apply MatchString_true in E'. destruct E' as [m E1].
    split.
    { pose proof E1 as E0. begins E0.
      eapply beginsWith_nonblank; [| exact E0]. reflexivity. }
    split; [right; reflexivity |]. exists m. right. split; [assumption | reflexivity].
Qed.

Lemma nested_restore (f : Config) (lines : list text) :
  nested lines ->
  forall st output blank, inCode st -> 0 <= ilvl st ->
  let st' := fst (fst (fold_left (lineStep f) lines (st, output, blank))) in
  ilvl st' = ilvl st /\ istep st' = istep st /\ fstep st' = fstep st
  /\ inCode st'.
Proof.
  induction 1 as [| line rest Hq Hn IH
                  | opener body closer rest step Ho Hc Hb IHb Hr IHr];
    intros st output blank Hst Hl; cbv zeta.
  - cbn [fold_left fst].
    split; [reflexivity |]. split; [reflexivity |]. split; [reflexivity |].
    exact Hst.
  - cbn [fold_left].
    destruct (Z.eq_dec (len (TrimSpace line)) 0) as [Hz | Hnz].
    + pose proof (@lineStep_blank f st output blank line Hz) as E.
      destruct (lineStep f (st, output, blank) line) as [[st1 o1] b1].
      cbn [fst] in E. subst st1. apply IH; assumption.
    + pose proof (@quiet_step f st line Hq Hnz Hst) as Hs.
      pose proof (@lineStep_state f st output blank line Hnz) as Hls.
      destruct (formatLine f st line) as [[offset out] st1].
      cbv zeta in Hls.
      destruct (lineStep f (st, output, blank) line) as [[st2 o2] b2].
      cbn [fst] in Hls.
      destruct Hs as (-> & S1 & S2 & S3 & S4).
      destruct Hls as (L1 & L2 & L3 & L4).
      specialize (IH st2 o2 b2 (L4 S4)). cbv zeta in IH.
      destruct IH as (I1 & I2 & I3 & I4); [lia |].
      split; [lia |]. split; [congruence |]. split; [congruence |]. exact I4.
  - cbn [fold_left]. rewrite fold_left_app. cbn [fold_left].
    destruct (@opens_step _ _ Ho) as (Hbo & Hnz & Hstep & m & Hm).
    pose proof (@opener_state f st opener m step Hm Hst Hbo) as Hs.
    pose proof (@lineStep_state f st output blank opener Hnz) as Hls.
    destruct (formatLine f st opener) as [[offset out] st1].
    cbv zeta in Hls.
    destruct (lineStep f (st, output, blank) opener) as [[st2 o2] b2].
    cbn [fst] in Hls.
    destruct Hs as (-> & S2 & S3 & S1 & S4).
    destruct Hls as (L1 & L2 & L3 & L4).
    specialize (IHb st2 o2 b2 (L4 S4)). cbv zeta in IHb.
    destruct IHb as (I1 & I2 & I3 & I4); [lia |].
    destruct (fold_left (lineStep f) body (st2, o2, b2)) as [[st3 o3] b3].
    cbn [fst] in I1, I2, I3, I4.
    unfold closes in Hc. apply andb_true_iff in Hc. destruct Hc as [Hbc Hc].
    apply MatchString_true in Hc. destruct Hc as [mc Hc].
    assert (Ei : istep st3 = istep st ++ [step]) by congruence.
    pose proof (@ctrlEnd_control f st3 closer mc (istep st) step Hc I4 Hbc Ei)
      as Hs.
    pose proof (@lineStep_state f st3 o3 b3 closer (@end_nonblank _ _ Hc)) as Hls.
    destruct (formatLine f st3 closer) as [[offset out'] st4].
    cbv zeta in Hs, Hls.
    destruct (lineStep f (st3, o3, b3) closer) as [[st5 o5] b5].
    cbn [fst] in Hls.
    destruct Hs as (-> & T5 & T6 & T1 & T4).
    destruct Hls as (K1 & K2 & K3 & K4).
    specialize (IHr st5 o5 b5 (K4 T4)). cbv zeta in IHr.
    destruct IHr as (J1 & J2 & J3 & J4); [lia |].
    split; [lia |]. split; [congruence |]. split; [congruence |]. exact J4.
Qed.

Lemma whole_selection f (lines : list text) :
  StartLine (opts f) <= 1 -> EndLine (opts f) <= 0 ->
  selection f lines = (0, Z.of_nat (List.length lines)).
Proof.
  intros Hs He. unfold selection. cbv zeta.
  assert (E : (if StartLine (opts f) <? 1 then 1 else StartLine (opts f)) = 1).
  { destruct (Z.ltb_spec (StartLine (opts f)) 1); lia. }
  rewrite E. cbn [Z.sub Z.add Z.opp Z.pos_sub].
  destruct (Z.ltb_spec (Z.of_nat (List.length lines)) 0); [lia |].
  destruct (Z.ltb_spec 0 (EndLine (opts f))); [lia |]. cbn [andb].
  destruct (Z.ltb_spec (Z.of_nat (List.length lines)) 0); [lia |].
  reflexivity.
Qed.

Lemma whole_run_state f st (first : list rune) (others : list (list rune)) :
  oneLine first -> takeWhile is_s first = [] ->
  StartLine (opts f) <= 1 -> EndLine (opts f) <= 0 ->
  snd (FormatLines f st (first :: others))
  = fst (fst (fold_left (lineStep f) (first :: others)
                (set_ilvl (resetState st) 0, [], true))).
Proof.
  intros H1 Hh Hs He.
  unfold FormatLines. rewrite (@whole_selection f (first :: others) Hs He).
  match goal with
  | |- context [0 =? ?n] =>
      destruct (Z.eqb_spec 0 n) as [C | _];
      [cbn [List.length] in C; lia |]
  end.
  unfold formatSegment, slice.
  rewrite Z.sub_0_r, Nat2Z.id. cbn [Z.to_nat skipn].
  rewrite firstn_all. cbv iota.
  rewrite (@enterSegment_exact f (resetState st) first others H1).
  rewrite Hh. cbn [len fold_right].
  change (Z.quot 0 (iwidth f)) with 0.
  assert (Ed : dropWhile is_s first = first).
  { rewrite <- (takeWhile_dropWhile is_s first) at 2. rewrite Hh. reflexivity. }
  rewrite Ed.
  match goal with |- _ = fst (fst ?R) => set (r := R) end.
  match goal with
  | |- context [fold_left ?a ?b ?c] => change (fold_left a b c) with r
  end.
  clearbody r. destruct r as [[st' output] blank]. reflexivity.
Qed.

(** X18. Over lines made of control blocks that are each closed by an
    end keyword, nested in any way, and of lines that open and close
    nothing, the loop of [FormatLines] comes back to the level and to
    the stacks it started from. A whole input of such lines whose first
    line has no leading white space leaves the formatter at level 0 with
    empty stacks. *)
Theorem nested_blocks_restore (f : Config) (lines : list text) :
  nested lines ->
  (forall st output blank, inCode st -> 0 <= ilvl st ->
     let st' := fst (fst (fold_left (lineStep f) lines (st, output, blank))) in
     ilvl st' = ilvl st /\ istep st' = istep st /\ fstep st' = fstep st
     /\ inCode st')
  /\ (forall st (first : text) (others : list text),
        lines = first :: others -> oneLine first -> takeWhile is_s first = [] ->
        StartLine (opts f) <= 1 -> EndLine (opts f) <= 0 ->
        let st' := snd (FormatLines f st lines) in
        ilvl st' = 0 /\ istep st' = [] /\ fstep st' = [] /\ inCode st').
Proof.
  intros Hn. split; [exact (@nested_restore f lines Hn) |].
  intros st first others El H1 Hh Hs He. cbv zeta. subst lines.
  pose proof (@whole_run_state f st first others H1 Hh Hs He) as W.
  pose proof (@nested_restore f (first :: others) Hn
                (set_ilvl (resetState st) 0) [] true) as R.
  cbv zeta in R.
  match goal with
  | |- context [snd ?X] => set (s := snd X) in *
  end.
  match type of R with
  | _ -> _ -> ilvl ?Y = _ /\ _ => assert (E : s = Y) by exact W
  end.
  rewrite E. apply R; [unfold inCode; cbn; lia | cbn; lia].
Qed.

Lemma nested_blocks_restore_witness :
  nested nestedLoop
  /\ (forall st output blank, inCode st -> 0 <= ilvl st ->
        let st' :=
          fst (fst (fold_left (lineStep defaultConfig) nestedLoop
                      (st, output, blank))) in
        ilvl st' = ilvl st /\ istep st' = istep st /\ fstep st' = fstep st
        /\ inCode st')
  /\ (forall st (first : text) (others : list text),
        nestedLoop = first :: others ->
        oneLine first -> takeWhile is_s first = [] ->
        StartLine (opts defaultConfig) <= 1 ->
        EndLine (opts defaultConfig) <= 0 ->
        let st' := snd (FormatLines defaultConfig st nestedLoop) in
        ilvl st' = 0 /\ istep st' = [] /\ fstep st' = [] /\ inCode st').
Proof.
  assert (N : nested nestedLoop).
  { apply (@nested_block (str "while k < n")
             (texts ["  if a(k) > 0"; ""; "    k = k + 1;"; "  else";
                     "    % skip"; "  end"])
             (str "end") (texts ["disp(k)"]) 1);
      [reflexivity | reflexivity | |].
    - apply (@nested_block (str "  if a(k) > 0")
               (texts [""; "    k = k + 1;"; "  else"; "    % skip"])
               (str "  end") [] 1);
        [reflexivity | reflexivity | | constructor].
      repeat (apply nested_quiet; [reflexivity |]). constructor.
    - apply nested_quiet; [reflexivity | constructor]. }
  split; [exact N |].
  exact (@nested_blocks_restore defaultConfig nestedLoop N).
Defined.
